(** * Smart Warehouse dashboard: telemetry / replay engine

    A shallow embedding of the client engine of
    [smart_warehouse/ui/dashboard/src]:

    - [types.ts]                       the data model,
    - [pages/OperationsDashboard.tsx]  tick buffer, replay controller,
                                       connection manager, run catalog,
    - [components/RunPlaybackControls] the guards of the playback widgets,
    - [components/WarehouseCanvas.tsx] the heat-map layer of the renderer
                                       and the colours of the robots,
    - [components/RunHistoryList]      the rows of the run history,
    - [components/ScenarioWizard]      the coordinate lists and the
                                       probabilities of the scenario form,
    - [api.ts]                         the endpoint addresses.

    The React component is modelled as a state machine: one record holds the
    [useState] cells and the [useRef] cells, every handler is a function on
    that record which also returns the requests it issues to the outside
    world, and one [step] is "run the handler, then run the effects whose
    dependencies changed".  JavaScript runs each handler to completion, so a
    step is atomic. *)

From Stdlib Require Import ZArith QArith List String Ascii Bool Lia Sorted.
Import ListNotations.

Local Open Scope string_scope.
Local Open Scope list_scope.
Local Open Scope Z_scope.

(* ================================================================== *)
(** ** JavaScript array helpers *)

Module Js.

(** [a.length] *)
Definition len {A} (a : list A) : Z := Z.of_nat (List.length a).

(** [a[i]]: [undefined] (here [None]) outside [0 .. length-1]. *)
Definition index {A} (a : list A) (i : Z) : option A :=
  if i <? 0 then None else nth_error a (Z.to_nat i).

(** [a.slice(start)], negative [start] counting from the end. *)
Definition slice_from {A} (a : list A) (start : Z) : list A :=
  let k := if start <? 0 then Z.max (len a + start) 0
           else Z.min start (len a) in
  skipn (Z.to_nat k) a.

(** [a.shift()] as seen on the array: the head is removed. *)
Definition shift {A} (a : list A) : list A := tl a.

(** [a.find(p)] *)
Definition find {A} (p : A -> bool) (a : list A) : option A := List.find p a.

(** [x ?? y] *)
Definition nullish {A} (x : option A) (y : option A) : option A :=
  match x with Some _ => x | None => y end.

(** Truthiness of a [string | null]: [null] and [""] are falsy. *)
Definition truthy (s : option string) : bool :=
  match s with
  | Some EmptyString => false
  | Some _ => true
  | None => false
  end.

(** The last [n] elements of an array (all of it when it is shorter). *)
Definition lastn {A} (n : nat) (a : list A) : list A :=
  skipn (List.length a - n) a.

End Js.

(* ================================================================== *)
(** ** Data model ([types.ts]) *)

Record GridPosition := { pos_x : Z; pos_y : Z }.

Record Layout := {
  width : Z;
  height : Z;
  cell_size : Z;
  obstacles : list GridPosition;
  pickup_zones : list GridPosition;
  dropoff_zones : list GridPosition;
  charging_zones : option (list GridPosition)
}.

Record SimulationPackage := {
  pkg_id : string;
  pkg_position : GridPosition;
  pkg_status : string;
  assigned_robot : option string;
  pkg_created_at : string
}.

Record Reservation := {
  res_robot_id : string;
  res_position : GridPosition;
  expires_at : string
}.

Record RobotTelemetry := {
  robot_id : string;
  robot_state : string;
  robot_position : GridPosition;
  battery_level : Q;
  current_job : option string;
  path : list GridPosition
}.

Record SimulationState := {
  packages : list SimulationPackage;
  reservations : list Reservation;
  robots : list RobotTelemetry;
  layout : Layout
}.

Inductive RunStage :=
  QUEUED | WARMING_UP | RUNNING | COMPLETED | FAILED | CANCELLED.

Record RunMetrics := {
  throughput_per_hour : Q;
  sla_breaches : Q;
  average_cycle_time_seconds : Q;
  active_robots : Q;
  utilization : Q;
  fault_ratio : Q;
  queue_depth : Q;
  delivered : Q;
  spawned : Q
}.

(** [Record<string, number>]: the entries in [Object.entries] order (keys of
    the form ["x:y"] are not array indices, so that is insertion order). *)
Definition Heatmap := list (string * Z).

(** The payload is opaque to the engine; it is kept as its JSON text. *)
Record TimelineEventDetail := {
  timestamp : string;
  ev_type : string;
  message : string;
  payload : string
}.

(** Of [ScenarioConfig] the dashboard reads the name and the layout; the
    fleet, demand, operations, failure, optimisation and horizon profiles
    are only printed. *)
Record ScenarioConfig := {
  name : string;
  description : string;
  config_layout : Layout
}.

Record ScenarioSummary := {
  scn_id : string;
  scn_created_at : string;
  config : ScenarioConfig
}.

(** [created_at] is an ISO time stamp in the source and is only ever read
    through [new Date(created_at).getTime()]; the record holds that instant
    (milliseconds since the epoch). *)
Record ScenarioRun := {
  run_id : string;
  scenario_id : string;
  stage : RunStage;
  created_at : Z;
  started_at : option string;
  completed_at : option string;
  metrics : RunMetrics;
  heatmap : Heatmap;
  error : option string
}.

(** [ScenarioRunDetail extends ScenarioRun] *)
Record ScenarioRunDetail := {
  base : ScenarioRun;
  state : option SimulationState;
  detail_timeline : list TimelineEventDetail
}.

Record RunTick := {
  tick_stage : RunStage;
  elapsed_seconds : Q;
  tick_state : SimulationState;
  tick_metrics : RunMetrics;
  tick_heatmap : Heatmap;
  recent_events : list TimelineEventDetail
}.

Definition stage_eqb (a b : RunStage) : bool :=
  match a, b with
  | QUEUED, QUEUED | WARMING_UP, WARMING_UP | RUNNING, RUNNING
  | COMPLETED, COMPLETED | FAILED, FAILED | CANCELLED, CANCELLED => true
  | _, _ => false
  end.

(** [stage === "RUNNING" || stage === "WARMING_UP"] *)
Definition is_live_stage (s : RunStage) : bool :=
  stage_eqb s RUNNING || stage_eqb s WARMING_UP.

(** [stage === "COMPLETED" || stage === "FAILED" || stage === "CANCELLED"] *)
Definition is_terminal_stage (s : RunStage) : bool :=
  stage_eqb s COMPLETED || stage_eqb s FAILED || stage_eqb s CANCELLED.

(* ================================================================== *)
(** ** The operations page ([pages/OperationsDashboard.tsx]) *)

Module OperationsDashboard.

Import Js.

Definition TICK_HISTORY_LIMIT : Z := 900.
Definition TIMELINE_LIMIT : Z := 200.

Inductive Mode := live | replay.

Definition mode_eqb (a b : Mode) : bool :=
  match a, b with
  | live, live | replay, replay => true
  | _, _ => false
  end.

Inductive Tone := success | error_tone.

Record Toast := { toast_message : string; tone : Tone }.

(** A socket returned by [subscribeToRun] is known by what its three
    callbacks close over: the run id of [attachRunStream] and the
    [attempt] of the [connect] call that opened it. *)
Record Socket := { sock_run : string; sock_attempt : nat }.

(** The pending [window.setTimeout(() => connect(attempt + 1), delay)] of
    [scheduleReconnect]: the run id closed over, the argument [connect]
    will get, and the delay in milliseconds. *)
Record Timer := { timer_run : string; timer_attempt : nat; timer_delay : Z }.

(** The [useState] cells, then the [useRef] cells.  The wizard and the
    launch spinner ([wizardOpen], [isCreatingScenario],
    [launchingScenarioId]) are form state and left out. *)
Record View := {
  scenarios : list ScenarioSummary;
  runs : list ScenarioRun;
  selectedScenario : option ScenarioSummary;
  activeRun : option ScenarioRunDetail;
  timeline : list TimelineEventDetail;
  tickHistory : list RunTick;
  mode : Mode;
  cursor : Z;
  showHeatmap : bool;
  toast : option Toast;
  socketRef : option Socket;
  modeRef : Mode;
  activeRunIdRef : option string;
  runStageRef : option RunStage;
  reconnectTimerRef : option Timer
}.

(** What a handler asks of the outside world. *)
Inductive Command :=
| FetchScenarios                              (* refreshScenarios() *)
| FetchRuns                                   (* refreshRuns() *)
| FetchRunDetail (runId : string)             (* handleRunSelect(runId) *)
| OpenSocket (runId : string) (attempt : nat) (* subscribeToRun(runId, ..) *)
| CloseSocket (s : Socket).                   (* socket.close(1000, ..) *)

(** *** Field updates *)

Definition set_scenarios v (d : View) : View :=
  {| scenarios := v; runs := runs d; selectedScenario := selectedScenario d;
     activeRun := activeRun d; timeline := timeline d;
     tickHistory := tickHistory d; mode := mode d; cursor := cursor d;
     showHeatmap := showHeatmap d; toast := toast d;
     socketRef := socketRef d; modeRef := modeRef d;
     activeRunIdRef := activeRunIdRef d; runStageRef := runStageRef d;
     reconnectTimerRef := reconnectTimerRef d |}.

Definition set_runs v (d : View) : View :=
  {| scenarios := scenarios d; runs := v;
     selectedScenario := selectedScenario d;
     activeRun := activeRun d; timeline := timeline d;
     tickHistory := tickHistory d; mode := mode d; cursor := cursor d;
     showHeatmap := showHeatmap d; toast := toast d;
     socketRef := socketRef d; modeRef := modeRef d;
     activeRunIdRef := activeRunIdRef d; runStageRef := runStageRef d;
     reconnectTimerRef := reconnectTimerRef d |}.

Definition set_selectedScenario v (d : View) : View :=
  {| scenarios := scenarios d; runs := runs d; selectedScenario := v;
     activeRun := activeRun d; timeline := timeline d;
     tickHistory := tickHistory d; mode := mode d; cursor := cursor d;
     showHeatmap := showHeatmap d; toast := toast d;
     socketRef := socketRef d; modeRef := modeRef d;
     activeRunIdRef := activeRunIdRef d; runStageRef := runStageRef d;
     reconnectTimerRef := reconnectTimerRef d |}.

Definition set_activeRun v (d : View) : View :=
  {| scenarios := scenarios d; runs := runs d;
     selectedScenario := selectedScenario d;
     activeRun := v; timeline := timeline d;
     tickHistory := tickHistory d; mode := mode d; cursor := cursor d;
     showHeatmap := showHeatmap d; toast := toast d;
     socketRef := socketRef d; modeRef := modeRef d;
     activeRunIdRef := activeRunIdRef d; runStageRef := runStageRef d;
     reconnectTimerRef := reconnectTimerRef d |}.

Definition set_timeline v (d : View) : View :=
  {| scenarios := scenarios d; runs := runs d;
     selectedScenario := selectedScenario d;
     activeRun := activeRun d; timeline := v;
     tickHistory := tickHistory d; mode := mode d; cursor := cursor d;
     showHeatmap := showHeatmap d; toast := toast d;
     socketRef := socketRef d; modeRef := modeRef d;
     activeRunIdRef := activeRunIdRef d; runStageRef := runStageRef d;
     reconnectTimerRef := reconnectTimerRef d |}.

Definition set_tickHistory v (d : View) : View :=
  {| scenarios := scenarios d; runs := runs d;
     selectedScenario := selectedScenario d;
     activeRun := activeRun d; timeline := timeline d;
     tickHistory := v; mode := mode d; cursor := cursor d;
     showHeatmap := showHeatmap d; toast := toast d;
     socketRef := socketRef d; modeRef := modeRef d;
     activeRunIdRef := activeRunIdRef d; runStageRef := runStageRef d;
     reconnectTimerRef := reconnectTimerRef d |}.

Definition set_mode v (d : View) : View :=
  {| scenarios := scenarios d; runs := runs d;
     selectedScenario := selectedScenario d;
     activeRun := activeRun d; timeline := timeline d;
     tickHistory := tickHistory d; mode := v; cursor := cursor d;
     showHeatmap := showHeatmap d; toast := toast d;
     socketRef := socketRef d; modeRef := modeRef d;
     activeRunIdRef := activeRunIdRef d; runStageRef := runStageRef d;
     reconnectTimerRef := reconnectTimerRef d |}.

Definition set_cursor v (d : View) : View :=
  {| scenarios := scenarios d; runs := runs d;
     selectedScenario := selectedScenario d;
     activeRun := activeRun d; timeline := timeline d;
     tickHistory := tickHistory d; mode := mode d; cursor := v;
     showHeatmap := showHeatmap d; toast := toast d;
     socketRef := socketRef d; modeRef := modeRef d;
     activeRunIdRef := activeRunIdRef d; runStageRef := runStageRef d;
     reconnectTimerRef := reconnectTimerRef d |}.

Definition set_showHeatmap v (d : View) : View :=
  {| scenarios := scenarios d; runs := runs d;
     selectedScenario := selectedScenario d;
     activeRun := activeRun d; timeline := timeline d;
     tickHistory := tickHistory d; mode := mode d; cursor := cursor d;
     showHeatmap := v; toast := toast d;
     socketRef := socketRef d; modeRef := modeRef d;
     activeRunIdRef := activeRunIdRef d; runStageRef := runStageRef d;
     reconnectTimerRef := reconnectTimerRef d |}.

Definition set_toast v (d : View) : View :=
  {| scenarios := scenarios d; runs := runs d;
     selectedScenario := selectedScenario d;
     activeRun := activeRun d; timeline := timeline d;
     tickHistory := tickHistory d; mode := mode d; cursor := cursor d;
     showHeatmap := showHeatmap d; toast := v;
     socketRef := socketRef d; modeRef := modeRef d;
     activeRunIdRef := activeRunIdRef d; runStageRef := runStageRef d;
     reconnectTimerRef := reconnectTimerRef d |}.

Definition set_socketRef v (d : View) : View :=
  {| scenarios := scenarios d; runs := runs d;
     selectedScenario := selectedScenario d;
     activeRun := activeRun d; timeline := timeline d;
     tickHistory := tickHistory d; mode := mode d; cursor := cursor d;
     showHeatmap := showHeatmap d; toast := toast d;
     socketRef := v; modeRef := modeRef d;
     activeRunIdRef := activeRunIdRef d; runStageRef := runStageRef d;
     reconnectTimerRef := reconnectTimerRef d |}.

Definition set_modeRef v (d : View) : View :=
  {| scenarios := scenarios d; runs := runs d;
     selectedScenario := selectedScenario d;
     activeRun := activeRun d; timeline := timeline d;
     tickHistory := tickHistory d; mode := mode d; cursor := cursor d;
     showHeatmap := showHeatmap d; toast := toast d;
     socketRef := socketRef d; modeRef := v;
     activeRunIdRef := activeRunIdRef d; runStageRef := runStageRef d;
     reconnectTimerRef := reconnectTimerRef d |}.

Definition set_activeRunIdRef v (d : View) : View :=
  {| scenarios := scenarios d; runs := runs d;
     selectedScenario := selectedScenario d;
     activeRun := activeRun d; timeline := timeline d;
     tickHistory := tickHistory d; mode := mode d; cursor := cursor d;
     showHeatmap := showHeatmap d; toast := toast d;
     socketRef := socketRef d; modeRef := modeRef d;
     activeRunIdRef := v; runStageRef := runStageRef d;
     reconnectTimerRef := reconnectTimerRef d |}.

Definition set_runStageRef v (d : View) : View :=
  {| scenarios := scenarios d; runs := runs d;
     selectedScenario := selectedScenario d;
     activeRun := activeRun d; timeline := timeline d;
     tickHistory := tickHistory d; mode := mode d; cursor := cursor d;
     showHeatmap := showHeatmap d; toast := toast d;
     socketRef := socketRef d; modeRef := modeRef d;
     activeRunIdRef := activeRunIdRef d; runStageRef := v;
     reconnectTimerRef := reconnectTimerRef d |}.

Definition set_reconnectTimerRef v (d : View) : View :=
  {| scenarios := scenarios d; runs := runs d;
     selectedScenario := selectedScenario d;
     activeRun := activeRun d; timeline := timeline d;
     tickHistory := tickHistory d; mode := mode d; cursor := cursor d;
     showHeatmap := showHeatmap d; toast := toast d;
     socketRef := socketRef d; modeRef := modeRef d;
     activeRunIdRef := activeRunIdRef d; runStageRef := runStageRef d;
     reconnectTimerRef := v |}.

(** *** Derived values ([useMemo] and the render body) *)

Definition activeTick (d : View) : option RunTick :=
  let h := tickHistory d in
  if len h =? 0 then None
  else match mode d with
       | replay => nullish (index h (cursor d)) (index h (len h - 1))
       | live => index h (len h - 1)
       end.

Definition currentState (d : View) : option SimulationState :=
  nullish (option_map tick_state (activeTick d))
          (match activeRun d with Some r => state r | None => None end).

Definition currentMetrics (d : View) : option RunMetrics :=
  nullish (option_map tick_metrics (activeTick d))
          (option_map (fun r => metrics (base r)) (activeRun d)).

Definition currentHeatmap (d : View) : Heatmap :=
  match nullish (option_map tick_heatmap (activeTick d))
                (option_map (fun r => heatmap (base r)) (activeRun d)) with
  | Some h => h
  | None => []
  end.

Definition recentTimeline (d : View) : list TimelineEventDetail :=
  rev (slice_from (timeline d) (-40)).

Definition activeScenario (d : View) : option ScenarioSummary :=
  match activeRun d with
  | Some r =>
      match find (fun item => String.eqb (scn_id item) (scenario_id (base r)))
                 (scenarios d) with
      | Some m => Some m
      | None => selectedScenario d
      end
  | None => selectedScenario d
  end.

Definition fallbackLayout (d : View) : option Layout :=
  match activeScenario d with
  | None => None
  | Some s =>
      let l := config_layout (config s) in
      Some {| width := width l; height := height l;
              cell_size := cell_size l; obstacles := obstacles l;
              pickup_zones := pickup_zones l;
              dropoff_zones := dropoff_zones l;
              charging_zones := charging_zones l |}
  end.

(** The name in the run header. *)
Definition scenarioName (d : View) : string :=
  match activeRun d with
  | None =>
      match selectedScenario d with
      | Some s => name (config s)
      | None => ""
      end
  | Some r =>
      match nullish
              (option_map
                 (fun s => name (config s))
                 (find (fun item => String.eqb (scn_id item)
                                               (scenario_id (base r)))
                       (scenarios d)))
              (option_map (fun s => name (config s)) (selectedScenario d))
      with
      | Some n => n
      | None => "Scenario"
      end
  end.

(** The props of [<WarehouseCanvas>]. *)
Record CanvasProps := {
  cv_layout : option Layout;
  cv_packages : list SimulationPackage;
  cv_robots : list RobotTelemetry;
  cv_reservations : list Reservation;
  cv_heatmap : option Heatmap;
  cv_showHeatmap : bool
}.

Definition or_empty {A} (x : option (list A)) : list A :=
  match x with Some l => l | None => [] end.

(** The canvas is rendered only under [activeRun ? (..) : empty state]. *)
Definition canvasProps (d : View) : option CanvasProps :=
  match activeRun d with
  | None => None
  | Some _ =>
      let st := currentState d in
      Some {| cv_layout := nullish (option_map layout st) (fallbackLayout d);
              cv_packages := or_empty (option_map packages st);
              cv_robots := or_empty (option_map robots st);
              cv_reservations := or_empty (option_map reservations st);
              cv_heatmap := if showHeatmap d then Some (currentHeatmap d)
                            else None;
              cv_showHeatmap := showHeatmap d |}
  end.

(** *** Connection manager *)

Definition clearReconnectTimer (d : View) : View :=
  match reconnectTimerRef d with
  | Some _ => set_reconnectTimerRef None d
  | None => d
  end.

Definition closeSocket (d : View) : View * list Command :=
  let d := clearReconnectTimer d in
  match socketRef d with
  | Some s => (set_socketRef None d, [CloseSocket s])
  | None => (d, [])
  end.

Definition id_eqb (a b : option string) : bool :=
  match a, b with
  | Some x, Some y => String.eqb x y
  | None, None => true
  | _, _ => false
  end.

Definition shouldReconnect (d : View) (runId : string) : bool :=
  if negb (id_eqb (activeRunIdRef d) (Some runId)) then false
  else match runStageRef d with
       | None => true
       | Some s => stage_eqb s WARMING_UP || stage_eqb s RUNNING
       end.

Definition scheduleReconnect (d : View) (runId : string) (attempt : nat)
  : View * list Command :=
  let d := clearReconnectTimer d in
  if negb (shouldReconnect d runId) then
    (set_reconnectTimerRef None d, [FetchRuns])
  else if (5 <=? attempt)%nat then
    let d := set_toast (Some {| toast_message := "Run stream lost connection";
                                tone := error_tone |}) d in
    (set_reconnectTimerRef None d, [FetchRuns])
  else
    let delay := Z.min 5 (Z.of_nat attempt + 1) * 1000 in
    (set_reconnectTimerRef
       (Some {| timer_run := runId; timer_attempt := attempt + 1;
                timer_delay := delay |}) d, []).

Definition connect (d : View) (runId : string) (attempt : nat)
  : View * list Command :=
  let d := clearReconnectTimer d in
  let d := set_activeRunIdRef (Some runId) d in
  let '(d, out) := closeSocket d in
  (set_socketRef (Some {| sock_run := runId; sock_attempt := attempt |}) d,
   out ++ [OpenSocket runId attempt]).

(** The [onError] callback of the socket opened by [connect(attempt)]. *)
Definition onStreamError (d : View) (runId : string) (attempt : nat)
  : View * list Command :=
  let d := if (attempt =? 0)%nat
           then set_toast
                  (Some {| toast_message :=
                             "Run stream interrupted, reconnecting...";
                           tone := error_tone |}) d
           else d in
  scheduleReconnect d runId attempt.

(** The [onClose] callback of the socket opened by [connect(attempt)]. *)
Definition onStreamClose (d : View) (runId : string) (attempt : nat)
           (wasClean : bool) : View * list Command :=
  let d := set_socketRef None d in
  if wasClean || negb (shouldReconnect d runId) then
    (clearReconnectTimer d, [FetchRuns])
  else scheduleReconnect d runId attempt.

Definition attachRunStream (d : View) (runId : string)
  : View * list Command :=
  connect d runId 0.

(** *** Tick buffer and timeline *)

(** The updater passed to [setTickHistory], without its [setCursor]. *)
Definition appendTick (previous : list RunTick) (tick : RunTick)
  : list RunTick :=
  let next := previous ++ [tick] in
  if len next >? TICK_HISTORY_LIMIT then shift next else next.

(** The updater passed to [setTimeline]. *)
Definition mergeTimeline (previous events : list TimelineEventDetail)
  : list TimelineEventDetail :=
  let merged := previous ++ events in
  if len merged >? TIMELINE_LIMIT
  then slice_from merged (len merged - TIMELINE_LIMIT)
  else merged.

Definition patchRun (tick : RunTick) (run : ScenarioRun) : ScenarioRun :=
  {| run_id := run_id run; scenario_id := scenario_id run;
     stage := tick_stage tick; created_at := created_at run;
     started_at := started_at run; completed_at := completed_at run;
     metrics := tick_metrics tick; heatmap := tick_heatmap tick;
     error := error run |}.

Definition handleTick (d : View) (tick : RunTick) : View * list Command :=
  let runId := activeRunIdRef d in
  let d := set_runStageRef (Some (tick_stage tick)) d in
  let next := appendTick (tickHistory d) tick in
  let d := set_tickHistory next d in
  let d := if mode_eqb (modeRef d) live then set_cursor (len next - 1) d
           else d in
  let d := if truthy runId
           then set_runs
                  (map (fun run => if id_eqb (Some (run_id run)) runId
                                   then patchRun tick run else run)
                       (runs d)) d
           else d in
  let d := set_activeRun
             (option_map
                (fun previous =>
                   {| base := patchRun tick (base previous);
                      state := Some (tick_state tick);
                      detail_timeline := detail_timeline previous |})
                (activeRun d)) d in
  let d := if negb (len (recent_events tick) =? 0)
           then set_timeline (mergeTimeline (timeline d) (recent_events tick)) d
           else d in
  (d, if is_terminal_stage (tick_stage tick) then [FetchRuns] else []).

(** *** Run selection *)

Definition seedTick (detail : ScenarioRunDetail) : list RunTick :=
  match state detail with
  | Some st =>
      [ {| tick_stage := stage (base detail);
           elapsed_seconds := 0%Q;
           tick_state := st;
           tick_metrics := metrics (base detail);
           tick_heatmap := heatmap (base detail);
           recent_events := [] |} ]
  | None => []
  end.

(** [handleRunSelect(runId)] from the point where both requests have
    resolved; [captured] is the [scenarios] array the callback closed
    over when it was created. *)
Definition handleRunSelect (d : View) (runId : string)
           (captured : list ScenarioSummary)
           (detail : ScenarioRunDetail)
           (timelineSeed : list TimelineEventDetail)
  : View * list Command :=
  let d := set_runStageRef (Some (stage (base detail))) d in
  let d := set_activeRunIdRef (Some (run_id (base detail))) d in
  let d := set_activeRun (Some detail) d in
  let d := set_timeline (slice_from timelineSeed (- TIMELINE_LIMIT)) d in
  let d := set_selectedScenario
             (let previous := selectedScenario d in
              if id_eqb (option_map scn_id previous)
                        (Some (scenario_id (base detail)))
              then previous
              else nullish
                     (find (fun item => String.eqb (scn_id item)
                                          (scenario_id (base detail)))
                           captured)
                     previous) d in
  let seed := seedTick detail in
  let d := set_tickHistory seed d in
  let isLive := is_live_stage (stage (base detail)) in
  let d := set_mode (if isLive then live
                     else if negb (len seed =? 0) then replay else live) d in
  let d := set_cursor (if negb (len seed =? 0) then len seed - 1 else 0) d in
  if isLive then attachRunStream d runId else closeSocket d.

(** *** Run catalog *)

(** [refreshScenarios] once [fetchScenarios()] has resolved. *)
Definition scenariosLoaded (d : View) (list : list ScenarioSummary) : View :=
  let d := set_scenarios list d in
  set_selectedScenario
    (match selectedScenario d with
     | Some previous =>
         match find (fun item => String.eqb (scn_id item) (scn_id previous))
                    list with
         | Some updated => Some updated
         | None => index list 0
         end
     | None => index list 0
     end) d.

(** [Array.prototype.sort] with the comparator
    [(a, b) => getTime(b) - getTime(a)]: a stable sort, most recent first.
    [insertRun r l] puts [r], which preceded all of [l] in the input,
    in front of the first element it does not have to follow. *)
Fixpoint insertRun (r : ScenarioRun) (l : list ScenarioRun)
  : list ScenarioRun :=
  match l with
  | [] => [r]
  | h :: t => if created_at h - created_at r <=? 0 then r :: l
              else h :: insertRun r t
  end.

Fixpoint sortRuns (l : list ScenarioRun) : list ScenarioRun :=
  match l with
  | [] => []
  | r :: t => insertRun r (sortRuns t)
  end.

Definition matchingRuns (sel : ScenarioSummary) (rs : list ScenarioRun)
  : list ScenarioRun :=
  sortRuns (filter (fun run => String.eqb (scenario_id run) (scn_id sel)) rs).

Definition preferredRun (sel : ScenarioSummary) (rs : list ScenarioRun)
  : option ScenarioRun :=
  let m := matchingRuns sel rs in
  nullish (find (fun run => is_live_stage (stage run)) m) (index m 0).

(** The body of the auto-select effect: the run id it hands to
    [handleRunSelect], if any. *)
Definition autoSelect (d : View) : option string :=
  match selectedScenario d with
  | None => None
  | Some sel =>
      if len (runs d) =? 0 then None
      else if len (matchingRuns sel (runs d)) =? 0 then None
      else match preferredRun sel (runs d) with
           | Some preferred =>
               if negb (id_eqb (Some (run_id preferred))
                               (option_map (fun r => run_id (base r))
                                           (activeRun d)))
               then Some (run_id preferred)
               else None
           | None => None
           end
  end.

(** *** Events *)

Inductive Event :=
| ScenariosLoaded (list : list ScenarioSummary)
| RunsLoaded (list : list ScenarioRun)
| RequestFailed (message : string)
| ScenarioCreated (created : ScenarioSummary)
| ScenarioClicked (s : ScenarioSummary)
| RunClicked (runId : string)
| RunLaunched (scenario : ScenarioSummary) (run : ScenarioRun)
| CancelAcknowledged
| RunDetailLoaded (runId : string) (captured : list ScenarioSummary)
                  (detail : ScenarioRunDetail)
                  (timelineSeed : list TimelineEventDetail)
| ModeRequested (m : Mode)
| SeekRequested (i : Z)
| HeatmapToggled (checked : bool)
| ToastExpired
| TickReceived (tick : RunTick)
| StreamError (runId : string) (attempt : nat)
| StreamClosed (runId : string) (attempt : nat) (wasClean : bool)
| ReconnectTimerFired.

Definition has_run (d : View) : bool :=
  match activeRun d with Some _ => true | None => false end.

(** The slider of [RunPlaybackControls] is disabled unless the mode is
    replay and more than one tick is buffered; its value lies between
    [min = 0] and [max = maxIndex]. *)
Definition seekEnabled (d : View) (i : Z) : bool :=
  has_run d && mode_eqb (mode d) replay
  && negb (len (tickHistory d) <=? 1)
  && (0 <=? i) && (i <=? Z.max (len (tickHistory d) - 1) 0).

Definition errorToast (m : string) : option Toast :=
  Some {| toast_message := m; tone := error_tone |}.

Definition successToast (m : string) : option Toast :=
  Some {| toast_message := m; tone := success |}.

(** The handler an event runs. *)
Definition handle (d : View) (e : Event) : View * list Command :=
  match e with
  | ScenariosLoaded list => (scenariosLoaded d list, [])
  | RunsLoaded list => (set_runs list d, [])
  | RequestFailed m => (set_toast (errorToast m) d, [])
  | ScenarioCreated created =>
      let d := set_scenarios (created :: scenarios d) d in
      let d := set_selectedScenario (Some created) d in
      (set_toast (successToast "Scenario created") d, [])
  | ScenarioClicked s => (set_selectedScenario (Some s) d, [])
  | RunClicked runId => (d, [FetchRunDetail runId])
  | RunLaunched scenario run =>
      (set_toast (successToast ("Run launched for "
                                  ++ name (config scenario))%string) d,
       [FetchRunDetail (run_id run)])
  | CancelAcknowledged =>
      (set_toast (successToast "Run cancellation requested") d, [])
  | RunDetailLoaded runId captured detail timelineSeed =>
      handleRunSelect d runId captured detail timelineSeed
  | ModeRequested m => if has_run d then (set_mode m d, []) else (d, [])
  | SeekRequested i => if seekEnabled d i then (set_cursor i d, [])
                       else (d, [])
  | HeatmapToggled b => if has_run d then (set_showHeatmap b d, [])
                        else (d, [])
  | ToastExpired => (set_toast None d, [])
  | TickReceived tick => handleTick d tick
  | StreamError runId attempt => onStreamError d runId attempt
  | StreamClosed runId attempt wasClean =>
      onStreamClose d runId attempt wasClean
  | ReconnectTimerFired =>
      match reconnectTimerRef d with
      | Some t => connect d (timer_run t) (timer_attempt t)
      | None => (d, [])
      end
  end.

(** *** Effects *)

(** [useEffect(.., [mode, tickHistory.length])] *)
Definition modeEffect (before after : View) : View :=
  if mode_eqb (mode before) (mode after)
     && (len (tickHistory before) =? len (tickHistory after))
  then after
  else
    let d := set_modeRef (mode after) after in
    if mode_eqb (mode d) live && negb (len (tickHistory d) =? 0)
    then set_cursor (len (tickHistory d) - 1) d
    else d.

(** [useEffect(.., [activeRun])] *)
Definition activeRunEffect (d : View) : View :=
  match activeRun d with
  | Some r =>
      set_runStageRef (Some (stage (base r)))
        (set_activeRunIdRef (Some (run_id (base r))) d)
  | None => set_runStageRef None (set_activeRunIdRef None d)
  end.

(** [setActiveRun] stores a new object on a loaded detail, and on a tick
    when a run is active. *)
Definition activeRunReplaced (before : View) (e : Event) : bool :=
  match e with
  | RunDetailLoaded _ _ _ _ => true
  | TickReceived _ => has_run before
  | _ => false
  end.

(** The dependencies of the auto-select effect are
    [activeRun?.id, handleRunSelect, runs, selectedScenario];
    [handleRunSelect] is rebuilt when [scenarios] is.  Arrays are compared
    by identity: a loaded list is a new array, and so is the result of
    [previous.map] in [handleTick].  The selected scenario is an element
    of the scenario list, so it is the same object iff it has the same
    id. *)
Definition autoSelectDue (before after : View) (e : Event) : bool :=
  match e with
  | ScenariosLoaded _ | ScenarioCreated _ | RunsLoaded _ => true
  | TickReceived _ => truthy (activeRunIdRef before)
  | _ => false
  end
  || negb (id_eqb (option_map scn_id (selectedScenario before))
                  (option_map scn_id (selectedScenario after)))
  || negb (id_eqb (option_map (fun r => run_id (base r)) (activeRun before))
                  (option_map (fun r => run_id (base r)) (activeRun after))).

Definition autoSelectEffect (d : View) : list Command :=
  match autoSelect d with
  | Some runId => [FetchRunDetail runId]
  | None => []
  end.

(** One reaction of the component: the handler, then the effects in
    declaration order. *)
Definition step (d : View) (e : Event) : View * list Command :=
  let '(d1, out) := handle d e in
  let d2 := modeEffect d d1 in
  let d3 := if activeRunReplaced d e then activeRunEffect d2 else d2 in
  (d3, out ++ (if autoSelectDue d d3 e then autoSelectEffect d3 else [])).

(** The component after mounting (its effects have issued
    [refreshScenarios()] and [refreshRuns()]). *)
Definition initial : View :=
  {| scenarios := []; runs := []; selectedScenario := None;
     activeRun := None; timeline := []; tickHistory := [];
     mode := live; cursor := 0; showHeatmap := true; toast := None;
     socketRef := None; modeRef := live; activeRunIdRef := None;
     runStageRef := None; reconnectTimerRef := None |}.

Fixpoint run (d : View) (es : list Event) : View * list Command :=
  match es with
  | [] => (d, [])
  | e :: es' =>
      let '(d1, out1) := step d e in
      let '(d2, out2) := run d1 es' in
      (d2, out1 ++ out2)
  end.

Definition after (d : View) (es : list Event) : View := fst (run d es).

(** The states the component can be in. *)
Definition reachable (d : View) : Prop :=
  exists es, d = after initial es.

End OperationsDashboard.


(* ================================================================== *)
(** ** Division of numbers *)

(** JavaScript numbers are binary64 doubles.  The integers of the data
    model (grid coordinates, cell sizes, visit counts, lengths) are values
    a double holds exactly, and their sums and products are exact as long
    as they stay below 2^53 in absolute value.  A quotient is not: [a / b]
    is the double nearest to the exact quotient.  A double is modelled by
    the rational it is.  The exponent range of a double is not modelled:
    the quotient of two integers below 2^53 is far from both ends of
    it. *)

Module Binary64.

(** [a / b] rounded to the nearest integer, a tie to the even one
    ([b > 0]). *)
Definition roundHalfEven (a b : Z) : Z :=
  let q := a / b in
  match 2 * (a mod b) ?= b with
  | Lt => q
  | Gt => q + 1
  | Eq => if Z.even q then q else q + 1
  end.

(** The integer [l] with [2^l <= n / d < 2^(l+1)], for positive [n] and
    [d]: [log2 n - log2 d], or one less. *)
Definition floorLog2 (n d : Z) : Z :=
  let k := Z.log2 n - Z.log2 d in
  if (if 0 <=? k then d * 2 ^ k <=? n else d <=? n * 2 ^ (- k))
  then k else k - 1.

(** The double nearest to [n / d], for positive [n] and [d]: [n / d] is
    scaled by a power of two into [2^52 .. 2^53), rounded to an integer (53
    significant bits, a tie to the even one), and scaled back. *)
Definition nearest (n d : Z) : Q :=
  let e := floorLog2 n d - 52 in
  if 0 <=? e then inject_Z (roundHalfEven n (d * 2 ^ e) * 2 ^ e)
  else Qmake (roundHalfEven (n * 2 ^ (- e)) d) (Z.to_pos (2 ^ (- e))).

(** [a / b] for integers [a] and [b > 0]. *)
Definition divide (a b : Z) : Q :=
  match a with
  | 0 => 0%Q
  | Z.pos _ => nearest a b
  | Z.neg _ => (- nearest (- a) b)%Q
  end.

(** An integer a double holds exactly, with exact neighbours
    ([Number.isSafeInteger]). *)
Definition safe (z : Z) : Prop := - 2 ^ 53 < z < 2 ^ 53.

Definition safeb (z : Z) : bool := (- 2 ^ 53 <? z) && (z <? 2 ^ 53).


End Binary64.

(* ================================================================== *)
(** ** The heat-map layer ([components/WarehouseCanvas.tsx]) *)

Module WarehouseCanvas.

Import Js Binary64.

(** *** [key.split(":")] and [Number.parseInt(s, 10)] *)

(** [s.split(sep)] for a one-character separator. *)
Fixpoint split (sep : ascii) (s : string) : list string :=
  match s with
  | EmptyString => [EmptyString]
  | String c r =>
      if Ascii.eqb c sep then EmptyString :: split sep r
      else match split sep r with
           | h :: t => String c h :: t
           | [] => [String c EmptyString]
           end
  end.

(** The strings of the model hold one code unit below 256 per character.
    The white space [trim] and [parseInt] strip, among those code units:
    tab, line feed, vertical tab, form feed, carriage return, space and the
    no-break space U+00A0. *)
Definition isWhite (c : ascii) : bool :=
  let n := nat_of_ascii c in
  (n =? 32)%nat || ((9 <=? n)%nat && (n <=? 13)%nat) || (n =? 160)%nat.

Fixpoint skipWhite (s : string) : string :=
  match s with
  | String c r => if isWhite c then skipWhite r else s
  | EmptyString => s
  end.

Definition digit (c : ascii) : option Z :=
  let n := nat_of_ascii c in
  if (48 <=? n)%nat && (n <=? 57)%nat then Some (Z.of_nat (n - 48)) else None.

(** The value of the longest prefix of decimal digits; [acc] is [None]
    until a digit has been read. *)
Fixpoint digits (s : string) (acc : option Z) : option Z :=
  match s with
  | String c r =>
      match digit c with
      | Some v => digits r (Some (match acc with
                                  | Some a => 10 * a + v
                                  | None => v
                                  end))
      | None => acc
      end
  | EmptyString => acc
  end.

(** [Number.parseInt(s, 10)]; [None] is [NaN].  The value is the integer
    the digits denote.  That is the number [parseInt] returns when it is
    below 2^53 in absolute value ([Binary64.safe]); for a longer literal
    [parseInt] returns the double nearest to it, and the properties below
    are stated for safe values. *)
Definition parseInt (s : string) : option Z :=
  match skipWhite s with
  | String "-" r => option_map Z.opp (digits r None)
  | String "+" r => digits r None
  | t => digits t None
  end.

(** [const [xRaw, yRaw] = key.split(":")], both parsed; a missing part is
    [undefined], which parses to [NaN].  [None] when either is [NaN]. *)
Definition parseKey (key : string) : option (Z * Z) :=
  match split ":" key with
  | xRaw :: yRaw :: _ =>
      match parseInt xRaw, parseInt yRaw with
      | Some x, Some y => Some (x, y)
      | _, _ => None
      end
  | _ => None
  end.

(** *** The drawing context *)

(** One [ctx.fillRect(x, y, w, h)] of the heat-map layer together with the
    [ctx.globalAlpha] in force when it is issued. *)
Record Fill := {
  fill_x : Z;
  fill_y : Z;
  fill_w : Z;
  fill_h : Z;
  fill_alpha : Q
}.

(** Assigning [ctx.globalAlpha]: a value outside [0, 1] is ignored. *)
Definition setGlobalAlpha (v current : Q) : Q :=
  if Qle_bool 0 v && Qle_bool v 1 then v else current.

(** [Math.min(a, b)] *)
Definition qmin (a b : Q) : Q := if Qle_bool a b then a else b.

(** [Math.max(...values)] for a non-empty array. *)
Definition maxOf (values : list Z) : Z :=
  match values with
  | [] => 0
  | v :: vs => fold_left Z.max vs v
  end.

(** The [entries.forEach] loop: the fills issued and the alpha left in the
    context. *)
Fixpoint drawEntries (entries : list (string * Z)) (maxCount size : Z)
         (alpha : Q) : list Fill * Q :=
  match entries with
  | [] => ([], alpha)
  | (key, count) :: rest =>
      match parseKey key with
      | None => drawEntries rest maxCount size alpha
      | Some (x, y) =>
          let intensity := qmin (divide count maxCount) 1 in
          let alpha := setGlobalAlpha intensity alpha in
          let '(fills, final) := drawEntries rest maxCount size alpha in
          ({| fill_x := x * size; fill_y := y * size;
              fill_w := size; fill_h := size;
              fill_alpha := alpha |} :: fills, final)
      end
  end.

(** [drawHeatmap(ctx, heatmap, size)].  The context comes in with
    [globalAlpha = 1]: the canvas was just resized, which resets it, and the
    layers drawn before do not touch it. *)
Definition drawHeatmap (heatmap : option Heatmap) (size : Z) : list Fill :=
  match heatmap with
  | None => []
  | Some entries =>
      if len entries =? 0 then []
      else
        let maxCount := maxOf (map snd entries) in
        if maxCount <=? 0 then []
        else fst (drawEntries entries maxCount size 1)
  end.

(** A fill issued with [globalAlpha = 0] is fully transparent: it changes
    no pixel.  [painted] keeps the fills that do. *)
Definition painted (fills : list Fill) : list Fill :=
  filter (fun f => negb (Qeq_bool (fill_alpha f) 0)) fills.


End WarehouseCanvas.
(* ================================================================== *)
(** ** The playback widget ([RunPlaybackControls]) *)

Module RunPlaybackControls.

Import OperationsDashboard.

(** [historyLength <= 1] *)
Definition disableReplay (historyLength : Z) : bool := historyLength <=? 1.

(** [Math.max(historyLength - 1, 0)] *)
Definition maxIndex (historyLength : Z) : Z := Z.max (historyLength - 1) 0.

(** The [value] of the range input, [Math.min(cursor, maxIndex)]. *)
Definition sliderValue (cursor historyLength : Z) : Z :=
  Z.min cursor (maxIndex historyLength).

(** The [disabled] attribute of the range input. *)
Definition sliderDisabled (mode : Mode) (historyLength : Z) : bool :=
  negb (mode_eqb mode replay) || disableReplay historyLength.

(** The two numbers of the position label: [cursor + 1] and
    [historyLength], or 0 and 0 when nothing is buffered. *)
Definition playbackIndex (cursor historyLength : Z) : Z * Z :=
  if historyLength =? 0 then (0, 0) else (cursor + 1, historyLength).

End RunPlaybackControls.

(* ================================================================== *)
(** ** The robot layer ([components/WarehouseCanvas.tsx]) *)

Module RobotLayer.

(** [ToInt32]: the value modulo 2^32 that lies in [-2^31 .. 2^31 - 1]. *)
Definition toInt32 (z : Z) : Z := (z + 2 ^ 31) mod 2 ^ 32 - 2 ^ 31.

(** [a << n] for [0 <= n < 32] *)
Definition shiftLeft (a n : Z) : Z := toInt32 (toInt32 a * 2 ^ n).

(** [value.charCodeAt(i)] for every [i]; the strings of the model hold
    one character per code unit. *)
Definition charCodes (value : string) : list Z :=
  map (fun c => Z.of_nat (nat_of_ascii c)) (list_ascii_of_string value).

(** The loop of [hashString] from the code unit it is at, with the value
    [hash] has there. *)
Fixpoint hashLoop (codes : list Z) (hash : Z) : Z :=
  match codes with
  | [] => hash
  | code :: rest => hashLoop rest (toInt32 (shiftLeft hash 5 - hash + code))
  end.

Definition hashString (value : string) : Z := hashLoop (charCodes value) 0.

Definition ROBOT_COLORS : list string :=
  ["#2563eb"; "#dc2626"; "#16a34a"; "#f97316"; "#8b5cf6"; "#0ea5e9";
   "#d97706"].

(** [ROBOT_COLORS[index]]; [None] is [undefined]. *)
Definition robotColor (robotId : string) : option string :=
  let index := Z.abs (hashString robotId) mod Js.len ROBOT_COLORS in
  Js.index ROBOT_COLORS index.

(** The polynomial the hash is congruent to: code units as the digits of a
    number in base 31, the first one most significant. *)
Definition polynomial (codes : list Z) : Z :=
  fold_left (fun acc code => 31 * acc + code) codes 0.

End RobotLayer.

(* ================================================================== *)
(** ** The scenario wizard ([components/ScenarioWizard]) *)

(** Coordinates are integers, as in the heat-map keys.  The code holds
    them in doubles: the two agree on the safe integers ([Binary64.safe]),
    where [parseInt] returns the integer it reads and [v += 1] is exact.
    Beyond them [parseInt] rounds (or returns [Infinity]) and a loop
    variable at 2^53 no longer advances, so the properties of the parser
    are stated for coordinates that are safe integers. *)

Module ScenarioWizard.

Import WarehouseCanvas.

(** *** String helpers *)

(** The separators of [value.split(/;|\n|,/)]. *)
Definition isSeparator (c : ascii) : bool :=
  Ascii.eqb c ";" || Ascii.eqb c "010" || Ascii.eqb c ",".

(** [s.split(re)] for a regular expression that matches one character of
    a class. *)
Fixpoint splitOn (sep : ascii -> bool) (s : string) : list string :=
  match s with
  | EmptyString => [EmptyString]
  | String c r =>
      if sep c then EmptyString :: splitOn sep r
      else match splitOn sep r with
           | h :: t => String c h :: t
           | [] => [String c EmptyString]
           end
  end.

Fixpoint trimEnd (s : string) : string :=
  match s with
  | EmptyString => EmptyString
  | String c r =>
      match trimEnd r with
      | EmptyString => if isWhite c then EmptyString
                       else String c EmptyString
      | t => String c t
      end
  end.

(** [s.trim()]; the white space is that of [isWhite]. *)
Definition trim (s : string) : string := trimEnd (skipWhite s).

(** [s.includes(c)] for a one-character [c]. *)
Fixpoint includes (c : ascii) (s : string) : bool :=
  match s with
  | EmptyString => false
  | String a r => Ascii.eqb a c || includes c r
  end.

(** [Boolean(s)] *)
Definition nonEmpty (s : string) : bool :=
  match s with EmptyString => false | _ => true end.

(** *** Coordinates *)

(** What a destructured coordinate holds: a number, [NaN] when the part
    does not start with an integer, [undefined] when the part is
    missing. *)
Inductive Coord := Num (z : Z) | NaN | Undefined.

(** The object literals [{ x, y }]; the declared type is [GridPosition],
    the fields hold what the variables hold. *)
Record Position := { px : Coord; py : Coord }.

(** Element [i] of [parts.map((v) => Number.parseInt(v.trim(), 10))]. *)
Definition coordAt (parts : list string) (i : nat) : Coord :=
  match nth_error parts i with
  | Some v => match parseInt (trim v) with
              | Some z => Num z
              | None => NaN
              end
  | None => Undefined
  end.

(** [Number.isNaN(c)]: false on [undefined]. *)
Definition isNaN (c : Coord) : bool :=
  match c with NaN => true | _ => false end.

(** [a === b] *)
Definition strictEq (a b : Coord) : bool :=
  match a, b with
  | Num x, Num y => x =? y
  | Undefined, Undefined => true
  | _, _ => false
  end.

(** [a < b]: false when a side is [undefined] or [NaN]. *)
Definition lessThan (a b : Coord) : bool :=
  match a, b with
  | Num x, Num y => x <? y
  | _, _ => false
  end.

(** The integers from [lo] to [hi], ascending. *)
Definition upto (lo hi : Z) : list Z :=
  map (fun i => lo + Z.of_nat i) (seq 0 (Z.to_nat (hi - lo + 1))).

(** The values [v] takes in [for (let v = lo; v <= hi; v += 1)] between
    safe integers: the first test fails when a bound is not a number. *)
Definition loop (lo hi : Coord) : list Z :=
  match lo, hi with
  | Num a, Num b => upto a b
  | _, _ => []
  end.

(** The range branch of the [flatMap] callback from its [NaN] test on. *)
Definition expandRange (sx sy ex ey : Coord) : list Position :=
  if isNaN sx || isNaN sy || isNaN ex || isNaN ey then []
  else if strictEq sx ex then
    let '(minY, maxY) := if lessThan sy ey then (sy, ey) else (ey, sy) in
    map (fun y => {| px := sx; py := Num y |}) (loop minY maxY)
  else if strictEq sy ey then
    let '(minX, maxX) := if lessThan sx ex then (sx, ex) else (ex, sx) in
    map (fun x => {| px := Num x; py := sy |}) (loop minX maxX)
  else [].

(** [parts[i]?.trim() ?? ""] *)
Definition textAt (parts : list string) (i : nat) : string :=
  match nth_error parts i with
  | Some v => trim v
  | None => EmptyString
  end.

(** The [flatMap] callback.  A segment that includes ["-"] splits into at
    least two pieces, so [end] is never missing there. *)
Definition parseSegment (segment : string) : list Position :=
  if includes "-" segment then
    match split "-" segment with
    | start :: finish :: _ =>
        let s := split ":" start in
        let e := split ":" finish in
        expandRange (coordAt s 0) (coordAt s 1) (coordAt e 0) (coordAt e 1)
    | _ => []
    end
  else
    let parts := split ":" segment in
    match parseInt (textAt parts 0), parseInt (textAt parts 1) with
    | Some x, Some y => [ {| px := Num x; py := Num y |} ]
    | _, _ => []
    end.

Definition parseCoordinateList (value : string) : list Position :=
  flat_map parseSegment
           (filter nonEmpty (map trim (splitOn isSeparator value))).

Definition parseStartingPositions (value : string) : list Position :=
  let positions := parseCoordinateList value in
  if Js.len positions =? 0 then [ {| px := Num 0; py := Num 0 |} ]
  else positions.

(** *** Probabilities *)

(** A JavaScript number as far as comparisons see it: its value when it is
    finite, else which of the three other values it is. *)
Inductive Number := Finite (q : Q) | NotANumber | PlusInfinity | MinusInfinity.

(** [a < b] *)
Definition numLt (a b : Number) : bool :=
  match a, b with
  | NotANumber, _ | _, NotANumber => false
  | _, MinusInfinity | PlusInfinity, _ => false
  | MinusInfinity, _ | _, PlusInfinity => true
  | Finite x, Finite y => negb (Qle_bool y x)
  end.

(** [Number.isFinite(a)] *)
Definition isFinite (a : Number) : bool :=
  match a with Finite _ => true | _ => false end.

Definition sanitizeProbability (value : Number) : Number :=
  if numLt value (Finite 0) then Finite 0
  else if numLt (Finite 1) value then Finite 1
  else if isFinite value then value else Finite 0.

End ScenarioWizard.

(* ================================================================== *)
(** ** Endpoint addresses ([api.ts]) *)

Module Api.

(** [s.endsWith("/")] *)
Fixpoint endsWithSlash (s : string) : bool :=
  match s with
  | EmptyString => false
  | String c EmptyString => Ascii.eqb c "/"
  | String _ r => endsWithSlash r
  end.

(** [s.slice(0, -1)] *)
Fixpoint dropLast (s : string) : string :=
  match s with
  | EmptyString => EmptyString
  | String _ EmptyString => EmptyString
  | String c r => String c (dropLast r)
  end.

(** [env] is [import.meta.env.VITE_API_BASE_URL]. *)
Definition rawBaseUrl (env : option string) : string :=
  match env with Some v => v | None => "/api" end.

Definition apiBaseUrl (env : option string) : string :=
  let raw := rawBaseUrl env in
  if endsWithSlash raw then dropLast raw else raw.

(** [resolveApiUrl(path)] in a page served from [origin]
    ([window.location.origin]). *)
Definition resolveApiUrl (env : option string) (origin path : string)
  : string :=
  let base := if String.eqb (apiBaseUrl env) "" then "/api"
              else apiBaseUrl env in
  if String.prefix "http://" base || String.prefix "https://" base
  then (base ++ path)%string
  else
    let origin := if endsWithSlash origin then dropLast origin else origin in
    let prefix := if String.prefix "/" base then base
                  else ("/" ++ base)%string in
    (origin ++ prefix ++ path)%string.

End Api.

(* ================================================================== *)
(** ** The run history panel ([RunHistoryList]) *)

Module RunHistoryList.

(** The name a row shows. *)
Definition rowName (scenarios : list ScenarioSummary) (run : ScenarioRun)
  : string :=
  match Js.find (fun item => String.eqb (scn_id item) (scenario_id run))
                scenarios with
  | Some scenario => name (config scenario)
  | None => "Scenario"
  end.

(** The row carries the class ["active"]; [activeRunId] is
    [activeRun?.id ?? undefined]. *)
Definition rowActive (activeRunId : option string) (run : ScenarioRun)
  : bool :=
  OperationsDashboard.id_eqb (Some (run_id run)) activeRunId.

End RunHistoryList.

(* ================================================================== *)
(** ** The layers of the canvas ([WarehouseCanvas], the drawing effect) *)

Module CanvasLayers.

Import OperationsDashboard WarehouseCanvas.

(** [if (showHeatmap) drawHeatmap(ctx, heatmap, layout.cell_size)]: what
    the effect paints for the heat map.  Without a layout the effect
    returns before it draws. *)
Definition heatmapLayer (props : CanvasProps) : list Fill :=
  match cv_layout props with
  | None => []
  | Some layout =>
      if cv_showHeatmap props
      then drawHeatmap (cv_heatmap props) (cell_size layout)
      else []
  end.

End CanvasLayers.

(* ================================================================== *)
(** ** Vocabulary of the properties *)

Import Js OperationsDashboard Binary64 WarehouseCanvas.

Arguments appendTick : simpl never.
Arguments seedTick : simpl never.
Arguments len : simpl never.
Arguments shouldReconnect : simpl never.

(** The cells the replay controller works on. *)
Definition replayCells (d : View) : list RunTick * Mode * Z * Mode :=
  (tickHistory d, mode d, cursor d, modeRef d).

(** The replay controller's invariant: the ref mirrors the mode, the cursor
    is a natural number, and in live mode it points at the newest tick. *)
Definition replay_inv (d : View) : Prop :=
  modeRef d = mode d /\ 0 <= cursor d
  /\ (mode d = live -> len (tickHistory d) <> 0 ->
      cursor d = len (tickHistory d) - 1).

(** [activeRun?.id] *)
Definition activeRunId (d : View) : option string :=
  option_map (fun r => run_id (base r)) (activeRun d).

(** The cells the connection manager works on. *)
Definition connCells (d : View)
  : option string * option string * option RunStage * option Timer :=
  (activeRunId d, activeRunIdRef d, runStageRef d, reconnectTimerRef d).

(** The timer [scheduleReconnect(attempt)] arms when it arms one. *)
Definition reconnectTimer (runId : string) (attempt : nat) : Timer :=
  {| timer_run := runId; timer_attempt := attempt + 1;
     timer_delay := Z.min 5 (Z.of_nat attempt + 1) * 1000 |}.

Definition scheduled (d : View) (runId : string) (attempt : nat)
  : option Timer :=
  if shouldReconnect d runId && negb (5 <=? attempt)%nat
  then Some (reconnectTimer runId attempt) else None.

(** The connection manager's invariant: the ref names the active run, and
    a pending reconnect timer belongs to that run. *)
Definition conn_inv (d : View) : Prop :=
  activeRunIdRef d = activeRunId d
  /\ (forall t, reconnectTimerRef d = Some t ->
                activeRunIdRef d = Some (timer_run t)).

(** A stage that keeps the stream alive in [shouldReconnect]. *)
Definition reconnectable (s : option RunStage) : Prop :=
  s = None \/ s = Some WARMING_UP \/ s = Some RUNNING.

(** A transport failure of the socket opened by [connect(attempt)] for
    [runId]: its error event, or its close event with [wasClean] false. *)
Definition failure (runId : string) (attempt : nat) (e : Event) : Prop :=
  e = StreamError runId attempt \/ e = StreamClosed runId attempt false.

(** The events of the stream and of the reconnect timer. *)
Definition stream_event (e : Event) : bool :=
  match e with
  | StreamError _ _ | StreamClosed _ _ _ | ReconnectTimerFired => true
  | _ => false
  end.

(** The index nearest to [i] among the valid ones of an array of length
    [n]. *)
Definition clamp (i n : Z) : Z := Z.max 0 (Z.min i (n - 1)).






(** *** Sample data *)

Module Sample.

Definition lay (w h : Z) : Layout :=
  {| width := w; height := h; cell_size := 32; obstacles := [];
     pickup_zones := [ {| pos_x := 0; pos_y := 0 |} ];
     dropoff_zones := [ {| pos_x := w - 1; pos_y := h - 1 |} ];
     charging_zones := None |}.

Definition noMetrics : RunMetrics :=
  {| throughput_per_hour := 0; sla_breaches := 0;
     average_cycle_time_seconds := 0; active_robots := 0; utilization := 0;
     fault_ratio := 0; queue_depth := 0; delivered := 0; spawned := 0 |}.

Definition world : SimulationState :=
  {| packages := []; reservations := []; robots := []; layout := lay 8 6 |}.

(** The [n]-th tick of a running simulation. *)
Definition tick (n : nat) : RunTick :=
  {| tick_stage := RUNNING; elapsed_seconds := inject_Z (Z.of_nat n);
     tick_state := world; tick_metrics := noMetrics;
     tick_heatmap := [("0:0", Z.of_nat n)]; recent_events := [] |}.

Definition ticks (first count : nat) : list RunTick :=
  map tick (seq first count).

Definition scenario (id : string) (w h : Z) : ScenarioSummary :=
  {| scn_id := id; scn_created_at := "2025-01-01T00:00:00Z";
     config := {| name := id; description := ""; config_layout := lay w h |} |}.

Definition runOf (id scn : string) (s : RunStage) (created : Z) : ScenarioRun :=
  {| run_id := id; scenario_id := scn; stage := s; created_at := created;
     started_at := None; completed_at := None; metrics := noMetrics;
     heatmap := []; error := None |}.

Definition detailOf (r : ScenarioRun) (st : option SimulationState)
  : ScenarioRunDetail :=
  {| base := r; state := st; detail_timeline := [] |}.

Definition warehouseA : ScenarioSummary := scenario "scn-a" 8 6.
Definition warehouseB : ScenarioSummary := scenario "scn-b" 20 10.

Definition liveRun : ScenarioRun := runOf "run-1" "scn-a" RUNNING 1000.
Definition oldRun : ScenarioRun := runOf "run-old" "scn-a" COMPLETED 1000.
Definition newRun : ScenarioRun := runOf "run-new" "scn-a" COMPLETED 2000.
Definition queuedRun : ScenarioRun := runOf "run-q" "scn-a" QUEUED 1000.

(** A live run has been selected and its stream attached. *)
Definition streaming : View :=
  after initial [RunDetailLoaded "run-1" [] (detailOf liveRun (Some world)) []].

(** The seed tick and 49 streamed ticks are buffered; the operator has
    switched to replay and moved the slider to index 10. *)
Definition scrubbing : View :=
  after streaming
        (map TickReceived (ticks 1 49)
           ++ [ModeRequested replay; SeekRequested 10]).

(** [scn-a] and [scn-b] are listed, the only run (of [scn-a], queued, no
    snapshot stored yet) is active, and the operator inspects [scn-b]. *)
Definition inspectingOther : View :=
  after initial
        [ScenariosLoaded [warehouseA; warehouseB];
         RunsLoaded [queuedRun];
         RunDetailLoaded "run-q" [warehouseA; warehouseB]
                         (detailOf queuedRun None) [];
         ScenarioClicked warehouseB].

(** Two finished runs of [scn-a] are listed and the newer one is active. *)
Definition browsing : View :=
  after initial
        [ScenariosLoaded [warehouseA];
         RunsLoaded [oldRun; newRun];
         RunDetailLoaded "run-new" [warehouseA]
                         (detailOf newRun (Some world)) []].

(** Connection attempts 0 to [n-1] of the stream of [run-1] have each
    failed and been retried, and attempt [n] has failed. *)
Definition failures (n : nat) : list Event :=
  flat_map (fun k => [StreamError "run-1" k; ReconnectTimerFired]) (seq 0 n)
  ++ [StreamError "run-1" n].

(** Values of the view that no run of the dashboard produces, to read the
    rendering functions where the replay controller never takes them: the
    cursor past the newest tick, a negative cursor, a cursor that lags
    behind in live mode, and a run record that stores a snapshot while
    nothing is buffered. *)
Definition cursorPastEnd : View := set_cursor 99 scrubbing.

Definition cursorNegative : View := set_cursor (-1) scrubbing.

Definition cursorLagging : View :=
  set_cursor 0 (after streaming (map TickReceived (ticks 1 49))).

Definition stored : SimulationState :=
  {| packages := []; reservations := []; robots := []; layout := lay 12 9 |}.

Definition snapshotOnly : View :=
  set_activeRun (Some (detailOf liveRun (Some stored)))
                (set_tickHistory [] streaming).

Definition cells : Heatmap := [("0:0", 10); ("1:0", 5); ("2:0", 0)].

Definition note (n : nat) (k : string) : TimelineEventDetail :=
  {| timestamp := k; ev_type := "package_delivered";
     message := k; payload := "{}" |}.

(** The [n]-th tick of a running simulation, reporting three events. *)
Definition eventfulTick (n : nat) : RunTick :=
  {| tick_stage := RUNNING; elapsed_seconds := inject_Z (Z.of_nat n);
     tick_state := world; tick_metrics := noMetrics;
     tick_heatmap := [("0:0", Z.of_nat n)];
     recent_events := [note n "a"; note n "b"; note n "c"] |}.

Definition eventful (first count : nat) : list RunTick :=
  map eventfulTick (seq first count).

End Sample.

(* ================================================================== *)
(** ** Vocabulary of the widget, robot-layer and wizard properties *)

Import RunPlaybackControls RobotLayer ScenarioWizard.

(** The events a sequence of ticks carries, oldest first. *)
Definition eventsOf (ticks : list RunTick) : list TimelineEventDetail :=
  flat_map recent_events ticks.

(** The cursor is a position the slider of the playback widget can
    show. *)
Definition cursor_inv (d : View) : Prop :=
  0 <= cursor d <= maxIndex (len (tickHistory d)).

(** A coordinate the parser can hand out: a number that is not negative,
    or no value at all. *)
Definition natural (c : Coord) : Prop :=
  match c with
  | Num z => 0 <= z
  | NaN => False
  | Undefined => True
  end.

(** A string of decimal digits. *)
Fixpoint allDigits (s : string) : bool :=
  match s with
  | EmptyString => true
  | String c r =>
      match digit c with Some _ => allDigits r | None => false end
  end.

(** No character of [s] satisfies [p]. *)
Fixpoint avoids (p : ascii -> bool) (s : string) : bool :=
  match s with
  | EmptyString => true
  | String c r => negb (p c) && avoids p r
  end.

(** A coordinate the model is exact on: a safe integer, or no number. *)
Definition exactCoord (c : Coord) : bool :=
  match c with Num z => safeb z | _ => true end.

(** The numbers the [flatMap] callback reads from a segment are safe
    integers. *)
Definition exactSegment (segment : string) : bool :=
  if includes "-" segment then
    match split "-" segment with
    | start :: finish :: _ =>
        let s := split ":" start in
        let e := split ":" finish in
        exactCoord (coordAt s 0) && exactCoord (coordAt s 1)
        && exactCoord (coordAt e 0) && exactCoord (coordAt e 1)
    | _ => true
    end
  else
    let parts := split ":" segment in
    match parseInt (textAt parts 0), parseInt (textAt parts 1) with
    | Some x, Some y => safeb x && safeb y
    | _, _ => true
    end.

(** The numbers [parseCoordinateList] reads from [value] are safe
    integers. *)
Definition exactList (value : string) : bool :=
  forallb exactSegment
          (filter nonEmpty (map trim (splitOn isSeparator value))).
(* ================================================================== *)
(** * Properties *)

(* ---------------------------------------------------------------- *)
(** ** Tick buffer *)

Lemma lastn_short {A} (n : nat) (a : list A) :
  (List.length a <= n)%nat -> lastn n a = a.
Proof.
  intros H. unfold lastn.
  replace (List.length a - n)%nat with 0%nat by lia. reflexivity.
Qed.

Lemma lastn_length {A} (n : nat) (a : list A) :
  List.length (lastn n a) = Nat.min n (List.length a).
Proof. unfold lastn. rewrite length_skipn. lia. Qed.

Lemma lastn_app_lastn {A} (n : nat) (a b : list A) :
  lastn n (lastn n a ++ b) = lastn n (a ++ b).
Proof.
  destruct (Nat.le_gt_cases (List.length a) n) as [Hle | Hgt].
  - now rewrite (lastn_short n a).
  - unfold lastn at 1 3.
    rewrite !length_app, lastn_length.
    replace (Nat.min n (List.length a) + List.length b - n)%nat
      with (List.length b) by lia.
    replace (List.length a + List.length b - n)%nat
      with ((List.length a - n) + List.length b)%nat by lia.
    unfold lastn.
    rewrite (Nat.add_comm (List.length a - n)), <- skipn_skipn.
    rewrite (skipn_app (List.length a - n)).
    replace (List.length a - n - List.length a)%nat with 0%nat by lia.
    reflexivity.
Qed.

Lemma appendTick_lastn previous tick :
  len previous <= TICK_HISTORY_LIMIT ->
  appendTick previous tick = lastn 900 (previous ++ [tick]).
Proof.
  unfold appendTick, len, TICK_HISTORY_LIMIT, shift, lastn. intros H.
  rewrite length_app. cbn [List.length].
  destruct (Z.gtb_spec (Z.of_nat (List.length previous + 1)) 900).
  - replace (List.length previous + 1 - 900)%nat with 1%nat by lia.
    reflexivity.
  - replace (List.length previous + 1 - 900)%nat with 0%nat by lia.
    reflexivity.
Qed.

Lemma appendTick_bounded previous tick :
  len previous <= TICK_HISTORY_LIMIT ->
  len (appendTick previous tick) <= TICK_HISTORY_LIMIT.
Proof.
  intros H. rewrite appendTick_lastn by assumption.
  unfold len, TICK_HISTORY_LIMIT in *. rewrite lastn_length. lia.
Qed.

(** At capacity the head is the tick that goes. *)
Lemma appendTick_evicts_head previous tick :
  len previous = TICK_HISTORY_LIMIT ->
  appendTick previous tick = tl previous ++ [tick].
Proof.
  unfold appendTick, len, TICK_HISTORY_LIMIT, shift. intros H.
  rewrite length_app. cbn [List.length].
  destruct (Z.gtb_spec (Z.of_nat (List.length previous + 1)) 900); [|lia].
  destruct previous; [discriminate|reflexivity].
Qed.

Lemma fold_appendTick ticks : forall h,
  len h <= TICK_HISTORY_LIMIT ->
  fold_left appendTick ticks h = lastn 900 (h ++ ticks).
Proof.
  induction ticks as [|t ticks IH]; intros h Hh; cbn [fold_left].
  - rewrite app_nil_r, lastn_short; [reflexivity|].
    unfold len, TICK_HISTORY_LIMIT in Hh. lia.
  - rewrite IH by now apply appendTick_bounded.
    rewrite appendTick_lastn by assumption.
    rewrite lastn_app_lastn, <- app_assoc. reflexivity.
Qed.

Lemma lastn_app_long {A} (n : nat) (a b : list A) :
  (n <= List.length b)%nat -> lastn n (a ++ b) = lastn n b.
Proof.
  intros H. unfold lastn. rewrite length_app.
  replace (List.length a + List.length b - n)%nat
    with (List.length a + (List.length b - n))%nat by lia.
  rewrite skipn_app.
  replace (List.length a + (List.length b - n) - List.length a)%nat
    with (List.length b - n)%nat by lia.
  rewrite Nat.add_comm, <- skipn_skipn, skipn_all, skipn_nil.
  reflexivity.
Qed.

(* ---------------------------------------------------------------- *)
(** ** Reasoning about steps *)

(** The auto-select effect issues a request and leaves the state alone. *)
Lemma step_fst d e :
  fst (step d e)
  = let d2 := modeEffect d (fst (handle d e)) in
    if activeRunReplaced d e then activeRunEffect d2 else d2.
Proof. unfold step. destruct (handle d e). reflexivity. Qed.

Lemma after_cons d e es : after d (e :: es) = after (fst (step d e)) es.
Proof.
  unfold after. cbn [run]. destruct (step d e) as [d1 o1]. cbn [fst].
  destruct (run d1 es). reflexivity.
Qed.

Lemma after_app d es es' : after d (es ++ es') = after (after d es) es'.
Proof.
  revert d. induction es as [|e es IH]; intros d; [reflexivity|].
  rewrite <- app_comm_cons, !after_cons. apply IH.
Qed.

Lemma reachable_initial : reachable initial.
Proof. exists []. reflexivity. Qed.

Lemma reachable_step d e : reachable d -> reachable (fst (step d e)).
Proof.
  intros [es ->]. exists (es ++ [e]). now rewrite after_app, after_cons.
Qed.

Lemma reachable_after d es : reachable d -> reachable (after d es).
Proof.
  revert d. induction es as [|e es IH]; intros d H; [exact H|].
  rewrite after_cons. apply IH, reachable_step, H.
Qed.

(** An invariant of the initial state and of every step holds in every
    reachable state. *)
Lemma reachable_ind (P : View -> Prop) :
  P initial -> (forall d e, P d -> P (fst (step d e))) ->
  forall d, reachable d -> P d.
Proof.
  intros H0 HS d [es ->].
  assert (G : forall es d, P d -> P (after d es)).
  { clear es. induction es as [|e es IH]; intros d Hd; [exact Hd|].
    rewrite after_cons. apply IH, HS, Hd. }
  apply G, H0.
Qed.

(** The guard reads the two refs only. *)
Lemma shouldReconnect_timer d v r :
  shouldReconnect (set_reconnectTimerRef v d) r = shouldReconnect d r.
Proof. reflexivity. Qed.

Lemma shouldReconnect_toast d v r :
  shouldReconnect (set_toast v d) r = shouldReconnect d r.
Proof. reflexivity. Qed.

Lemma shouldReconnect_socket d v r :
  shouldReconnect (set_socketRef v d) r = shouldReconnect d r.
Proof. reflexivity. Qed.

Create Rewrite HintDb guard.

#[local] Hint Rewrite shouldReconnect_timer shouldReconnect_toast
  shouldReconnect_socket : guard.

(** *** Handlers as straight-line updates *)

Lemma clearReconnectTimer_set d :
  clearReconnectTimer d = set_reconnectTimerRef None d.
Proof.
  unfold clearReconnectTimer. destruct d as [? ? ? ? ? ? ? ? ? ? ? ? ? ? t].
  cbn. destruct t; reflexivity.
Qed.

Lemma closeSocket_fst d :
  fst (closeSocket d) = set_socketRef None (set_reconnectTimerRef None d).
Proof.
  unfold closeSocket. rewrite clearReconnectTimer_set.
  destruct d as [? ? ? ? ? ? ? ? ? ? s ? ? ? ?]. cbn.
  destruct s; reflexivity.
Qed.

Lemma connect_fst d runId attempt :
  fst (connect d runId attempt)
  = set_socketRef (Some {| sock_run := runId; sock_attempt := attempt |})
      (set_reconnectTimerRef None (set_activeRunIdRef (Some runId) d)).
Proof.
  unfold connect. rewrite clearReconnectTimer_set.
  pose proof (closeSocket_fst
                (set_activeRunIdRef (Some runId)
                                    (set_reconnectTimerRef None d))) as C.
  destruct (closeSocket _) as [d1 out]. cbn [fst] in *. rewrite C.
  reflexivity.
Qed.

Lemma modeEffect_set before d :
  modeEffect before d
  = if mode_eqb (mode before) (mode d)
       && (len (tickHistory before) =? len (tickHistory d))
    then d
    else set_cursor
           (if mode_eqb (mode d) live && negb (len (tickHistory d) =? 0)
            then len (tickHistory d) - 1 else cursor d)
           (set_modeRef (mode d) d).
Proof.
  unfold modeEffect. destruct (_ && _); [reflexivity|]. cbn.
  destruct (_ && _); [reflexivity|]. now destruct d.
Qed.

Lemma handleRunSelect_fst d runId captured detail timelineSeed :
  fst (handleRunSelect d runId captured detail timelineSeed)
  = let isLive := is_live_stage (stage (base detail)) in
    let seed := seedTick detail in
    set_socketRef
      (if isLive then Some {| sock_run := runId; sock_attempt := 0 |}
       else None)
      (set_reconnectTimerRef None
         (set_activeRunIdRef
            (Some (if isLive then runId else run_id (base detail)))
            (set_cursor (if negb (len seed =? 0) then len seed - 1 else 0)
               (set_mode (if isLive then live
                          else if negb (len seed =? 0) then replay else live)
                  (set_tickHistory seed
                     (set_selectedScenario
                        (let previous := selectedScenario d in
                         if id_eqb (option_map scn_id previous)
                                   (Some (scenario_id (base detail)))
                         then previous
                         else nullish
                                (find (fun item =>
                                         String.eqb (scn_id item)
                                           (scenario_id (base detail)))
                                      captured)
                                previous)
                        (set_timeline
                           (slice_from timelineSeed (- TIMELINE_LIMIT))
                           (set_activeRun (Some detail)
                              (set_runStageRef (Some (stage (base detail)))
                                               d))))))))).
Proof.
  unfold handleRunSelect, attachRunStream. cbv zeta.
  destruct (is_live_stage (stage (base detail))).
  - rewrite connect_fst. reflexivity.
  - rewrite closeSocket_fst. reflexivity.
Qed.

Lemma handleTick_fst d tick :
  fst (handleTick d tick)
  = let next := appendTick (tickHistory d) tick in
    set_timeline
      (if negb (len (recent_events tick) =? 0)
       then mergeTimeline (timeline d) (recent_events tick)
       else timeline d)
      (set_activeRun
         (option_map
            (fun previous =>
               {| base := patchRun tick (base previous);
                  state := Some (tick_state tick);
                  detail_timeline := detail_timeline previous |})
            (activeRun d))
         (set_runs
            (if truthy (activeRunIdRef d)
             then map (fun run =>
                         if id_eqb (Some (run_id run)) (activeRunIdRef d)
                         then patchRun tick run else run)
                      (runs d)
             else runs d)
            (set_cursor
               (if mode_eqb (modeRef d) live then len next - 1 else cursor d)
               (set_tickHistory next
                  (set_runStageRef (Some (tick_stage tick)) d))))).
Proof.
  unfold handleTick. cbv zeta. cbn [fst].
  destruct d as [? ? ? ? ? ? ? ? ? ? ? mr ai ? ?]. cbn.
  destruct (mode_eqb mr live), (truthy ai), (negb _); reflexivity.
Qed.

Lemma scheduleReconnect_fst d runId attempt :
  fst (scheduleReconnect d runId attempt)
  = set_reconnectTimerRef
      (scheduled d runId attempt)
      (set_toast
         (if shouldReconnect d runId && (5 <=? attempt)%nat
          then errorToast "Run stream lost connection" else toast d)
         d).
Proof.
  unfold scheduleReconnect, scheduled, reconnectTimer.
  rewrite clearReconnectTimer_set, shouldReconnect_timer.
  destruct (shouldReconnect d runId); cbn [negb andb fst];
    [destruct (5 <=? attempt)%nat; cbn [negb fst]|];
    now destruct d.
Qed.

Lemma onStreamError_fst d runId attempt :
  fst (onStreamError d runId attempt)
  = set_reconnectTimerRef
      (scheduled d runId attempt)
      (set_toast
         (if shouldReconnect d runId && (5 <=? attempt)%nat
          then errorToast "Run stream lost connection"
          else if (attempt =? 0)%nat
               then errorToast "Run stream interrupted, reconnecting..."
               else toast d)
         d).
Proof.
  unfold onStreamError. rewrite scheduleReconnect_fst.
  destruct (attempt =? 0)%nat; [|reflexivity].
  unfold scheduled. rewrite shouldReconnect_toast.
  now destruct d.
Qed.

Lemma onStreamClose_fst d runId attempt wasClean :
  fst (onStreamClose d runId attempt wasClean)
  = set_reconnectTimerRef
      (if wasClean then None else scheduled d runId attempt)
      (set_toast
         (if negb wasClean && shouldReconnect d runId && (5 <=? attempt)%nat
          then errorToast "Run stream lost connection" else toast d)
         (set_socketRef None d)).
Proof.
  unfold onStreamClose. rewrite shouldReconnect_socket.
  destruct wasClean; cbn [orb negb andb fst].
  - rewrite clearReconnectTimer_set. now destruct d.
  - destruct (shouldReconnect d runId) eqn:G; cbn [negb andb fst].
    + rewrite scheduleReconnect_fst. unfold scheduled.
      rewrite shouldReconnect_socket, G. now destruct d.
    + rewrite clearReconnectTimer_set. unfold scheduled. rewrite G.
      now destruct d.
Qed.

(** Puts the state an event's handler leaves in that form. *)
Ltac handler_form :=
  cbn [handle];
  rewrite ?handleRunSelect_fst, ?handleTick_fst, ?onStreamError_fst,
    ?onStreamClose_fst;
  cbv zeta.

(** The history is touched by ticks and by run selection only. *)
Lemma step_tickHistory d e :
  tickHistory (fst (step d e))
  = match e with
    | TickReceived tick => appendTick (tickHistory d) tick
    | RunDetailLoaded _ _ detail _ => seedTick detail
    | _ => tickHistory d
    end.
Proof.
  rewrite step_fst. cbv zeta.
  assert (F : forall d2, tickHistory (if activeRunReplaced d e
                                      then activeRunEffect d2 else d2)
                         = tickHistory d2).
  { intros d2. destruct (activeRunReplaced d e); [|reflexivity].
    unfold activeRunEffect. destruct (activeRun d2); reflexivity. }
  rewrite F, modeEffect_set.
  assert (G : forall d1 (c : bool) v,
             tickHistory (if c then d1 else set_cursor v (set_modeRef (mode d1) d1))
             = tickHistory d1).
  { intros d1 c v. destruct c; reflexivity. }
  rewrite G. clear F G.
  destruct e; handler_form; try reflexivity.
  - destruct (has_run d); reflexivity.
  - destruct (seekEnabled d i); reflexivity.
  - destruct (has_run d); reflexivity.
  - destruct (reconnectTimerRef d); [rewrite connect_fst|]; reflexivity.
Qed.

Lemma seedTick_length detail : (List.length (seedTick detail) <= 1)%nat.
Proof. unfold seedTick. destruct (state detail); cbn; lia. Qed.

Lemma history_bounded d :
  reachable d -> len (tickHistory d) <= TICK_HISTORY_LIMIT.
Proof.
  revert d. apply reachable_ind.
  - unfold len, TICK_HISTORY_LIMIT. cbn. lia.
  - intros d e IH. rewrite step_tickHistory. destruct e; try exact IH.
    + pose proof (seedTick_length detail).
      unfold len, TICK_HISTORY_LIMIT. lia.
    + now apply appendTick_bounded.
Qed.

Lemma after_ticks_history ticks : forall d,
  tickHistory (after d (map TickReceived ticks))
  = fold_left appendTick ticks (tickHistory d).
Proof.
  induction ticks as [|t ticks IH]; intros d; [reflexivity|].
  cbn [map fold_left]. rewrite after_cons, IH, step_tickHistory.
  reflexivity.
Qed.


(* ---------------------------------------------------------------- *)
(** ** Replay controller *)

Lemma appendTick_len previous tick :
  len (appendTick previous tick)
  = if len previous + 1 >? TICK_HISTORY_LIMIT then len previous
    else len previous + 1.
Proof.
  unfold appendTick, len, shift. rewrite length_app. cbn [List.length].
  rewrite Nat2Z.inj_add. cbn [Z.of_nat Pos.of_succ_nat].
  destruct (_ >? _) eqn:E.
  - destruct previous; cbn [tl List.length app]; [discriminate|].
    rewrite length_app. cbn [List.length]. lia.
  - rewrite length_app. cbn [List.length]. lia.
Qed.

Lemma handle_replayCells d e :
  replayCells (fst (handle d e))
  = match e with
    | TickReceived tick =>
        let next := appendTick (tickHistory d) tick in
        (next, mode d,
         if mode_eqb (modeRef d) live then len next - 1 else cursor d,
         modeRef d)
    | RunDetailLoaded _ _ detail _ =>
        let seed := seedTick detail in
        (seed,
         if is_live_stage (stage (base detail)) then live
         else if negb (len seed =? 0) then replay else live,
         if negb (len seed =? 0) then len seed - 1 else 0,
         modeRef d)
    | ModeRequested m =>
        (tickHistory d, if has_run d then m else mode d, cursor d, modeRef d)
    | SeekRequested i =>
        (tickHistory d, mode d, if seekEnabled d i then i else cursor d,
         modeRef d)
    | _ => replayCells d
    end.
Proof.
  destruct e; handler_form; try reflexivity.
  - destruct (has_run d); reflexivity.
  - destruct (seekEnabled d i); reflexivity.
  - destruct (has_run d); reflexivity.
  - destruct (reconnectTimerRef d); [rewrite connect_fst|]; reflexivity.
Qed.

Lemma activeRunEffect_replayCells d :
  replayCells (activeRunEffect d) = replayCells d.
Proof.
  unfold replayCells, activeRunEffect. destruct (activeRun d); reflexivity.
Qed.

Lemma modeEffect_replayCells before d :
  replayCells (modeEffect before d)
  = if mode_eqb (mode before) (mode d)
       && (len (tickHistory before) =? len (tickHistory d))
    then replayCells d
    else (tickHistory d, mode d,
          if mode_eqb (mode d) live && negb (len (tickHistory d) =? 0)
          then len (tickHistory d) - 1 else cursor d,
          mode d).
Proof.
  rewrite modeEffect_set. destruct (_ && _); reflexivity.
Qed.

Lemma step_replayCells d e :
  replayCells (fst (step d e))
  = replayCells (modeEffect d (fst (handle d e))).
Proof.
  rewrite step_fst. cbv zeta. destruct (activeRunReplaced d e); [|reflexivity].
  apply activeRunEffect_replayCells.
Qed.

Lemma replay_inv_cells d h m c r :
  replayCells d = (h, m, c, r) ->
  (r = m /\ 0 <= c /\ (m = live -> len h <> 0 -> c = len h - 1)) ->
  replay_inv d.
Proof. unfold replayCells, replay_inv. intros [= <- <- <- <-]. tauto. Qed.

Lemma mode_eqb_eq a b : mode_eqb a b = true <-> a = b.
Proof. destruct a, b; cbn; split; congruence. Qed.

Lemma seedTick_len detail :
  len (seedTick detail) = 0 \/ len (seedTick detail) = 1.
Proof. unfold seedTick. destruct (state detail); cbn; auto. Qed.

Lemma len_nonneg {A} (a : list A) : 0 <= len a.
Proof. unfold len. lia. Qed.

Lemma replay_inv_step d e : replay_inv d -> replay_inv (fst (step d e)).
Proof.
  intros (Hm & Hc & Hl).
  pose proof (step_replayCells d e) as S.
  rewrite modeEffect_replayCells in S.
  pose proof (handle_replayCells d e) as H.
  unfold replayCells in H, S.
  set (d1 := fst (handle d e)) in *. clearbody d1.
  pose proof (len_nonneg (tickHistory d)) as Hn.
  assert (E : exists h m c r,
             (tickHistory d1, mode d1, cursor d1, modeRef d1) = (h, m, c, r)
             /\ r = modeRef d /\ 0 <= c
             /\ (m = live -> mode d = live ->
                 len h = len (tickHistory d) -> len h <> 0 ->
                 c = len h - 1)).
  { destruct e; cbv zeta in H; rewrite H; do 4 eexists;
      (split; [reflexivity|]); (split; [reflexivity|]).
    all: try (split; [assumption | intros; apply Hl; congruence]).
    - (* run detail *)
      destruct (seedTick_len detail) as [-> | ->]; cbn; split; lia.
    - (* seek *) unfold seekEnabled.
      destruct (has_run d); cbn [andb];
        [|split; [assumption|intros; apply Hl; congruence]].
      destruct (mode d); cbn [mode_eqb andb].
      + split; [assumption|]. intros. apply Hl; congruence.
      + split; [|congruence].
        destruct (negb (len (tickHistory d) <=? 1)); cbn [andb]; [|assumption].
        destruct (Z.leb_spec 0 i); cbn [andb]; [|assumption].
        destruct (_ <=? _); [assumption|assumption].
    - (* tick *)
      rewrite appendTick_len. rewrite Hm.
      destruct (mode d); cbn [mode_eqb].
      + split; [|intros; reflexivity].
        destruct (_ >? _) eqn:G; unfold TICK_HISTORY_LIMIT in *; lia.
      + split; [assumption|congruence]. }
  destruct E as (h & m & c & r & E & -> & Hc' & Hl').
  injection E as E1 E2 E3 E4. rewrite E1, E2, E3, E4 in S. clear H.
  destruct (mode_eqb (mode d) m && (len (tickHistory d) =? len h)) eqn:C.
  - apply andb_prop in C as [C1 C2].
    apply mode_eqb_eq in C1. apply Z.eqb_eq in C2.
    eapply replay_inv_cells; [exact S|].
    repeat split; [congruence|assumption|].
    intros. apply Hl'; congruence.
  - eapply replay_inv_cells; [exact S|].
    split; [reflexivity|].
    destruct m; cbn [mode_eqb andb].
    + destruct (len h =? 0) eqn:Z0; cbn [negb].
      * split; [assumption|]. apply Z.eqb_eq in Z0. congruence.
      * apply Z.eqb_neq in Z0. pose proof (len_nonneg h).
        split; [lia|reflexivity].
    + split; [assumption|congruence].
Qed.

Lemma replay_inv_reachable d : reachable d -> replay_inv d.
Proof.
  revert d. apply reachable_ind.
  - unfold replay_inv. cbn. repeat split; [lia|].
    intros _ H. now contradiction H.
  - intros d e. apply replay_inv_step.
Qed.

Lemma len_zero_nil {A} (a : list A) : len a = 0 <-> a = [].
Proof.
  unfold len. destruct a; cbn; split; try reflexivity; try discriminate; lia.
Qed.

(** The replay cells after a whole step, the handler's cells being known. *)
Lemma step_cells d e h m c r :
  replayCells (fst (handle d e)) = (h, m, c, r) ->
  replayCells (fst (step d e))
  = if mode_eqb (mode d) m && (len (tickHistory d) =? len h)
    then (h, m, c, r)
    else (h, m,
          if mode_eqb m live && negb (len h =? 0) then len h - 1 else c,
          m).
Proof.
  intros H. rewrite step_replayCells, modeEffect_replayCells.
  unfold replayCells in *. injection H as -> -> -> ->. reflexivity.
Qed.

Lemma cells_proj d h m c r :
  replayCells d = (h, m, c, r) ->
  tickHistory d = h /\ mode d = m /\ cursor d = c /\ modeRef d = r.
Proof. unfold replayCells. intros [= -> -> -> ->]. auto. Qed.

Lemma step_mode_request d m :
  has_run d = true -> modeRef d = mode d ->
  replayCells (fst (step d (ModeRequested m)))
  = (tickHistory d, m,
     if mode_eqb (mode d) m then cursor d
     else if mode_eqb m live && negb (len (tickHistory d) =? 0)
          then len (tickHistory d) - 1 else cursor d,
     m).
Proof.
  intros Hr Hm.
  rewrite (step_cells d _ _ _ _ _ (handle_replayCells d (ModeRequested m))).
  rewrite Hr, Z.eqb_refl, andb_true_r.
  destruct (mode_eqb (mode d) m) eqn:E; [|reflexivity].
  apply mode_eqb_eq in E. congruence.
Qed.

Lemma step_tick_cells d tick :
  modeRef d = mode d ->
  let next := appendTick (tickHistory d) tick in
  replayCells (fst (step d (TickReceived tick)))
  = (next, mode d,
     match mode d with live => len next - 1 | replay => cursor d end,
     mode d).
Proof.
  intros Hm next.
  rewrite (step_cells d _ _ _ _ _ (handle_replayCells d (TickReceived tick))).
  cbv zeta. fold next. rewrite Hm.
  assert (N : (len next =? 0) = false).
  { apply Z.eqb_neq. unfold next. rewrite appendTick_len.
    pose proof (len_nonneg (tickHistory d)).
    destruct (_ >? _) eqn:G; unfold TICK_HISTORY_LIMIT in *; lia. }
  rewrite N. clear N. destruct (mode d); cbn [mode_eqb andb negb];
    destruct (len (tickHistory d) =? len next); reflexivity.
Qed.

(** C1.  For every sequence of ticks delivered to [handleTick] with no run
    selection in between, from any state the dashboard can be in: the tick
    history never holds more than 900 ticks; it is the last 900 of what was
    buffered followed by the new ticks, in arrival order, so once 900 or more
    ticks have arrived it is exactly the 900 most recent of them; and at
    capacity each arrival drops the head and retains the new tick at the
    tail. *)
Theorem tick_history_bounded (d : View) (ticks : list RunTick) :
  reachable d ->
  let d' := after d (map TickReceived ticks) in
  len (tickHistory d') <= TICK_HISTORY_LIMIT
  /\ tickHistory d' = lastn 900 (tickHistory d ++ ticks)
  /\ (TICK_HISTORY_LIMIT <= len ticks -> tickHistory d' = lastn 900 ticks)
  /\ (forall tick, len (tickHistory d) = TICK_HISTORY_LIMIT ->
        tickHistory (fst (step d (TickReceived tick)))
        = tl (tickHistory d) ++ [tick]).
Proof.
  intros R d'. pose proof (history_bounded d R) as B.
  assert (E : tickHistory d' = lastn 900 (tickHistory d ++ ticks)).
  { unfold d'. rewrite after_ticks_history. now apply fold_appendTick. }
  repeat split.
  - apply history_bounded. unfold d'. now apply reachable_after.
  - exact E.
  - intros L. rewrite E. apply lastn_app_long.
    unfold len, TICK_HISTORY_LIMIT in L. lia.
  - intros tick F. rewrite step_tickHistory. now apply appendTick_evicts_head.
Qed.

Lemma tick_history_bounded_witness :
  let d' := after initial (map TickReceived (Sample.ticks 1 905)) in
  len (tickHistory d') <= TICK_HISTORY_LIMIT
  /\ tickHistory d' = lastn 900 (tickHistory initial ++ Sample.ticks 1 905)
  /\ (TICK_HISTORY_LIMIT <= len (Sample.ticks 1 905) ->
      tickHistory d' = lastn 900 (Sample.ticks 1 905))
  /\ (forall tick, len (tickHistory initial) = TICK_HISTORY_LIMIT ->
        tickHistory (fst (step initial (TickReceived tick)))
        = tl (tickHistory initial) ++ [tick]).
Proof.
  apply (tick_history_bounded initial (Sample.ticks 1 905)).
  exists []. reflexivity.
Defined.

(** C3.  In every state the dashboard can reach: if the mode is live and
    the tick history is not empty, the cursor is [length - 1]; asking for
    live mode yields live mode with the cursor on the last index; and a tick
    arriving in live mode leaves the cursor on the new last index. *)
Theorem live_cursor_follows_tail (d : View) :
  reachable d ->
  (mode d = live -> tickHistory d <> [] ->
   cursor d = len (tickHistory d) - 1)
  /\ (has_run d = true -> tickHistory d <> [] ->
      let d' := fst (step d (ModeRequested live)) in
      mode d' = live /\ tickHistory d' = tickHistory d
      /\ cursor d' = len (tickHistory d') - 1)
  /\ (forall tick, mode d = live ->
      let d' := fst (step d (TickReceived tick)) in
      mode d' = live /\ tickHistory d' = appendTick (tickHistory d) tick
      /\ cursor d' = len (tickHistory d') - 1).
Proof.
  intros R. destruct (replay_inv_reachable d R) as (Hm & Hc & Hl).
  repeat split.
  - intros L N. apply Hl; [exact L|]. now rewrite len_zero_nil.
  - pose proof (step_mode_request d live H Hm) as S.
    apply cells_proj in S. tauto.
  - pose proof (step_mode_request d live H Hm) as S.
    apply cells_proj in S. tauto.
  - pose proof (step_mode_request d live H Hm) as S.
    apply cells_proj in S. destruct S as (-> & _ & -> & _).
    assert (N : (len (tickHistory d) =? 0) = false).
    { apply Z.eqb_neq. now rewrite len_zero_nil. }
    rewrite N. cbn [mode_eqb andb negb].
    destruct (mode_eqb (mode d) live) eqn:E; [|reflexivity].
    apply mode_eqb_eq in E. apply Hl; [exact E|]. now apply Z.eqb_neq.
  - pose proof (step_tick_cells d tick Hm) as S.
    apply cells_proj in S. destruct S as (_ & -> & _). assumption.
  - pose proof (step_tick_cells d tick Hm) as S.
    apply cells_proj in S. tauto.
  - pose proof (step_tick_cells d tick Hm) as S.
    apply cells_proj in S. destruct S as (-> & _ & -> & _).
    rewrite H. reflexivity.
Qed.

Lemma reachable_streaming : reachable Sample.streaming.
Proof. eexists. reflexivity. Qed.

Lemma reachable_scrubbing : reachable Sample.scrubbing.
Proof. apply reachable_after, reachable_streaming. Qed.

Lemma live_cursor_follows_tail_witness :
  cursor Sample.streaming = len (tickHistory Sample.streaming) - 1
  /\ cursor (fst (step Sample.streaming (ModeRequested live))) = 0
  /\ cursor (fst (step Sample.streaming (TickReceived (Sample.tick 1)))) = 1.
Proof.
  destruct (live_cursor_follows_tail Sample.streaming reachable_streaming)
    as (A & B & C).
  split; [|split].
  - apply A; [reflexivity | discriminate].
  - destruct B as (_ & _ & ->); [reflexivity | discriminate | reflexivity].
  - destruct (C (Sample.tick 1) eq_refl) as (_ & _ & ->). reflexivity.
Defined.

Lemma index_app_left {A} (a b : list A) i :
  0 <= i < len a -> index (a ++ b) i = index a i /\ index a i <> None.
Proof.
  unfold index, len. intros [H0 H1].
  destruct (Z.ltb_spec i 0); [lia|].
  assert (L : (Z.to_nat i < List.length a)%nat) by lia.
  split.
  - now apply nth_error_app1.
  - now apply nth_error_Some.
Qed.

Lemma appendTick_room previous tick :
  len previous < TICK_HISTORY_LIMIT ->
  appendTick previous tick = previous ++ [tick].
Proof.
  unfold appendTick, len, TICK_HISTORY_LIMIT. rewrite length_app.
  cbn [List.length].
  intros H. destruct (Z.gtb_spec (Z.of_nat (List.length previous + 1)) 900);
    [lia | reflexivity].
Qed.

(** C4.  In every state the dashboard can reach: switching from live to
    replay leaves the cursor (and the buffer) as they were; and a tick
    arriving in replay mode leaves the cursor where it was, so that, while
    the buffer has room, the frame shown is still the buffered element at
    the cursor.  At index 10 of 50 buffered ticks, tick 51 leaves frame 10
    on display (see the witness). *)
Theorem replay_cursor_frozen (d : View) :
  reachable d ->
  (mode d = live -> has_run d = true ->
   let d' := fst (step d (ModeRequested replay)) in
   mode d' = replay /\ cursor d' = cursor d /\ tickHistory d' = tickHistory d)
  /\ (forall tick, mode d = replay ->
      let d' := fst (step d (TickReceived tick)) in
      mode d' = replay /\ cursor d' = cursor d
      /\ (cursor d < len (tickHistory d) ->
          len (tickHistory d) < TICK_HISTORY_LIMIT ->
          activeTick d' = index (tickHistory d) (cursor d)
          /\ activeTick d' = activeTick d)).
Proof.
  intros R. destruct (replay_inv_reachable d R) as (Hm & Hc & Hl). split.
  - intros L Hr.
    pose proof (step_mode_request d replay Hr Hm) as S.
    apply cells_proj in S. rewrite L in S. cbn in S. cbv zeta. tauto.
  - intros tick M. cbv zeta.
    pose proof (step_tick_cells d tick Hm) as S.
    apply cells_proj in S. rewrite M in S. destruct S as (Sh & Sm & Sc & _).
    repeat split; try assumption.
    + unfold activeTick at 1. rewrite Sh, Sm, Sc.
      rewrite appendTick_room by assumption.
      destruct (index_app_left (tickHistory d) [tick] (cursor d)) as [E N];
        [lia|].
      rewrite E.
      destruct (len (tickHistory d ++ [tick]) =? 0) eqn:Z0.
      * apply Z.eqb_eq, len_zero_nil in Z0. now destruct (tickHistory d).
      * destruct (index (tickHistory d) (cursor d)); [reflexivity|congruence].
    + unfold activeTick. rewrite Sh, Sm, Sc, M.
      rewrite appendTick_room by assumption.
      destruct (index_app_left (tickHistory d) [tick] (cursor d)) as [E N];
        [lia|].
      rewrite E.
      destruct (len (tickHistory d ++ [tick]) =? 0) eqn:Z0.
      * apply Z.eqb_eq, len_zero_nil in Z0. now destruct (tickHistory d).
      * destruct (len (tickHistory d) =? 0) eqn:Z1; [lia|].
        destruct (index (tickHistory d) (cursor d)); [reflexivity|congruence].
Qed.

Lemma replay_cursor_frozen_witness :
  len (tickHistory Sample.scrubbing) = 50 /\ cursor Sample.scrubbing = 10
  /\ let d' := fst (step Sample.scrubbing (TickReceived (Sample.tick 50))) in
     len (tickHistory d') = 51 /\ cursor d' = 10
     /\ activeTick d' = Some (Sample.tick 10)
     /\ activeTick d' = activeTick Sample.scrubbing.
Proof.
  destruct (replay_cursor_frozen Sample.scrubbing reachable_scrubbing)
    as (_ & T).
  destruct (T (Sample.tick 50) eq_refl) as (_ & C & A).
  destruct A as (A1 & A2);
    [vm_compute; reflexivity | vm_compute; reflexivity |].
  split; [vm_compute; reflexivity|]. split; [vm_compute; reflexivity|].
  cbv zeta. split; [vm_compute; reflexivity|].
  split; [rewrite C; vm_compute; reflexivity|].
  split; [rewrite A1; vm_compute; reflexivity | exact A2].
Defined.

(** Run selection, as the replay controller sees it. *)
Lemma step_run_detail_cells d runId captured detail timelineSeed :
  let d' := fst (step d (RunDetailLoaded runId captured detail timelineSeed)) in
  tickHistory d' = seedTick detail
  /\ mode d' = (if is_live_stage (stage (base detail)) then live
               else if negb (len (seedTick detail) =? 0) then replay
                    else live)
  /\ cursor d' = 0.
Proof.
  intros d'.
  pose proof (step_cells d _ _ _ _ _
                (handle_replayCells
                   d (RunDetailLoaded runId captured detail timelineSeed)))
    as S.
  fold d' in S. cbv zeta in S.
  assert (C : exists r,
             replayCells d'
             = (seedTick detail,
                (if is_live_stage (stage (base detail)) then live
                 else if negb (len (seedTick detail) =? 0) then replay
                      else live),
                0, r)).
  { rewrite S. clear S.
    destruct (seedTick_len detail) as [-> | ->]; cbn [Z.eqb negb Z.sub Z.add];
      destruct (_ && _); try (eexists; reflexivity);
      destruct (is_live_stage _); cbn; eexists; reflexivity. }
  destruct C as (r & C). apply cells_proj in C. tauto.
Qed.

(** C10.  When the detail of a selected run has arrived: with a stored
    state snapshot the tick buffer holds exactly one synthetic tick carrying
    that state, the run's last-known stage, metrics and heat map, zero
    elapsed seconds and no recent events, the cursor is 0, and the mode is
    replay unless the stage is RUNNING or WARMING_UP (then it is live);
    without a snapshot the buffer is empty, the mode live and the
    cursor 0. *)
Theorem run_select_seeds_buffer d runId captured detail timelineSeed :
  let d' := fst (step d (RunDetailLoaded runId captured detail timelineSeed)) in
  (forall st, state detail = Some st ->
     tickHistory d'
     = [ {| tick_stage := stage (base detail); elapsed_seconds := 0%Q;
            tick_state := st; tick_metrics := metrics (base detail);
            tick_heatmap := heatmap (base detail); recent_events := [] |} ]
     /\ cursor d' = 0
     /\ (stage (base detail) <> RUNNING ->
         stage (base detail) <> WARMING_UP -> mode d' = replay)
     /\ (stage (base detail) = RUNNING \/ stage (base detail) = WARMING_UP ->
         mode d' = live))
  /\ (state detail = None ->
      tickHistory d' = [] /\ mode d' = live /\ cursor d' = 0).
Proof.
  intros d'.
  destruct (step_run_detail_cells d runId captured detail timelineSeed)
    as (H & M & C).
  fold d' in H, M, C. unfold seedTick, len in H, M. split.
  - intros st E. rewrite E in H, M. cbn in M. repeat split; try assumption.
    + intros N1 N2. rewrite M.
      destruct (stage (base detail)); cbn; congruence.
    + intros [L | L]; rewrite M, L; reflexivity.
  - intros E. rewrite E in H, M. cbn in M. repeat split; try assumption.
    rewrite M. destruct (is_live_stage _); reflexivity.
Qed.

Lemma run_select_seeds_buffer_witness :
  let d' :=
    fst (step Sample.scrubbing
              (RunDetailLoaded
                 "run-old" []
                 (Sample.detailOf Sample.oldRun (Some Sample.world)) [])) in
  len (tickHistory d') = 1 /\ cursor d' = 0 /\ mode d' = replay.
Proof.
  destruct (run_select_seeds_buffer Sample.scrubbing "run-old" []
              (Sample.detailOf Sample.oldRun (Some Sample.world)) [])
    as (S & _).
  destruct (S Sample.world eq_refl) as (H & C & M & _).
  cbv zeta. rewrite H. split; [reflexivity|]. split; [exact C|].
  apply M; discriminate.
Defined.

(* ---------------------------------------------------------------- *)
(** ** Connection manager *)

Lemma id_eqb_eq a b : id_eqb a b = true <-> a = b.
Proof.
  destruct a as [x|], b as [y|]; cbn; try (split; congruence).
  rewrite String.eqb_eq. split; congruence.
Qed.

Lemma id_eqb_refl a : id_eqb a a = true.
Proof. now apply id_eqb_eq. Qed.

(** The guard, spelled out. *)
Lemma shouldReconnect_spec d runId :
  shouldReconnect d runId = true
  <-> activeRunIdRef d = Some runId /\ reconnectable (runStageRef d).
Proof.
  unfold shouldReconnect, reconnectable.
  destruct (id_eqb (activeRunIdRef d) (Some runId)) eqn:E; cbn [negb].
  - apply id_eqb_eq in E. rewrite E.
    destruct (runStageRef d) as [[]|]; cbn; split; intros H;
      try tauto; try discriminate;
      destruct H as (_ & [H|[H|H]]); discriminate.
  - split; [discriminate|]. intros [H _]. apply id_eqb_eq in H. congruence.
Qed.

Lemma scheduleReconnect_connCells d runId attempt :
  connCells (fst (scheduleReconnect d runId attempt))
  = (activeRunId d, activeRunIdRef d, runStageRef d, scheduled d runId attempt).
Proof.
  unfold connCells, activeRunId, scheduled, reconnectTimer, scheduleReconnect,
    clearReconnectTimer.
  destruct (reconnectTimerRef d); autorewrite with guard;
    destruct (shouldReconnect d runId); cbn [negb andb];
    destruct (5 <=? attempt)%nat; reflexivity.
Qed.

Lemma scheduleReconnect_out d runId attempt :
  snd (scheduleReconnect d runId attempt)
  = if shouldReconnect d runId && negb (5 <=? attempt)%nat then []
    else [FetchRuns].
Proof.
  unfold scheduleReconnect, clearReconnectTimer.
  destruct (reconnectTimerRef d); autorewrite with guard;
    destruct (shouldReconnect d runId); cbn [negb andb];
    destruct (5 <=? attempt)%nat; reflexivity.
Qed.

Lemma handle_failure_out d runId attempt e :
  failure runId attempt e ->
  snd (handle d e)
  = if shouldReconnect d runId && negb (5 <=? attempt)%nat then []
    else [FetchRuns].
Proof.
  intros [-> | ->]; cbn [handle].
  - unfold onStreamError. rewrite scheduleReconnect_out.
    destruct (attempt =? 0)%nat; autorewrite with guard; reflexivity.
  - unfold onStreamClose. autorewrite with guard. cbn [orb].
    destruct (shouldReconnect d runId) eqn:G; cbn [negb andb].
    + rewrite scheduleReconnect_out. autorewrite with guard. now rewrite G.
    + reflexivity.
Qed.

Lemma handle_connCells d e :
  connCells (fst (handle d e))
  = match e with
    | RunDetailLoaded runId _ detail _ =>
        (Some (run_id (base detail)),
         if is_live_stage (stage (base detail)) then Some runId
         else Some (run_id (base detail)),
         Some (stage (base detail)), None)
    | TickReceived tick =>
        (activeRunId d, activeRunIdRef d, Some (tick_stage tick),
         reconnectTimerRef d)
    | StreamError runId attempt =>
        (activeRunId d, activeRunIdRef d, runStageRef d,
         scheduled d runId attempt)
    | StreamClosed runId attempt wasClean =>
        (activeRunId d, activeRunIdRef d, runStageRef d,
         if wasClean then None else scheduled d runId attempt)
    | ReconnectTimerFired =>
        (activeRunId d,
         match reconnectTimerRef d with
         | Some t => Some (timer_run t)
         | None => activeRunIdRef d
         end, runStageRef d, None)
    | _ => connCells d
    end.
Proof.
  destruct e; handler_form; try reflexivity.
  - unfold connCells, activeRunId. cbn.
    destruct (is_live_stage _); reflexivity.
  - destruct (has_run d); reflexivity.
  - destruct (seekEnabled d i); reflexivity.
  - destruct (has_run d); reflexivity.
  - unfold connCells, activeRunId. cbn. destruct (activeRun d); reflexivity.
  - unfold connCells. destruct (reconnectTimerRef d) eqn:T;
      [rewrite connect_fst|]; cbn; rewrite ?T; reflexivity.
Qed.

Lemma modeEffect_connCells before d :
  connCells (modeEffect before d) = connCells d.
Proof.
  rewrite modeEffect_set. destruct (_ && _); reflexivity.
Qed.

Lemma handle_activeRun d e :
  activeRun (fst (handle d e))
  = match e with
    | RunDetailLoaded _ _ detail _ => Some detail
    | TickReceived tick =>
        option_map
          (fun previous =>
             {| base := patchRun tick (base previous);
                state := Some (tick_state tick);
                detail_timeline := detail_timeline previous |})
          (activeRun d)
    | _ => activeRun d
    end.
Proof.
  destruct e; handler_form; try reflexivity.
  - destruct (has_run d); reflexivity.
  - destruct (seekEnabled d i); reflexivity.
  - destruct (has_run d); reflexivity.
  - destruct (reconnectTimerRef d); [rewrite connect_fst|]; reflexivity.
Qed.

Lemma modeEffect_activeRun before d :
  activeRun (modeEffect before d) = activeRun d.
Proof. rewrite modeEffect_set. destruct (_ && _); reflexivity. Qed.

Lemma step_activeRun d e :
  activeRun (fst (step d e)) = activeRun (fst (handle d e)).
Proof.
  rewrite step_fst. cbv zeta.
  destruct (activeRunReplaced d e).
  - unfold activeRunEffect.
    destruct (activeRun (modeEffect d (fst (handle d e))));
      cbn; apply modeEffect_activeRun.
  - apply modeEffect_activeRun.
Qed.

(** The connection cells after a whole step. *)
Lemma step_connCells d e :
  connCells (fst (step d e))
  = match e with
    | RunDetailLoaded runId _ detail _ =>
        (Some (run_id (base detail)), Some (run_id (base detail)),
         Some (stage (base detail)), None)
    | TickReceived tick =>
        (activeRunId d,
         if has_run d then activeRunId d else activeRunIdRef d,
         Some (tick_stage tick), reconnectTimerRef d)
    | _ => connCells (fst (handle d e))
    end.
Proof.
  rewrite step_fst. cbv zeta.
  pose proof (modeEffect_connCells d (fst (handle d e))) as M.
  pose proof (modeEffect_activeRun d (fst (handle d e))) as MA.
  rewrite handle_connCells in M. rewrite handle_activeRun in MA.
  set (d2 := modeEffect d (fst (handle d e))) in *. clearbody d2.
  destruct e; cbn [activeRunReplaced];
    try (rewrite handle_connCells; exact M).
  - (* run detail *)
    unfold connCells, activeRunId, activeRunEffect in *.
    rewrite MA. cbn. rewrite MA. cbn.
    injection M as _ _ _ ->. reflexivity.
  - (* tick *)
    unfold has_run. destruct (activeRun d) as [r|] eqn:R; [|exact M].
    unfold connCells, activeRunId, activeRunEffect in *.
    rewrite R in *. cbn [option_map] in *.
    rewrite MA. cbn. rewrite MA. cbn.
    injection M as _ _ _ ->. reflexivity.
Qed.

Lemma conn_inv_step d e : conn_inv d -> conn_inv (fst (step d e)).
Proof.
  unfold conn_inv. intros [I T].
  pose proof (step_connCells d e) as S. rewrite handle_connCells in S.
  unfold connCells in S.
  remember (fst (step d e)) as d' eqn:Ed'. clear Ed'.
  assert (Sch : forall r a t, scheduled d r a = Some t ->
                              activeRunIdRef d = Some (timer_run t)).
  { unfold scheduled. intros r a t.
    destruct (shouldReconnect d r) eqn:G; [|discriminate].
    apply shouldReconnect_spec in G as [G _].
    destruct (negb _); [|discriminate]. intros [= <-]. exact G. }
  destruct e; injection S as -> -> _ ->; try (split; assumption).
  - split; [reflexivity|discriminate].
  - split.
    + destruct (has_run d); [reflexivity|assumption].
    + intros t E. rewrite <- I. destruct (has_run d); apply T, E.
  - split; [assumption|]. apply Sch.
  - split; [assumption|]. destruct wasClean; [discriminate|]. apply Sch.
  - split; [|discriminate].
    destruct (reconnectTimerRef d) as [t|] eqn:E; [|assumption].
    rewrite <- I. symmetry. now apply T.
Qed.

Lemma conn_inv_reachable d : reachable d -> conn_inv d.
Proof.
  revert d. apply reachable_ind.
  - split; [reflexivity|discriminate].
  - intros d e. apply conn_inv_step.
Qed.


Lemma handle_stream_frame d e :
  stream_event e = true ->
  selectedScenario (fst (handle d e)) = selectedScenario d
  /\ mode (fst (handle d e)) = mode d
  /\ tickHistory (fst (handle d e)) = tickHistory d
  /\ timeline (fst (handle d e)) = timeline d.
Proof.
  destruct e; try discriminate; intros _; handler_form; auto.
  destruct (reconnectTimerRef d); [rewrite connect_fst|]; auto.
Qed.

Lemma modeEffect_same d d1 :
  mode d1 = mode d -> tickHistory d1 = tickHistory d -> modeEffect d d1 = d1.
Proof.
  intros M H. unfold modeEffect. rewrite M, H, Z.eqb_refl.
  destruct (mode d); reflexivity.
Qed.

(** A stream event runs its handler and nothing else. *)
Lemma step_stream d e :
  stream_event e = true -> step d e = handle d e.
Proof.
  intros E. destruct (handle_stream_frame d e E) as (S & M & H & _).
  pose proof (handle_connCells d e) as C.
  unfold step. destruct (handle d e) as [d1 out] eqn:Hd. cbn [fst] in *.
  rewrite (modeEffect_same d d1 M H).
  assert (A : activeRunId d1 = activeRunId d).
  { unfold connCells in C. destruct e; try discriminate; now injection C. }
  assert (R : activeRunReplaced d e = false)
    by (destruct e; try discriminate; reflexivity).
  rewrite R. unfold autoSelectDue. fold (activeRunId d) (activeRunId d1).
  rewrite S, A, !id_eqb_refl.
  destruct e; try discriminate; cbn; now rewrite app_nil_r.
Qed.

Lemma failure_stream runId attempt e :
  failure runId attempt e -> stream_event e = true.
Proof. now intros [-> | ->]. Qed.

Lemma step_failure_timer d runId attempt e :
  failure runId attempt e ->
  reconnectTimerRef (fst (step d e)) = scheduled d runId attempt.
Proof.
  intros F. pose proof (step_connCells d e) as S.
  rewrite handle_connCells in S. unfold connCells in S.
  destruct F as [-> | ->]; now injection S.
Qed.

Lemma step_failure_out d runId attempt e :
  failure runId attempt e ->
  snd (step d e)
  = if shouldReconnect d runId && negb (5 <=? attempt)%nat then []
    else [FetchRuns].
Proof.
  intros F. rewrite (step_stream d e (failure_stream _ _ _ F)).
  now apply handle_failure_out.
Qed.

Lemma scheduleReconnect_toast d runId attempt :
  shouldReconnect d runId = true -> (5 <= attempt)%nat ->
  toast (fst (scheduleReconnect d runId attempt))
  = errorToast "Run stream lost connection".
Proof.
  intros G A. unfold scheduleReconnect, clearReconnectTimer.
  destruct (reconnectTimerRef d); autorewrite with guard; rewrite G;
    cbn [negb]; destruct (Nat.leb_spec 5 attempt); try lia; reflexivity.
Qed.

Lemma step_exhausted_toast d runId attempt e :
  failure runId attempt e ->
  shouldReconnect d runId = true -> (5 <= attempt)%nat ->
  toast (fst (step d e)) = errorToast "Run stream lost connection".
Proof.
  intros F G A. rewrite (step_stream d e (failure_stream _ _ _ F)).
  destruct F as [-> | ->]; cbn [handle].
  - unfold onStreamError. apply scheduleReconnect_toast; [|exact A].
    destruct (attempt =? 0)%nat; autorewrite with guard; exact G.
  - unfold onStreamClose. autorewrite with guard. rewrite G. cbn [orb negb].
    apply scheduleReconnect_toast; [|exact A]. autorewrite with guard; exact G.
Qed.

Lemma step_timer_out d :
  snd (step d ReconnectTimerFired)
  = match reconnectTimerRef d with
    | Some t =>
        match socketRef d with
        | Some s => [CloseSocket s]
        | None => []
        end ++ [OpenSocket (timer_run t) (timer_attempt t)]
    | None => []
    end.
Proof.
  rewrite step_stream by reflexivity. cbn [handle].
  destruct (reconnectTimerRef d) as [t|] eqn:T; [|reflexivity].
  unfold connect, closeSocket, clearReconnectTimer. rewrite T. cbn.
  destruct (socketRef d); reflexivity.
Qed.

Lemma in_timer_out d r n :
  In (OpenSocket r n) (snd (step d ReconnectTimerFired))
  <-> exists t, reconnectTimerRef d = Some t
                /\ timer_run t = r /\ timer_attempt t = n.
Proof.
  rewrite step_timer_out. destruct (reconnectTimerRef d) as [t|].
  - rewrite in_app_iff. cbn. split.
    + intros [H | [H | []]].
      * destruct (socketRef d); cbn in H;
          [destruct H as [H|[]]; discriminate | contradiction].
      * injection H as <- <-. eauto.
    + intros (t' & [= <-] & <- & <-). auto.
  - cbn. split; [contradiction|]. intros (t' & H & _). discriminate.
Qed.

(** C2.  On a stream error or an unclean close of the socket that
    [connect(attempt)] opened for [runId]: the guard holds exactly when the
    active run id is still [runId] and the last known stage is null,
    WARMING_UP or RUNNING; a reconnect timer is pending afterwards only if
    the guard held; if it did not, no timer is pending afterwards (one that
    was pending has been cancelled), run metadata is refreshed once, and the
    timer has nothing left to fire; the handler itself opens no socket.  In
    every reachable state a pending timer belongs to the active run, so a
    firing timer reconnects to the active run only, and selecting a run
    cancels the pending timer. *)
Theorem reconnect_guarded (d : View) (runId : string) (attempt : nat)
        (e : Event) :
  failure runId attempt e ->
  let d' := fst (step d e) in
  let out := snd (step d e) in
  (shouldReconnect d runId = true
   <-> activeRunIdRef d = Some runId /\ reconnectable (runStageRef d))
  /\ (forall t, reconnectTimerRef d' = Some t ->
                shouldReconnect d runId = true
                /\ t = reconnectTimer runId attempt)
  /\ (shouldReconnect d runId = false ->
      reconnectTimerRef d' = None /\ out = [FetchRuns]
      /\ snd (step d' ReconnectTimerFired) = [])
  /\ (forall r n, ~ In (OpenSocket r n) out)
  /\ (reachable d ->
      (forall t, reconnectTimerRef d = Some t ->
                 activeRunIdRef d = Some (timer_run t)
                 /\ activeRunId d = Some (timer_run t))
      /\ (forall r n, In (OpenSocket r n) (snd (step d ReconnectTimerFired)) ->
                      activeRunId d = Some r)
      /\ (forall runId' captured detail seed,
             reconnectTimerRef
               (fst (step d (RunDetailLoaded runId' captured detail seed)))
             = None)).
Proof.
  intros F d' out.
  pose proof (step_failure_timer d runId attempt e F) as T. fold d' in T.
  pose proof (step_failure_out d runId attempt e F) as O. fold out in O.
  split; [apply shouldReconnect_spec|]. split; [|split; [|split]].
  - intros t E. rewrite T in E. unfold scheduled in E.
    destruct (shouldReconnect d runId); [|discriminate].
    destruct (negb _); [|discriminate]. now injection E as <-.
  - intros G. rewrite T, O. unfold scheduled. rewrite G. cbn [andb].
    repeat split. rewrite step_timer_out, T. unfold scheduled. now rewrite G.
  - intros r n. rewrite O. destruct (_ && _); cbn; intuition discriminate.
  - intros R. destruct (conn_inv_reachable d R) as [I P]. repeat split.
    + now apply P.
    + rewrite <- I. now apply P.
    + intros r n (t & E & <- & _)%in_timer_out. rewrite <- I. now apply P.
    + intros.
      pose proof (step_connCells
                    d (RunDetailLoaded runId' captured detail seed)) as S.
      unfold connCells in S. now injection S.
Qed.

Lemma reconnect_guarded_witness :
  failure "run-old" 0 (StreamClosed "run-old" 0 false)
  /\ shouldReconnect Sample.streaming "run-old" = false
  /\ reconnectTimerRef
       (fst (step Sample.streaming (StreamClosed "run-old" 0 false))) = None
  /\ snd (step Sample.streaming (StreamClosed "run-old" 0 false)) = [FetchRuns].
Proof.
  assert (F : failure "run-old" 0 (StreamClosed "run-old" 0 false))
    by (right; reflexivity).
  destruct (reconnect_guarded Sample.streaming "run-old" 0 _ F)
    as (_ & _ & H & _).
  destruct (H eq_refl) as (T & O & _).
  repeat split; assumption.
Defined.

(** C6 as stated fails: connection attempts 0, 1, 2, 3 and 4 of the stream
    of [run-1] have failed, five failed attempts, and reconnection has not
    stopped.  A timer of 5000 ms is pending, the notice on display is still
    the transient one, no refresh was requested, and the timer opens
    connection attempt number 5. *)
Lemma five_failed_attempts_retry_again :
  let d := after Sample.streaming (Sample.failures 4) in
  reconnectTimerRef d
  = Some {| timer_run := "run-1"; timer_attempt := 5; timer_delay := 5000 |}
  /\ toast d = errorToast "Run stream interrupted, reconnecting..."
  /\ snd (run Sample.streaming (Sample.failures 4))
     = [CloseSocket {| sock_run := "run-1"; sock_attempt := 0 |};
        OpenSocket "run-1" 1;
        CloseSocket {| sock_run := "run-1"; sock_attempt := 1 |};
        OpenSocket "run-1" 2;
        CloseSocket {| sock_run := "run-1"; sock_attempt := 2 |};
        OpenSocket "run-1" 3;
        CloseSocket {| sock_run := "run-1"; sock_attempt := 3 |};
        OpenSocket "run-1" 4]
  /\ snd (step d ReconnectTimerFired)
     = [CloseSocket {| sock_run := "run-1"; sock_attempt := 4 |};
        OpenSocket "run-1" 5]
  /\ reconnectTimerRef d <> None
  /\ toast d <> errorToast "Run stream lost connection".
Proof. vm_compute. repeat split; try reflexivity; discriminate. Qed.

(** C6, amended.  While the reconnect guard holds, the failure of
    connection attempt number [n] (counted from 0) with [n < 5] arms a
    timer of [min(n+1, 5)] seconds, requests nothing else, and the timer
    then opens attempt [n+1]; the failure of attempt number 5 or more (the
    sixth failed attempt, after five reconnections) arms no timer, raises
    the notice "Run stream lost connection", refreshes run metadata, and
    nothing is left to fire. *)
Theorem reconnect_backoff (d : View) (runId : string) (attempt : nat)
        (e : Event) :
  failure runId attempt e ->
  shouldReconnect d runId = true ->
  let d' := fst (step d e) in
  let out := snd (step d e) in
  ((attempt < 5)%nat ->
   reconnectTimerRef d'
   = Some {| timer_run := runId; timer_attempt := S attempt;
             timer_delay := Z.min (Z.of_nat attempt + 1) 5 * 1000 |}
   /\ out = []
   /\ In (OpenSocket runId (S attempt)) (snd (step d' ReconnectTimerFired)))
  /\ ((5 <= attempt)%nat ->
      reconnectTimerRef d' = None
      /\ toast d' = errorToast "Run stream lost connection"
      /\ out = [FetchRuns]
      /\ snd (step d' ReconnectTimerFired) = []).
Proof.
  intros F G d' out.
  pose proof (step_failure_timer d runId attempt e F) as T. fold d' in T.
  pose proof (step_failure_out d runId attempt e F) as O. fold out in O.
  unfold scheduled in T. rewrite G in T, O. cbn [andb] in T, O. split.
  - intros A. destruct (Nat.leb_spec 5 attempt); [lia|]. cbn [negb] in T, O.
    assert (T' : reconnectTimerRef d'
                 = Some {| timer_run := runId; timer_attempt := S attempt;
                           timer_delay :=
                             Z.min (Z.of_nat attempt + 1) 5 * 1000 |}).
    { rewrite T. unfold reconnectTimer. now rewrite Nat.add_1_r, Z.min_comm. }
    repeat split; [exact T'|exact O|].
    apply in_timer_out. eexists. split; [exact T'|]. split; reflexivity.
  - intros A. destruct (Nat.leb_spec 5 attempt); [|lia]. cbn [negb] in T, O.
    repeat split; [exact T| |exact O|].
    + now apply (step_exhausted_toast d runId attempt e).
    + rewrite step_timer_out, T. reflexivity.
Qed.

Lemma reconnect_backoff_witness :
  failure "run-1" 4 (StreamError "run-1" 4)
  /\ shouldReconnect Sample.streaming "run-1" = true
  /\ reconnectTimerRef (fst (step Sample.streaming (StreamError "run-1" 4)))
     = Some {| timer_run := "run-1"; timer_attempt := 5; timer_delay := 5000 |}
  /\ reconnectTimerRef (fst (step Sample.streaming (StreamError "run-1" 5)))
     = None
  /\ snd (step Sample.streaming (StreamError "run-1" 5)) = [FetchRuns].
Proof.
  assert (F4 : failure "run-1" 4 (StreamError "run-1" 4))
    by (left; reflexivity).
  assert (F5 : failure "run-1" 5 (StreamError "run-1" 5))
    by (left; reflexivity).
  assert (G : shouldReconnect Sample.streaming "run-1" = true) by reflexivity.
  destruct (reconnect_backoff Sample.streaming "run-1" 4 _ F4 G) as (A & _).
  destruct (reconnect_backoff Sample.streaming "run-1" 5 _ F5 G) as (_ & B).
  destruct A as (A1 & _); [lia|].
  destruct B as (B1 & _ & B3 & _); [lia|].
  repeat split; assumption.
Defined.


(* ---------------------------------------------------------------- *)
(** ** Run selection *)

Lemma slice_from_last {A} (a : list A) (n : nat) :
  (0 < n)%nat -> slice_from a (- Z.of_nat n) = lastn n a.
Proof.
  intros H. unfold slice_from, lastn, len.
  destruct (Z.ltb_spec (- Z.of_nat n) 0); [|lia]. f_equal. lia.
Qed.

Lemma step_run_detail d runId captured detail seed :
  let d' := fst (step d (RunDetailLoaded runId captured detail seed)) in
  activeRun d' = Some detail
  /\ tickHistory d' = seedTick detail
  /\ timeline d' = lastn 200 seed.
Proof.
  cbv zeta. rewrite step_activeRun, handle_activeRun, step_tickHistory.
  repeat split.
  rewrite <- (slice_from_last seed 200) by lia.
  rewrite step_fst. cbv zeta. cbn [activeRunReplaced].
  unfold activeRunEffect. rewrite modeEffect_activeRun, modeEffect_set.
  handler_form. cbn. destruct (_ && _); reflexivity.
Qed.

Lemma step_activeRunId d e :
  activeRunId (fst (step d e))
  = match e with
    | RunDetailLoaded _ _ detail _ => Some (run_id (base detail))
    | _ => activeRunId d
    end.
Proof.
  pose proof (step_connCells d e) as S. rewrite handle_connCells in S.
  unfold connCells in S. destruct e; now injection S.
Qed.

(** C9.  The active run is one optional cell.  A step changes the active
    run id only when the detail of a selected run has arrived, and in that
    same step the tick history becomes the seed made from the fetched
    detail and the timeline the last 200 events of the fetched timeline:
    both are functions of what was fetched, nothing buffered for the
    previous run is kept.  In every reachable state the ref of the
    connection manager names that same run. *)
Theorem run_switch_replaces_buffers (d : View) (e : Event) :
  let d' := fst (step d e) in
  (activeRunId d' <> activeRunId d ->
   exists runId captured detail seed,
     e = RunDetailLoaded runId captured detail seed)
  /\ (forall runId captured detail seed,
        e = RunDetailLoaded runId captured detail seed ->
        activeRun d' = Some detail
        /\ tickHistory d' = seedTick detail
        /\ timeline d' = lastn 200 seed)
  /\ (reachable d ->
      activeRunIdRef d = activeRunId d /\ activeRunIdRef d' = activeRunId d').
Proof.
  intros d'. split; [|split].
  - intros N. unfold d' in N. rewrite step_activeRunId in N.
    destruct e; try (now contradiction N). eauto.
  - intros runId captured detail seed ->. apply step_run_detail.
  - intros R. split.
    + apply (conn_inv_reachable d R).
    + apply (conn_inv_reachable d'). now apply reachable_step.
Qed.

Lemma run_switch_replaces_buffers_witness :
  let e := RunDetailLoaded "run-old" []
             (Sample.detailOf Sample.oldRun (Some Sample.world)) [] in
  let d' := fst (step Sample.scrubbing e) in
  len (tickHistory Sample.scrubbing) = 50
  /\ activeRunId Sample.scrubbing = Some "run-1"
  /\ activeRunId d' = Some "run-old"
  /\ tickHistory d'
     = seedTick (Sample.detailOf Sample.oldRun (Some Sample.world))
  /\ timeline d' = []
  /\ activeRunIdRef d' = activeRunId d'.
Proof.
  intros e d'.
  destruct (run_switch_replaces_buffers Sample.scrubbing e) as (_ & S & I).
  destruct (S _ _ _ _ eq_refl) as (A & H & T).
  destruct (I reachable_scrubbing) as (_ & I').
  fold d' in A, H, T, I'.
  split; [vm_compute; reflexivity|]. split; [vm_compute; reflexivity|].
  split; [unfold activeRunId; rewrite A; reflexivity|].
  split; [exact H|]. split; [exact T|exact I'].
Defined.

(* ---------------------------------------------------------------- *)
(** ** Run catalog *)

Lemma insertRun_In r l x : In x (insertRun r l) <-> x = r \/ In x l.
Proof.
  induction l as [|h t IH]; cbn.
  - intuition.
  - destruct (_ <=? _); cbn; rewrite ?IH; intuition.
Qed.

Lemma sortRuns_In l x : In x (sortRuns l) <-> In x l.
Proof.
  induction l as [|h t IH]; cbn; [tauto|].
  rewrite insertRun_In, IH. intuition.
Qed.

(** Most recent first. *)
Lemma insertRun_sorted r l :
  StronglySorted (fun a b => created_at b <= created_at a) l ->
  StronglySorted (fun a b => created_at b <= created_at a) (insertRun r l).
Proof.
  induction 1 as [|h t S IH F]; cbn.
  - repeat constructor.
  - destruct (Z.leb_spec (created_at h - created_at r) 0).
    + constructor; [now constructor|].
      constructor; [lia|]. eapply Forall_impl; [|exact F]. cbn. intros; lia.
    + constructor; [exact IH|].
      apply Forall_forall. intros x [-> | Hx]%insertRun_In; [lia|].
      rewrite Forall_forall in F. now apply F.
Qed.

Lemma sortRuns_sorted l :
  StronglySorted (fun a b => created_at b <= created_at a) (sortRuns l).
Proof.
  induction l; cbn; [constructor|now apply insertRun_sorted].
Qed.

Lemma matchingRuns_In sel rs x :
  In x (matchingRuns sel rs) <-> In x rs /\ scenario_id x = scn_id sel.
Proof.
  unfold matchingRuns. rewrite sortRuns_In, filter_In, String.eqb_eq. tauto.
Qed.

Lemma index_head {A} (a : list A) : index a 0 = hd_error a.
Proof. now destruct a. Qed.

(** The heuristic of the auto-select effect. *)
Lemma preferredRun_spec sel rs :
  match preferredRun sel rs with
  | Some p =>
      In p rs /\ scenario_id p = scn_id sel
      /\ ((exists x, In x rs /\ scenario_id x = scn_id sel
                     /\ is_live_stage (stage x) = true) ->
          is_live_stage (stage p) = true)
      /\ ((forall x, In x rs -> scenario_id x = scn_id sel ->
                     is_live_stage (stage x) = false) ->
          forall x, In x rs -> scenario_id x = scn_id sel ->
                    created_at x <= created_at p)
  | None => forall x, In x rs -> scenario_id x <> scn_id sel
  end.
Proof.
  unfold preferredRun, nullish, Js.find.
  destruct (List.find _ (matchingRuns sel rs)) as [p|] eqn:F.
  - apply find_some in F as [I L]. apply matchingRuns_In in I as [I S].
    repeat split; try assumption.
    + intros _. exact L.
    + intros N x Ix Sx. rewrite (N p I S) in L. discriminate.
  - pose proof (find_none _ _ F) as N. rewrite index_head.
    pose proof (sortRuns_sorted
                  (filter (fun run => String.eqb (scenario_id run) (scn_id sel))
                          rs)) as St.
    fold (matchingRuns sel rs) in St.
    destruct (matchingRuns sel rs) as [|p m] eqn:M; cbn [hd_error].
    + intros x Ix Sx. assert (In x (matchingRuns sel rs)) as Hx
        by now apply matchingRuns_In.
      rewrite M in Hx. contradiction.
    + assert (Ip : In p (matchingRuns sel rs)) by (rewrite M; now left).
      apply matchingRuns_In in Ip as [Ip Sp]. repeat split; try assumption.
      * intros (x & Ix & Sx & Lx).
        assert (Hx : In x (p :: m))
          by (rewrite <- M; now apply matchingRuns_In).
        rewrite (N x Hx) in Lx. discriminate.
      * intros _ x Ix Sx.
        assert (Hx : In x (p :: m))
          by (rewrite <- M; now apply matchingRuns_In).
        inversion St as [|? ? _ Fa]; subst. destruct Hx as [<- | Hx]; [lia|].
        rewrite Forall_forall in Fa. now apply Fa.
Qed.

(** What the effect requests. *)
Lemma autoSelect_spec d runId :
  autoSelect d = Some runId
  <-> exists sel p, selectedScenario d = Some sel
                    /\ preferredRun sel (runs d) = Some p
                    /\ run_id p = runId
                    /\ activeRunId d <> Some runId.
Proof.
  unfold autoSelect. fold (activeRunId d).
  destruct (selectedScenario d) as [sel|].
  2:{ split; [discriminate|]. intros (? & ? & ? & _). discriminate. }
  assert (E : (len (runs d) =? 0) = true -> preferredRun sel (runs d) = None).
  { intros Z0%Z.eqb_eq%len_zero_nil. now rewrite Z0. }
  assert (E' : (len (matchingRuns sel (runs d)) =? 0) = true ->
               preferredRun sel (runs d) = None).
  { intros Z0%Z.eqb_eq%len_zero_nil. unfold preferredRun. now rewrite Z0. }
  destruct (len (runs d) =? 0).
  { split; [discriminate|]. intros (? & ? & [= <-] & P & _).
    rewrite E in P by reflexivity. discriminate. }
  destruct (len (matchingRuns sel (runs d)) =? 0).
  { split; [discriminate|]. intros (? & ? & [= <-] & P & _).
    rewrite E' in P by reflexivity. discriminate. }
  clear E E'.
  destruct (preferredRun sel (runs d)) as [p|] eqn:P.
  2:{ split; [discriminate|]. intros (? & ? & [= <-] & P' & _). congruence. }
  destruct (id_eqb (Some (run_id p)) (activeRunId d)) eqn:I; cbn [negb].
  - apply id_eqb_eq in I. split; [discriminate|].
    intros (? & ? & [= <-] & P' & <- & N). congruence.
  - split.
    + intros [= <-]. exists sel, p.
      split; [reflexivity|]. split; [exact P|]. split; [reflexivity|].
      intros A. rewrite A, id_eqb_refl in I. discriminate.
    + intros (? & ? & [= <-] & P' & <- & _). congruence.
Qed.

(** Loading a run of the inspected scenario leaves the catalog as it
    was. *)
Lemma step_run_detail_catalog d runId captured detail seed sel :
  selectedScenario d = Some sel ->
  scenario_id (base detail) = scn_id sel ->
  let d' := fst (step d (RunDetailLoaded runId captured detail seed)) in
  selectedScenario d' = Some sel /\ runs d' = runs d.
Proof.
  intros S E. cbv zeta. rewrite step_fst.
  assert (X : id_eqb (option_map scn_id (selectedScenario d))
                     (Some (scenario_id (base detail))) = true)
    by (rewrite S, E; apply id_eqb_refl).
  cbn [activeRunReplaced]. unfold activeRunEffect.
  rewrite modeEffect_activeRun, modeEffect_set. handler_form. cbn.
  rewrite X. destruct (_ && _); auto.
Qed.

(** Whatever run of the inspected scenario the operator picks, if it is not
    the preferred one the effect asks for the preferred one again. *)
Lemma manual_selection_overridden d runId captured detail seed sel p :
  selectedScenario d = Some sel ->
  scenario_id (base detail) = scn_id sel ->
  preferredRun sel (runs d) = Some p ->
  run_id p <> run_id (base detail) ->
  activeRunId d <> Some (run_id (base detail)) ->
  In (FetchRunDetail (run_id p))
     (snd (step d (RunDetailLoaded runId captured detail seed))).
Proof.
  intros S E P N A.
  destruct (step_run_detail_catalog d runId captured detail seed sel S E)
    as (S' & R').
  pose proof (step_activeRunId d (RunDetailLoaded runId captured detail seed))
    as I. cbv beta iota in I.
  unfold step in *.
  destruct (handle d (RunDetailLoaded runId captured detail seed))
    as [d1 out]. cbn [fst snd activeRunReplaced] in *.
  set (d' := activeRunEffect (modeEffect d d1)) in *.
  apply in_or_app. right.
  assert (D : autoSelectDue d d' (RunDetailLoaded runId captured detail seed)
              = true).
  { unfold autoSelectDue. fold (activeRunId d) (activeRunId d').
    rewrite I. destruct (id_eqb (activeRunId d) _) eqn:X.
    - apply id_eqb_eq in X. contradiction.
    - now rewrite orb_true_r. }
  rewrite D. unfold autoSelectEffect.
  assert (Q : autoSelect d' = Some (run_id p)).
  { apply autoSelect_spec. exists sel, p. rewrite R'.
    repeat split; try assumption. rewrite I. congruence. }
  rewrite Q. now left.
Qed.

(** C7, on a failing input.  Two finished runs of one scenario are listed
    and the newer one, [run-new], is active.  The operator clicks the older
    one in the run history: its detail is requested, and when it arrives
    [run-old] is active; but the auto-select effect runs because the active
    run id changed, finds that the most recent run of the inspected
    scenario is not the active one, and requests [run-new] again; when that
    arrives the operator's choice is gone. *)
Theorem auto_select_overrides_manual_selection :
  let old := Sample.detailOf Sample.oldRun (Some Sample.world) in
  let new := Sample.detailOf Sample.newRun (Some Sample.world) in
  let clicked := step Sample.browsing (RunClicked "run-old") in
  let loaded :=
    step (fst clicked) (RunDetailLoaded "run-old" [Sample.warehouseA] old []) in
  let settled :=
    step (fst loaded) (RunDetailLoaded "run-new" [Sample.warehouseA] new []) in
  activeRunId Sample.browsing = Some "run-new"
  /\ snd clicked = [FetchRunDetail "run-old"]
  /\ activeRunId (fst loaded) = Some "run-old"
  /\ snd loaded = [FetchRunDetail "run-new"]
  /\ activeRunId (fst settled) = Some "run-new"
  /\ snd settled = [].
Proof. vm_compute. repeat split; reflexivity. Qed.


(* ---------------------------------------------------------------- *)
(** ** What the renderer is given *)

Lemma index_inside {A} (a : list A) i :
  0 <= i < len a -> exists x, index a i = Some x.
Proof.
  intros H. destruct (index_app_left a [] i H) as [_ N].
  destruct (index a i) as [x|]; [eauto | contradiction].
Qed.

Lemma index_outside {A} (a : list A) i : len a <= i -> index a i = None.
Proof.
  unfold index, len. intros H. destruct (Z.ltb_spec i 0); [reflexivity|].
  apply nth_error_None. lia.
Qed.

(** In a state that satisfies the replay invariant the active tick is the
    buffered element nearest to the cursor. *)
Lemma activeTick_clamp d :
  replay_inv d -> tickHistory d <> [] ->
  exists t, index (tickHistory d) (clamp (cursor d) (len (tickHistory d)))
            = Some t
            /\ activeTick d = Some t.
Proof.
  intros (_ & C & L) N. unfold activeTick, clamp.
  assert (P : 0 < len (tickHistory d)).
  { pose proof (len_nonneg (tickHistory d)).
    assert (len (tickHistory d) <> 0) by now rewrite len_zero_nil. lia. }
  destruct (Z.eqb_spec (len (tickHistory d)) 0) as [|_]; [lia|].
  destruct (index_inside (tickHistory d) (len (tickHistory d) - 1)) as [z Z];
    [lia|].
  destruct (mode d) eqn:M.
  - rewrite (L eq_refl) by lia.
    replace (Z.max 0 _) with (len (tickHistory d) - 1) by lia. eauto.
  - destruct (Z.lt_ge_cases (cursor d) (len (tickHistory d))) as [I|O].
    + replace (Z.max 0 _) with (cursor d) by lia.
      destruct (index_inside (tickHistory d) (cursor d)) as [x X]; [lia|].
      rewrite X. cbn. eauto.
    + replace (Z.max 0 _) with (len (tickHistory d) - 1) by lia.
      rewrite (index_outside _ _ O). cbn. eauto.
Qed.

Lemma activeTick_empty d : tickHistory d = [] -> activeTick d = None.
Proof. unfold activeTick. now intros ->. Qed.

Lemma fallbackLayout_config d :
  fallbackLayout d
  = option_map (fun s => config_layout (config s)) (activeScenario d).
Proof.
  unfold fallbackLayout. destruct (activeScenario d) as [s|]; [|reflexivity].
  cbn. now destruct (config_layout (config s)).
Qed.

Lemma index_negative {A} (a : list A) i : i < 0 -> index a i = None.
Proof.
  unfold index. intros H. destruct (Z.ltb_spec i 0); [reflexivity|lia].
Qed.

(** Which element the active tick is, whatever the cursor holds. *)
Lemma activeTick_cases d :
  tickHistory d <> [] ->
  exists t,
    activeTick d = Some t
    /\ (mode d = replay -> 0 <= cursor d ->
        index (tickHistory d) (clamp (cursor d) (len (tickHistory d)))
        = Some t)
    /\ (mode d = replay -> cursor d < 0 ->
        index (tickHistory d) (len (tickHistory d) - 1) = Some t)
    /\ (mode d = live ->
        index (tickHistory d) (len (tickHistory d) - 1) = Some t).
Proof.
  intros N. unfold activeTick, clamp.
  assert (P : 0 < len (tickHistory d)).
  { pose proof (len_nonneg (tickHistory d)).
    assert (len (tickHistory d) <> 0) by now rewrite len_zero_nil. lia. }
  destruct (Z.eqb_spec (len (tickHistory d)) 0) as [|_]; [lia|].
  destruct (index_inside (tickHistory d) (len (tickHistory d) - 1)) as [z Z];
    [lia|].
  destruct (mode d) eqn:M.
  - exists z. split; [exact Z|]. split; [discriminate|].
    split; [discriminate|]. intros _. exact Z.
  - destruct (Z.lt_ge_cases (cursor d) 0) as [B|B].
    + rewrite (index_negative _ _ B). cbn [nullish]. exists z.
      split; [exact Z|]. split; [intros; lia|].
      split; [|discriminate]. intros _ _. exact Z.
    + destruct (Z.lt_ge_cases (cursor d) (len (tickHistory d))) as [I|O].
      * destruct (index_inside (tickHistory d) (cursor d)) as [x X]; [lia|].
        rewrite X. cbn [nullish]. exists x.
        split; [reflexivity|]. split; [|split; [intros; lia|discriminate]].
        intros _ _. replace (Z.max 0 _) with (cursor d) by lia. exact X.
      * rewrite (index_outside _ _ O). cbn [nullish]. exists z.
        split; [exact Z|]. split; [|split; [intros; lia|discriminate]].
        intros _ _.
        replace (Z.max 0 _) with (len (tickHistory d) - 1) by lia. exact Z.
Qed.

(** C5 as stated fails, on the layout and on the cursor.

    Scenarios [scn-a] (8 by 6) and [scn-b] (20 by 10) are listed; the
    active run belongs to [scn-a], has no stored snapshot and has sent no
    tick; the operator inspects [scn-b].  The canvas is given the layout of
    [scn-a], not that of the selected scenario.

    And "for every cursor value" the active tick is not the element
    nearest to the cursor: with 50 ticks buffered, a replay cursor of -1
    shows the newest tick (index 49) where the nearest valid index is 0,
    and in live mode a cursor of 0 shows the newest tick where the
    element at the cursor is the oldest.  The replay controller takes the
    cursor to neither value. *)
Lemma fallback_layout_not_of_selected_scenario :
  (let d := Sample.inspectingOther in
   tickHistory d = []
   /\ option_map state (activeRun d) = Some None
   /\ option_map scn_id (selectedScenario d) = Some "scn-b"
   /\ option_map (fun s => config_layout (config s)) (selectedScenario d)
      = Some (Sample.lay 20 10)
   /\ option_map cv_layout (canvasProps d) = Some (Some (Sample.lay 8 6))
   /\ option_map cv_layout (canvasProps d)
      <> Some (option_map (fun s => config_layout (config s))
                          (selectedScenario d)))
  /\ (let d := Sample.cursorNegative in
      let h := tickHistory d in
      len h = 50 /\ mode d = replay /\ cursor d = -1
      /\ clamp (cursor d) (len h) = 0
      /\ activeTick d = index h 49
      /\ activeTick d <> index h (clamp (cursor d) (len h)))
  /\ (let d := Sample.cursorLagging in
      let h := tickHistory d in
      len h = 50 /\ mode d = live /\ cursor d = 0
      /\ activeTick d = index h 49
      /\ activeTick d <> index h (cursor d)).
Proof. vm_compute. repeat split; try reflexivity; discriminate. Qed.

(** C5, amended.  For every cursor value and buffer state.  When the
    buffer is not empty there is an active tick: in replay mode the
    buffered element at the cursor, or the last element when the cursor is
    not a valid index (for a cursor past the end that is the nearest valid
    one); in live mode the last element, which is the element nearest to
    the cursor whenever the replay controller's invariant holds, as it does
    in every state the dashboard reaches ([replay_inv_reachable]).  The
    renderer is given that tick's state, metrics and heat map, and the
    canvas that state's layout, packages, robots and reservations.  When
    the buffer is empty there is no active tick and the state, metrics and
    heat map are those carried by the run record; the canvas is given the
    stored state's layout and entities when the record has a state, and
    otherwise the static layout of the active run's scenario if the
    scenario list has it, else that of the selected scenario, with no
    packages, robots or reservations. *)
Theorem renderer_input (d : View) :
  let h := tickHistory d in
  (h <> [] ->
   exists t,
     activeTick d = Some t
     /\ (mode d = replay -> 0 <= cursor d ->
         index h (clamp (cursor d) (len h)) = Some t)
     /\ (mode d = replay -> cursor d < 0 -> index h (len h - 1) = Some t)
     /\ (mode d = live -> index h (len h - 1) = Some t)
     /\ (replay_inv d -> index h (clamp (cursor d) (len h)) = Some t)
     /\ currentState d = Some (tick_state t)
     /\ currentMetrics d = Some (tick_metrics t)
     /\ currentHeatmap d = tick_heatmap t
     /\ (activeRun d <> None ->
         canvasProps d
         = Some {| cv_layout := Some (layout (tick_state t));
                   cv_packages := packages (tick_state t);
                   cv_robots := robots (tick_state t);
                   cv_reservations := reservations (tick_state t);
                   cv_heatmap := if showHeatmap d
                                 then Some (tick_heatmap t) else None;
                   cv_showHeatmap := showHeatmap d |}))
  /\ (h = [] ->
      activeTick d = None
      /\ forall r, activeRun d = Some r ->
         currentState d = state r
         /\ currentMetrics d = Some (metrics (base r))
         /\ currentHeatmap d = heatmap (base r)
         /\ (forall st, state r = Some st ->
             canvasProps d
             = Some {| cv_layout := Some (layout st);
                       cv_packages := packages st;
                       cv_robots := robots st;
                       cv_reservations := reservations st;
                       cv_heatmap := if showHeatmap d
                                     then Some (heatmap (base r)) else None;
                       cv_showHeatmap := showHeatmap d |})
         /\ (state r = None ->
             canvasProps d
             = Some {| cv_layout :=
                         option_map
                           (fun s => config_layout (config s))
                           (nullish
                              (find (fun item =>
                                       String.eqb (scn_id item)
                                                  (scenario_id (base r)))
                                    (scenarios d))
                              (selectedScenario d));
                       cv_packages := []; cv_robots := [];
                       cv_reservations := [];
                       cv_heatmap := if showHeatmap d
                                     then Some (heatmap (base r)) else None;
                       cv_showHeatmap := showHeatmap d |})).
Proof.
  intros h. subst h. split.
  - intros N.
    destruct (activeTick_cases d N) as (t & T & Rp & Rn & Lv).
    exists t. split; [exact T|]. split; [exact Rp|]. split; [exact Rn|].
    split; [exact Lv|]. split.
    { intros (_ & C & L). destruct (mode d) eqn:M.
      - rewrite <- (Lv eq_refl). f_equal. unfold clamp.
        assert (len (tickHistory d) <> 0) by now rewrite len_zero_nil.
        pose proof (len_nonneg (tickHistory d)).
        rewrite (L eq_refl) by assumption. lia.
      - now apply Rp. }
    unfold canvasProps, currentState, currentMetrics, currentHeatmap.
    rewrite T. cbn. repeat split.
    intros A. destruct (activeRun d); [reflexivity|contradiction].
  - intros E. pose proof (activeTick_empty d E) as T.
    split; [exact T|]. intros r A.
    unfold currentState, currentMetrics, currentHeatmap, canvasProps.
    rewrite fallbackLayout_config.
    unfold currentState, currentHeatmap, activeScenario.
    rewrite T, A. cbn. repeat split.
    + intros st ->. reflexivity.
    + intros ->. cbn. destruct (find _ (scenarios d)); reflexivity.
Qed.

(** The theorem read at four states: the slider at index 10 of 50, the
    cursor past the end, an empty buffer with a stored snapshot, and an
    empty buffer without one. *)
Lemma renderer_input_witness :
  activeTick Sample.scrubbing = Some (Sample.tick 10)
  /\ activeTick Sample.cursorPastEnd = Some (Sample.tick 49)
  /\ option_map cv_layout (canvasProps Sample.snapshotOnly)
     = Some (Some (Sample.lay 12 9))
  /\ option_map cv_layout (canvasProps Sample.inspectingOther)
     = Some (Some (Sample.lay 8 6))
  /\ option_map cv_packages (canvasProps Sample.inspectingOther) = Some [].
Proof.
  destruct (renderer_input Sample.scrubbing) as (T & _).
  destruct T as (t & T & I & _); [vm_compute; discriminate|].
  specialize (I eq_refl). rewrite T, <- I by (vm_compute; discriminate).
  destruct (renderer_input Sample.cursorPastEnd) as (T' & _).
  destruct T' as (t' & T' & I' & _); [vm_compute; discriminate|].
  specialize (I' eq_refl). rewrite T', <- I' by (vm_compute; discriminate).
  destruct (renderer_input Sample.snapshotOnly) as (_ & E).
  destruct E as (_ & E); [vm_compute; reflexivity|].
  destruct (E (Sample.detailOf Sample.liveRun (Some Sample.stored)) eq_refl)
    as (_ & _ & _ & S & _).
  rewrite (S Sample.stored eq_refl).
  destruct (renderer_input Sample.inspectingOther) as (_ & F).
  destruct F as (_ & F); [vm_compute; reflexivity|].
  destruct (F (Sample.detailOf Sample.queuedRun None)) as (_ & _ & _ & _ & C);
    [vm_compute; reflexivity|].
  rewrite (C eq_refl).
  repeat split; vm_compute; reflexivity.
Defined.

(* ---------------------------------------------------------------- *)
(** ** Division of numbers *)

Lemma safeb_safe z : safeb z = true <-> safe z.
Proof.
  unfold safeb, safe. rewrite andb_true_iff, !Z.ltb_lt. reflexivity.
Qed.

Lemma safeb_between a b v :
  safeb a = true -> safeb b = true -> a <= v <= b -> safeb v = true.
Proof.
  rewrite !safeb_safe. unfold safe. lia.
Qed.

Lemma roundHalfEven_near a b :
  0 < b -> - b <= 2 * (roundHalfEven a b * b - a) <= b.
Proof.
  intros Hb. unfold roundHalfEven. cbv zeta.
  pose proof (Z.div_mod a b ltac:(lia)) as D.
  pose proof (Z.mod_pos_bound a b Hb) as R.
  set (q := a / b) in *. set (r := a mod b) in *.
  destruct (Z.compare_spec (2 * r) b); [destruct (Z.even q)| |]; nia.
Qed.

Lemma roundHalfEven_le a b p :
  0 < b -> a <= b * p -> roundHalfEven a b <= p.
Proof.
  intros Hb H. pose proof (roundHalfEven_near a b Hb). nia.
Qed.

Lemma roundHalfEven_ge a b p :
  0 < b -> b * p <= a -> p <= roundHalfEven a b.
Proof.
  intros Hb H. pose proof (roundHalfEven_near a b Hb). nia.
Qed.

(** For a quotient that is at most 1 the exponent is not positive, and
    scaling by it brings the numerator up to the denominator. *)
Lemma floorLog2_below n d :
  0 < n <= d ->
  floorLog2 n d <= 0 /\ d <= n * 2 ^ (- floorLog2 n d).
Proof.
  intros [Hn Hd]. unfold floorLog2. cbv zeta.
  pose proof (Z.log2_spec n Hn) as [An Bn].
  pose proof (Z.log2_spec d ltac:(lia)) as [Ad Bd].
  pose proof (Z.log2_nonneg n) as Pn.
  pose proof (Z.log2_le_mono n d Hd) as M.
  set (a := Z.log2 n) in *. set (b := Z.log2 d) in *.
  assert (F : d <= n * 2 ^ (1 - (a - b))).
  { replace (Z.succ b) with (a + (1 - (a - b))) in Bd by lia.
    rewrite Z.pow_add_r in Bd by lia.
    assert (0 < 2 ^ (1 - (a - b))) by (apply Z.pow_pos_nonneg; lia).
    nia. }
  destruct (Z.leb_spec 0 (a - b)) as [K | K].
  - assert (E : a - b = 0) by lia. rewrite E in *.
    destruct (Z.leb_spec (d * 2 ^ 0) n) as [T | T].
    + split; [lia|]. cbn in *. lia.
    + split; [lia|]. replace (- (0 - 1)) with (1 - 0) by lia. exact F.
  - destruct (Z.leb_spec d (n * 2 ^ (- (a - b)))) as [T | T].
    + split; [lia|exact T].
    + split; [lia|]. replace (- (a - b - 1)) with (1 - (a - b)) by lia.
      exact F.
Qed.

(** The double nearest to a quotient that is at most 1, as a fraction: its
    numerator has 53 bits and does not exceed the denominator, a power of
    two; it is within half a unit of the scaled quotient. *)
Lemma nearest_below n d :
  0 < n <= d ->
  exists mantissa scale,
    nearest n d = Qmake mantissa (Z.to_pos scale)
    /\ 0 < scale /\ 2 ^ 52 <= mantissa <= scale
    /\ d * 2 ^ 52 <= n * scale
    /\ - d <= 2 * (mantissa * d - n * scale) <= d.
Proof.
  intros H. destruct (floorLog2_below n d H) as [L S].
  unfold nearest. cbv zeta.
  set (l := floorLog2 n d) in *.
  destruct (Z.leb_spec 0 (l - 52)); [lia|].
  set (scale := 2 ^ (- (l - 52))).
  assert (E : scale = 2 ^ 52 * 2 ^ (- l)).
  { unfold scale. replace (- (l - 52)) with (52 + - l) by lia.
    apply Z.pow_add_r; lia. }
  assert (P : 0 < 2 ^ (- l)) by (apply Z.pow_pos_nonneg; lia).
  assert (B : d * 2 ^ 52 <= n * scale) by (rewrite E; nia).
  exists (roundHalfEven (n * scale) d), scale.
  split; [reflexivity|]. split; [rewrite E; lia|]. split; [split|split].
  - apply roundHalfEven_ge; lia.
  - apply roundHalfEven_le; [lia|]. nia.
  - exact B.
  - apply roundHalfEven_near. lia.
Qed.




Lemma divide_fraction c m :
  0 < c <= m ->
  exists mantissa scale,
    divide c m = Qmake mantissa (Z.to_pos scale)
    /\ 0 < scale /\ 2 ^ 52 <= mantissa <= scale
    /\ m * 2 ^ 52 <= c * scale
    /\ - m <= 2 * (mantissa * m - c * scale) <= m.
Proof.
  intros H. destruct c as [|p|p]; try lia. now apply nearest_below.
Qed.



Lemma divide_self m : 0 < m -> (divide m m == 1)%Q.
Proof.
  intros Hm.
  destruct (divide_fraction m m) as (M & S & -> & Sp & [M1 M2] & B & R);
    [lia|].
  unfold Qeq. cbn [Qnum Qden]. rewrite Z2Pos.id by exact Sp. nia.
Qed.



(* ---------------------------------------------------------------- *)
(** ** Heat-map layer *)








Lemma Forall2_filter {A B} (R : A -> B -> Prop) p q l1 l2 :
  (forall a b, R a b -> p a = q b) ->
  Forall2 R l1 l2 -> Forall2 R (filter p l1) (filter q l2).
Proof.
  intros H. induction 1 as [|a b l1 l2 Hab _ IH]; cbn; [constructor|].
  rewrite (H a b Hab). destruct (q b); [constructor|]; assumption.
Qed.





(** The example of the spec, evaluated: A and B are painted with alpha 1
    and 1/2, C is not painted. *)
Example heatmap_example :
  map (fun f => (fill_x f, fill_y f, Qred (fill_alpha f)))
      (painted (drawHeatmap (Some Sample.cells) 32))
  = [(0, 0, 1%Q); (32, 0, (1 # 2)%Q)].
Proof. vm_compute. reflexivity. Qed.

(** A ratio no double holds: with counts 3 and 1 the second cell is
    painted with the double nearest to one third,
    0.333333333333333314829616256247... *)
Example heatmap_one_third :
  map (fun f => Qred (fill_alpha f))
      (drawHeatmap (Some [("0:0", 3); ("1:0", 1)]) 32)
  = [1%Q; (6004799503160661 # 18014398509481984)%Q].
Proof. vm_compute. reflexivity. Qed.

(* ---------------------------------------------------------------- *)
(** ** Event timeline *)

Lemma mergeTimeline_lastn previous events :
  mergeTimeline previous events = lastn 200 (previous ++ events).
Proof.
  unfold mergeTimeline, TIMELINE_LIMIT, slice_from, lastn, len. cbv zeta.
  set (merged := previous ++ events).
  destruct (Z.gtb_spec (Z.of_nat (List.length merged)) 200) as [G | G].
  - destruct (Z.ltb_spec (Z.of_nat (List.length merged) - 200) 0); [lia|].
    f_equal. lia.
  - replace (List.length merged - 200)%nat with 0%nat by lia. reflexivity.
Qed.

Lemma lastn_lastn {A} (n m : nat) (a : list A) :
  (n <= m)%nat -> lastn n (lastn m a) = lastn n a.
Proof.
  intros H. unfold lastn. rewrite length_skipn, skipn_skipn. f_equal. lia.
Qed.

(** The timeline is touched by ticks that carry events and by run
    selection only. *)
Lemma step_timeline d e :
  timeline (fst (step d e))
  = match e with
    | TickReceived tick =>
        if negb (len (recent_events tick) =? 0)
        then mergeTimeline (timeline d) (recent_events tick)
        else timeline d
    | RunDetailLoaded _ _ _ seed => slice_from seed (- TIMELINE_LIMIT)
    | _ => timeline d
    end.
Proof.
  rewrite step_fst. cbv zeta.
  assert (F : forall d2, timeline (if activeRunReplaced d e
                                   then activeRunEffect d2 else d2)
                         = timeline d2).
  { intros d2. destruct (activeRunReplaced d e); [|reflexivity].
    unfold activeRunEffect. destruct (activeRun d2); reflexivity. }
  rewrite F, modeEffect_set.
  assert (G : forall d1 (c : bool) v,
             timeline (if c then d1 else set_cursor v (set_modeRef (mode d1) d1))
             = timeline d1).
  { intros d1 c v. destruct c; reflexivity. }
  rewrite G. clear F G.
  destruct e; handler_form; try reflexivity.
  - destruct (has_run d); reflexivity.
  - destruct (seekEnabled d i); reflexivity.
  - destruct (has_run d); reflexivity.
  - destruct (reconnectTimerRef d); [rewrite connect_fst|]; reflexivity.
Qed.

Lemma step_tick_timeline d tick :
  len (timeline d) <= TIMELINE_LIMIT ->
  timeline (fst (step d (TickReceived tick)))
  = lastn 200 (timeline d ++ recent_events tick).
Proof.
  intros B. rewrite step_timeline.
  destruct (len (recent_events tick) =? 0) eqn:E; cbn [negb].
  - apply Z.eqb_eq, len_zero_nil in E. rewrite E, app_nil_r, lastn_short.
    + reflexivity.
    + unfold len, TIMELINE_LIMIT in B. lia.
  - apply mergeTimeline_lastn.
Qed.

Lemma timeline_bounded_reachable d :
  reachable d -> len (timeline d) <= TIMELINE_LIMIT.
Proof.
  revert d. apply reachable_ind.
  - unfold len, TIMELINE_LIMIT. cbn. lia.
  - intros d e IH. destruct e; try (rewrite step_timeline; exact IH).
    + rewrite step_timeline.
      change (- TIMELINE_LIMIT) with (- Z.of_nat 200).
      rewrite slice_from_last by lia.
      unfold len, TIMELINE_LIMIT. rewrite lastn_length. lia.
    + rewrite step_tick_timeline by exact IH.
      unfold len, TIMELINE_LIMIT. rewrite lastn_length. lia.
Qed.

(** X1.  The event timeline never holds more than [TIMELINE_LIMIT] = 200
    events, and after any number of ticks it is the last 200 of what it
    held followed by the events the ticks carried, in arrival order. *)
Theorem timeline_keeps_last_events (d : View) (ticks : list RunTick) :
  reachable d ->
  let d' := after d (map TickReceived ticks) in
  len (timeline d) <= TIMELINE_LIMIT
  /\ len (timeline d') <= TIMELINE_LIMIT
  /\ timeline d' = lastn 200 (timeline d ++ eventsOf ticks).
Proof.
  intros R d'. split; [now apply timeline_bounded_reachable|].
  split; [now apply timeline_bounded_reachable, reachable_after|].
  subst d'. revert d R.
  induction ticks as [|t ticks IH]; intros d R.
  - cbn [map eventsOf flat_map]. rewrite app_nil_r, lastn_short.
    + reflexivity.
    + pose proof (timeline_bounded_reachable d R) as B.
      unfold len, TIMELINE_LIMIT in B. lia.
  - cbn [map]. rewrite after_cons, IH by now apply reachable_step.
    rewrite step_tick_timeline by now apply timeline_bounded_reachable.
    unfold eventsOf. cbn [flat_map].
    rewrite lastn_app_lastn, <- app_assoc. reflexivity.
Qed.

Lemma timeline_keeps_last_events_witness :
  len (timeline Sample.streaming) <= TIMELINE_LIMIT
  /\ timeline (after Sample.streaming
                     (map TickReceived (Sample.eventful 1 70)))
     = lastn 200 (eventsOf (Sample.eventful 1 70))
  /\ len (eventsOf (Sample.eventful 1 70)) = 210.
Proof.
  pose proof (timeline_keeps_last_events
                Sample.streaming (Sample.eventful 1 70)) as H.
  cbv zeta in H.
  destruct H as (A & _ & C); [exact reachable_streaming|].
  split; [exact A|]. split; [|vm_compute; reflexivity].
  rewrite C. vm_compute. reflexivity.
Defined.

(** X2.  After a tick the timeline panel shows the last 40 of the events
    held before the tick followed by the tick's events, newest first: at
    most 40 entries, and the tick's last event, if it carries any, on
    top. *)
Theorem recent_timeline_newest_first (d : View) (tick : RunTick) :
  let d' := fst (step d (TickReceived tick)) in
  recentTimeline d' = rev (lastn 40 (timeline d ++ recent_events tick))
  /\ len (recentTimeline d') <= 40
  /\ (forall earlier ev, recent_events tick = earlier ++ [ev] ->
                         hd_error (recentTimeline d') = Some ev).
Proof.
  cbv zeta.
  assert (E : recentTimeline (fst (step d (TickReceived tick)))
              = rev (lastn 40 (timeline d ++ recent_events tick))).
  { unfold recentTimeline. change (-40) with (- Z.of_nat 40).
    rewrite slice_from_last by lia.
    rewrite step_timeline.
    destruct (len (recent_events tick) =? 0) eqn:Z; cbn [negb].
    - apply Z.eqb_eq, len_zero_nil in Z. now rewrite Z, app_nil_r.
    - rewrite mergeTimeline_lastn, lastn_lastn by lia. reflexivity. }
  rewrite E. split; [reflexivity|]. split.
  - unfold len. rewrite length_rev, lastn_length. lia.
  - intros earlier ev ->. rewrite app_assoc.
    unfold lastn. rewrite length_app. cbn [List.length].
    set (l := timeline d ++ earlier).
    replace (List.length l + 1 - 40)%nat
      with (Nat.min (List.length l + 1 - 40) (List.length l)) by lia.
    rewrite skipn_app.
    replace (Nat.min (List.length l + 1 - 40) (List.length l)
             - List.length l)%nat with 0%nat by lia.
    cbn [skipn]. rewrite rev_app_distr. reflexivity.
Qed.

Lemma recent_timeline_newest_first_witness :
  hd_error (recentTimeline
              (fst (step Sample.streaming
                         (TickReceived (Sample.eventfulTick 7)))))
  = Some (Sample.note 7 "c").
Proof.
  apply (proj2 (proj2 (recent_timeline_newest_first
                         Sample.streaming (Sample.eventfulTick 7)))
               [Sample.note 7 "a"; Sample.note 7 "b"]).
  reflexivity.
Defined.

(* ---------------------------------------------------------------- *)
(** ** The cursor and the playback widget *)

Lemma cursor_upper_step d e :
  cursor d <= maxIndex (len (tickHistory d)) ->
  cursor (fst (step d e))
  <= maxIndex (len (tickHistory (fst (step d e)))).
Proof.
  unfold maxIndex. intros U.
  pose proof (handle_replayCells d e) as H.
  assert (E : exists h m c r,
             replayCells (fst (handle d e)) = (h, m, c, r)
             /\ c <= Z.max (len h - 1) 0).
  { destruct e; cbv zeta in H; rewrite H; unfold replayCells;
      do 4 eexists; (split; [reflexivity|]); try exact U.
    - destruct (seedTick_len detail) as [-> | ->]; cbn; lia.
    - unfold seekEnabled.
      destruct (has_run d && mode_eqb (mode d) replay
                && negb (len (tickHistory d) <=? 1) && (0 <=? i));
        cbn [andb]; [|exact U].
      destruct (Z.leb_spec i (Z.max (len (tickHistory d) - 1) 0));
        [assumption|exact U].
    - rewrite appendTick_len.
      destruct (mode_eqb (modeRef d) live);
        destruct (_ >? _); lia. }
  destruct E as (h & m & c & r & E & B).
  pose proof (step_cells d e h m c r E) as S.
  destruct (cells_proj _ _ _ _ _ E) as (_ & _ & _ & _).
  destruct (mode_eqb (mode d) m && (len (tickHistory d) =? len h)).
  - destruct (cells_proj _ _ _ _ _ S) as (-> & _ & -> & _). exact B.
  - destruct (cells_proj _ _ _ _ _ S) as (-> & _ & -> & _).
    destruct (mode_eqb m live && negb (len h =? 0)); lia.
Qed.

Lemma cursor_inv_reachable d : reachable d -> cursor_inv d.
Proof.
  intros R. split; [apply (replay_inv_reachable d R)|].
  revert d R. apply reachable_ind.
  - cbn. unfold maxIndex, len. cbn. lia.
  - intros d e. apply cursor_upper_step.
Qed.

(** X3.  In every state the dashboard can be in the cursor lies between
    0 and [maxIndex], so the slider of the playback widget shows the cursor
    itself ([Math.min] never cuts it).  While ticks are buffered the
    cursor addresses one of them, that tick is the one on screen in both
    modes, and the position label reads [cursor + 1] of [length] with
    [1 <= cursor + 1 <= length]; while none is buffered the cursor is 0 and
    the label reads 0 of 0. *)
Theorem cursor_addresses_a_tick (d : View) :
  reachable d ->
  let n := len (tickHistory d) in
  0 <= cursor d <= maxIndex n
  /\ sliderValue (cursor d) n = cursor d
  /\ (tickHistory d <> [] ->
      (exists t, index (tickHistory d) (cursor d) = Some t
                 /\ activeTick d = Some t)
      /\ playbackIndex (cursor d) n = (cursor d + 1, n)
      /\ 1 <= cursor d + 1 <= n)
  /\ (tickHistory d = [] ->
      cursor d = 0 /\ activeTick d = None /\ playbackIndex (cursor d) n = (0, 0)).
Proof.
  intros R n. pose proof (cursor_inv_reachable d R) as [L U].
  pose proof (replay_inv_reachable d R) as (_ & _ & Hl).
  pose proof (len_nonneg (tickHistory d)) as P.
  subst n. unfold maxIndex in *.
  split; [auto|]. split; [unfold sliderValue, maxIndex; lia|]. split.
  - intros N.
    assert (N' : len (tickHistory d) <> 0) by (rewrite len_zero_nil; exact N).
    destruct (index_inside (tickHistory d) (cursor d)) as [t T]; [lia|].
    split; [|split; [|lia]].
    + exists t. split; [exact T|]. unfold activeTick. cbv zeta.
      destruct (Z.eqb_spec (len (tickHistory d)) 0); [lia|].
      destruct (mode d) eqn:M.
      * rewrite <- (Hl eq_refl N'). exact T.
      * rewrite T. reflexivity.
    + unfold playbackIndex.
      destruct (Z.eqb_spec (len (tickHistory d)) 0); [lia|reflexivity].
  - intros E. rewrite E in *. unfold len in U. cbn in U.
    split; [lia|]. split; [now apply activeTick_empty|reflexivity].
Qed.

Lemma cursor_addresses_a_tick_witness :
  sliderValue (cursor Sample.scrubbing) (len (tickHistory Sample.scrubbing))
  = cursor Sample.scrubbing
  /\ playbackIndex (cursor Sample.scrubbing)
                   (len (tickHistory Sample.scrubbing)) = (11, 50)
  /\ activeTick Sample.scrubbing
     = index (tickHistory Sample.scrubbing) (cursor Sample.scrubbing).
Proof.
  pose proof (cursor_addresses_a_tick Sample.scrubbing reachable_scrubbing)
    as H.
  cbv zeta in H. destruct H as (_ & S & N & _).
  split; [exact S|].
  assert (Q : tickHistory Sample.scrubbing <> [])
    by (vm_compute; discriminate).
  destruct (N Q) as ((t & T & A) & P & _).
  split.
  - rewrite P. vm_compute. reflexivity.
  - rewrite A, T. reflexivity.
Defined.

Lemma appendTick_snoc previous tick :
  exists earlier, appendTick previous tick = earlier ++ [tick].
Proof.
  unfold appendTick, shift. cbv zeta. destruct (_ >? _) eqn:G.
  - destruct previous as [|p previous].
    + unfold len, TICK_HISTORY_LIMIT in G. cbn in G. discriminate.
    + exists previous. reflexivity.
  - now exists previous.
Qed.

Lemma index_last {A} (a : list A) (x : A) :
  index (a ++ [x]) (len (a ++ [x]) - 1) = Some x.
Proof.
  unfold index, len. rewrite length_app. cbn [List.length].
  destruct (Z.ltb_spec (Z.of_nat (List.length a + 1) - 1) 0); [lia|].
  replace (Z.to_nat (Z.of_nat (List.length a + 1) - 1))
    with (List.length a) by lia.
  rewrite nth_error_app2 by lia. now rewrite Nat.sub_diag.
Qed.

Lemma step_tick_mode d tick :
  mode (fst (step d (TickReceived tick))) = mode d
  /\ tickHistory (fst (step d (TickReceived tick)))
     = appendTick (tickHistory d) tick.
Proof.
  pose proof (step_cells d _ _ _ _ _
                (handle_replayCells d (TickReceived tick))) as S.
  cbv zeta in S.
  destruct (_ && _); apply cells_proj in S; tauto.
Qed.

(** X4.  In live mode the tick just received is the one on screen, whatever
    was buffered and wherever the cursor was: the snapshot, the metrics and
    the heat map shown after the step are the tick's. *)
Theorem live_mode_shows_newest_tick (d : View) (tick : RunTick) :
  mode d = live ->
  let d' := fst (step d (TickReceived tick)) in
  activeTick d' = Some tick
  /\ currentState d' = Some (tick_state tick)
  /\ currentMetrics d' = Some (tick_metrics tick)
  /\ currentHeatmap d' = tick_heatmap tick.
Proof.
  intros M d'.
  assert (A : activeTick d' = Some tick).
  { destruct (step_tick_mode d tick) as [Hm Hh]. fold d' in Hm, Hh.
    unfold activeTick. cbv zeta. rewrite Hm, M, Hh.
    destruct (appendTick_snoc (tickHistory d) tick) as [earlier ->].
    rewrite index_last.
    destruct (Z.eqb_spec (len (earlier ++ [tick])) 0) as [Z|]; [|reflexivity].
    unfold len in Z. rewrite length_app in Z. cbn in Z. lia. }
  unfold currentState, currentMetrics, currentHeatmap. rewrite A.
  repeat split.
Qed.

Lemma live_mode_shows_newest_tick_witness :
  activeTick (fst (step Sample.streaming (TickReceived (Sample.tick 1))))
  = Some (Sample.tick 1).
Proof.
  apply (live_mode_shows_newest_tick Sample.streaming (Sample.tick 1)).
  vm_compute. reflexivity.
Defined.

Lemma index_tl {A} (a : list A) i :
  0 <= i -> index (tl a) i = index a (i + 1).
Proof.
  intros H. unfold index.
  destruct (Z.ltb_spec i 0); [lia|].
  destruct (Z.ltb_spec (i + 1) 0); [lia|].
  replace (Z.to_nat (i + 1)) with (S (Z.to_nat i)) by lia.
  destruct a; [now destruct (Z.to_nat i)|reflexivity].
Qed.

(** X5.  At capacity the frame shown in replay mode does not stay: with
    900 ticks buffered a further tick leaves the cursor where it is and
    evicts the oldest tick, so the tick on screen becomes the one that was
    one position later, and the new tick itself when the cursor is on the
    last position. *)
Theorem replay_frame_drifts_at_capacity (d : View) (tick : RunTick) :
  reachable d -> mode d = replay ->
  len (tickHistory d) = TICK_HISTORY_LIMIT ->
  let d' := fst (step d (TickReceived tick)) in
  cursor d' = cursor d
  /\ activeTick d = index (tickHistory d) (cursor d)
  /\ activeTick d' = index (tickHistory d ++ [tick]) (cursor d + 1)
  /\ (cursor d + 1 < TICK_HISTORY_LIMIT ->
      activeTick d' = index (tickHistory d) (cursor d + 1))
  /\ (cursor d + 1 = TICK_HISTORY_LIMIT -> activeTick d' = Some tick).
Proof.
  intros R M F d'.
  pose proof (cursor_inv_reachable d R) as [L U].
  pose proof (replay_inv_reachable d R) as (Hr & _ & _).
  unfold maxIndex in U. rewrite F in U. unfold TICK_HISTORY_LIMIT in *.
  pose proof (step_tick_cells d tick Hr) as S. cbv zeta in S.
  apply cells_proj in S. fold d' in S. destruct S as (Sh & Sm & Sc & _).
  rewrite M in Sm, Sc.
  assert (A' : activeTick d' = index (tickHistory d ++ [tick]) (cursor d + 1)).
  { unfold activeTick. cbv zeta. rewrite Sm, Sc, Sh.
    rewrite appendTick_evicts_head by exact F.
    assert (T : tl (tickHistory d) ++ [tick] = tl (tickHistory d ++ [tick])).
    { destruct (tickHistory d); [discriminate|reflexivity]. }
    rewrite T, index_tl by lia.
    assert (N : len (tl (tickHistory d ++ [tick])) = 900).
    { rewrite <- T. unfold len in *. rewrite length_app. cbn [List.length].
      destruct (tickHistory d); cbn [tl List.length] in *; lia. }
    rewrite N. cbn [Z.eqb].
    destruct (index_inside (tickHistory d ++ [tick]) (cursor d + 1))
      as [t ->]; [|reflexivity].
    unfold len in *. rewrite length_app. cbn [List.length]. lia. }
  split; [exact Sc|]. split; [|split; [exact A'|split]].
  - unfold activeTick. cbv zeta. rewrite M, F. cbn [Z.eqb].
    destruct (index_inside (tickHistory d) (cursor d)) as [t ->];
      [lia|reflexivity].
  - intros C. rewrite A'. apply index_app_left. lia.
  - intros C. rewrite A'.
    replace (cursor d + 1) with (len (tickHistory d ++ [tick]) - 1).
    + apply index_last.
    + unfold len in *. rewrite length_app. cbn [List.length]. lia.
Qed.

Lemma replay_frame_drifts_at_capacity_witness :
  let d := after Sample.scrubbing (map TickReceived (Sample.ticks 50 850)) in
  len (tickHistory d) = 900 /\ cursor d = 10
  /\ activeTick d = Some (Sample.tick 10)
  /\ activeTick (fst (step d (TickReceived (Sample.tick 900))))
     = Some (Sample.tick 11).
Proof.
  cbv zeta.
  set (d := after Sample.scrubbing (map TickReceived (Sample.ticks 50 850))).
  assert (R : reachable d) by apply reachable_after, reachable_scrubbing.
  assert (M : mode d = replay) by (vm_compute; reflexivity).
  assert (F : len (tickHistory d) = TICK_HISTORY_LIMIT)
    by (vm_compute; reflexivity).
  pose proof (replay_frame_drifts_at_capacity d (Sample.tick 900) R M F) as H.
  cbv zeta in H. destruct H as (_ & A & _ & B & _).
  split; [exact F|]. split; [vm_compute; reflexivity|].
  split.
  - rewrite A. vm_compute. reflexivity.
  - rewrite B; vm_compute; reflexivity.
Defined.

Lemma step_idle d e :
  handle d e = (d, []) -> activeRunReplaced d e = false ->
  (forall l, e <> ScenariosLoaded l) -> (forall l, e <> RunsLoaded l) ->
  (forall s, e <> ScenarioCreated s) -> (forall t, e <> TickReceived t) ->
  step d e = (d, []).
Proof.
  intros H R N1 N2 N3 N4. unfold step. rewrite H.
  rewrite (modeEffect_same d d) by reflexivity. rewrite R.
  unfold autoSelectDue. rewrite !id_eqb_refl.
  destruct e; try reflexivity;
    [now elim (N1 list)|now elim (N2 list)|now elim (N3 created)
     |now elim (N4 tick)].
Qed.

(** X23.  Moving the slider of an enabled playback widget to position [i]
    puts tick [i] of the history on screen and changes neither the mode
    nor the history; a position the widget cannot deliver (slider disabled,
    or [i] outside [0 .. maxIndex]) changes nothing and requests
    nothing. *)
Theorem seek_shows_requested_tick (d : View) (i : Z) :
  (seekEnabled d i = true ->
   let d' := fst (step d (SeekRequested i)) in
   cursor d' = i /\ mode d' = replay /\ tickHistory d' = tickHistory d
   /\ (exists t, index (tickHistory d) i = Some t /\ activeTick d' = Some t)
   /\ sliderValue (cursor d') (len (tickHistory d')) = i)
  /\ (seekEnabled d i = false -> step d (SeekRequested i) = (d, [])).
Proof.
  split.
  - intros E d'.
    pose proof (step_cells d _ _ _ _ _
                  (handle_replayCells d (SeekRequested i))) as S.
    rewrite E in S. fold d' in S.
    unfold seekEnabled in E.
    apply andb_prop in E as [E E5]. apply andb_prop in E as [E E4].
    apply andb_prop in E as [E E3]. apply andb_prop in E as [_ E2].
    apply mode_eqb_eq in E2. apply Z.leb_le in E4, E5.
    apply negb_true_iff, Z.leb_gt in E3.
    rewrite E2 in S. cbn [mode_eqb andb] in S.
    rewrite Z.eqb_refl in S. apply cells_proj in S as (Sh & Sm & Sc & _).
    destruct (index_inside (tickHistory d) i) as [t T]; [lia|].
    split; [exact Sc|]. split; [exact Sm|]. split; [exact Sh|]. split.
    + exists t. split; [exact T|]. unfold activeTick. cbv zeta.
      rewrite Sh, Sm, Sc, T.
      destruct (Z.eqb_spec (len (tickHistory d)) 0); [lia|reflexivity].
    + rewrite Sc, Sh. unfold sliderValue, maxIndex. lia.
  - intros E. apply step_idle; try discriminate; [|reflexivity].
    cbn [handle]. now rewrite E.
Qed.

Lemma seek_shows_requested_tick_witness :
  activeTick (fst (step Sample.scrubbing (SeekRequested 30)))
  = index (tickHistory Sample.scrubbing) 30
  /\ step Sample.scrubbing (SeekRequested 50) = (Sample.scrubbing, []).
Proof.
  destruct (seek_shows_requested_tick Sample.scrubbing 30) as [A _].
  destruct (seek_shows_requested_tick Sample.scrubbing 50) as [_ B].
  split.
  - destruct A as (_ & _ & _ & (t & T & A) & _); [vm_compute; reflexivity|].
    now rewrite A, T.
  - apply B. vm_compute. reflexivity.
Defined.

(* ---------------------------------------------------------------- *)
(** ** Run rows, requests and the socket ref *)

Lemma step_runs d e :
  runs (fst (step d e))
  = match e with
    | RunsLoaded list => list
    | TickReceived tick =>
        if truthy (activeRunIdRef d)
        then map (fun run => if id_eqb (Some (run_id run)) (activeRunIdRef d)
                             then patchRun tick run else run)
                 (runs d)
        else runs d
    | _ => runs d
    end.
Proof.
  rewrite step_fst. cbv zeta.
  assert (F : forall d2, runs (if activeRunReplaced d e
                               then activeRunEffect d2 else d2)
                         = runs d2).
  { intros d2. destruct (activeRunReplaced d e); [|reflexivity].
    unfold activeRunEffect. destruct (activeRun d2); reflexivity. }
  rewrite F, modeEffect_set.
  assert (G : forall d1 (c : bool) v,
             runs (if c then d1 else set_cursor v (set_modeRef (mode d1) d1))
             = runs d1).
  { intros d1 c v. destruct c; reflexivity. }
  rewrite G. clear F G.
  destruct e; handler_form; try reflexivity.
  - destruct (has_run d); reflexivity.
  - destruct (seekEnabled d i); reflexivity.
  - destruct (has_run d); reflexivity.
  - destruct (reconnectTimerRef d); [rewrite connect_fst|]; reflexivity.
Qed.

(** X6.  After a tick the run list has the same rows in the same order;
    the rows of the active run carry the tick's stage, metrics and heat
    map, as the active run itself does, and every other row is untouched.
    (An active run whose id is the empty string is not found in the list:
    [if (runId)] is false for it.) *)
Theorem tick_updates_run_row (d : View) (r : ScenarioRunDetail)
        (tick : RunTick) :
  reachable d -> activeRun d = Some r -> run_id (base r) <> "" ->
  let d' := fst (step d (TickReceived tick)) in
  map run_id (runs d') = map run_id (runs d)
  /\ (forall row, In row (runs d') -> run_id row = run_id (base r) ->
        stage row = tick_stage tick /\ metrics row = tick_metrics tick
        /\ heatmap row = tick_heatmap tick)
  /\ (forall i row, nth_error (runs d) i = Some row ->
        run_id row <> run_id (base r) -> nth_error (runs d') i = Some row)
  /\ (exists r', activeRun d' = Some r'
                 /\ run_id (base r') = run_id (base r)
                 /\ stage (base r') = tick_stage tick
                 /\ metrics (base r') = tick_metrics tick
                 /\ heatmap (base r') = tick_heatmap tick
                 /\ state r' = Some (tick_state tick)).
Proof.
  intros R A N d'.
  pose proof (conn_inv_reachable d R) as [I _].
  unfold activeRunId in I. rewrite A in I. cbn [option_map] in I.
  assert (T : truthy (activeRunIdRef d) = true).
  { rewrite I. cbn. destruct (run_id (base r)); [contradiction|reflexivity]. }
  assert (E : runs d'
              = map (fun run => if String.eqb (run_id run) (run_id (base r))
                                then patchRun tick run else run) (runs d)).
  { unfold d'. rewrite step_runs, T, I. reflexivity. }
  rewrite E. split; [|split; [|split]].
  - rewrite map_map. apply map_ext. intros run.
    destruct (String.eqb _ _); reflexivity.
  - intros row [run [<- _]]%in_map_iff Q.
    destruct (String.eqb_spec (run_id run) (run_id (base r))); [now cbn|].
    contradiction.
  - intros i row H Q. rewrite nth_error_map, H. cbn [option_map].
    destruct (String.eqb_spec (run_id row) (run_id (base r)));
      [contradiction|reflexivity].
  - unfold d'. rewrite step_activeRun, handle_activeRun, A. cbn [option_map].
    eexists. split; [reflexivity|]. cbn. auto.
Qed.

Lemma tick_updates_run_row_witness :
  let d := fst (step Sample.browsing
                     (RunDetailLoaded "run-old" [Sample.warehouseA]
                        (Sample.detailOf Sample.oldRun (Some Sample.world))
                        [])) in
  let d' := fst (step d (TickReceived (Sample.tick 3))) in
  map run_id (runs d') = ["run-old"; "run-new"]
  /\ nth_error (runs d') 1 = Some Sample.newRun
  /\ option_map stage (nth_error (runs d') 0) = Some RUNNING.
Proof.
  cbv zeta.
  set (d := fst (step Sample.browsing _)).
  assert (R : reachable d).
  { apply reachable_step. exists
      [ScenariosLoaded [Sample.warehouseA];
       RunsLoaded [Sample.oldRun; Sample.newRun];
       RunDetailLoaded "run-new" [Sample.warehouseA]
                       (Sample.detailOf Sample.newRun (Some Sample.world)) []].
    reflexivity. }
  assert (A : activeRun d
              = Some (Sample.detailOf Sample.oldRun (Some Sample.world)))
    by (vm_compute; reflexivity).
  assert (N : run_id (base (Sample.detailOf Sample.oldRun
                                            (Some Sample.world))) <> "")
    by (vm_compute; discriminate).
  pose proof (tick_updates_run_row d _ (Sample.tick 3) R A N) as H.
  cbv zeta in H. destruct H as (H1 & _ & H3 & _).
  split; [rewrite H1; vm_compute; reflexivity|].
  split; [apply H3; vm_compute; [reflexivity|discriminate]|].
  vm_compute. reflexivity.
Defined.

(** *** What a step requests *)

Lemma step_snd d e :
  snd (step d e)
  = snd (handle d e)
    ++ (if autoSelectDue d (fst (step d e)) e
        then autoSelectEffect (fst (step d e)) else []).
Proof. unfold step. destruct (handle d e). reflexivity. Qed.

Lemma closeSocket_snd d :
  snd (closeSocket d)
  = match socketRef d with Some s => [CloseSocket s] | None => [] end.
Proof.
  unfold closeSocket. rewrite clearReconnectTimer_set. cbn.
  destruct (socketRef d); reflexivity.
Qed.

Lemma connect_snd d runId attempt :
  snd (connect d runId attempt)
  = match socketRef d with Some s => [CloseSocket s] | None => [] end
    ++ [OpenSocket runId attempt].
Proof.
  unfold connect. rewrite clearReconnectTimer_set.
  pose proof (closeSocket_snd
                (set_activeRunIdRef (Some runId)
                                    (set_reconnectTimerRef None d))) as C.
  destruct (closeSocket _) as [d1 out]. cbn [snd] in *. rewrite C.
  reflexivity.
Qed.

Lemma handleRunSelect_snd d runId captured detail timelineSeed :
  snd (handleRunSelect d runId captured detail timelineSeed)
  = match socketRef d with Some s => [CloseSocket s] | None => [] end
    ++ (if is_live_stage (stage (base detail))
        then [OpenSocket runId 0] else []).
Proof.
  unfold handleRunSelect, attachRunStream. cbv zeta.
  destruct (is_live_stage (stage (base detail))).
  - rewrite connect_snd. reflexivity.
  - rewrite closeSocket_snd, app_nil_r. reflexivity.
Qed.

(** The effects leave the socket ref alone. *)
Lemma step_socketRef d e :
  socketRef (fst (step d e)) = socketRef (fst (handle d e)).
Proof.
  rewrite step_fst. cbv zeta.
  assert (F : forall d2, socketRef (if activeRunReplaced d e
                                    then activeRunEffect d2 else d2)
                         = socketRef d2).
  { intros d2. destruct (activeRunReplaced d e); [|reflexivity].
    unfold activeRunEffect. destruct (activeRun d2); reflexivity. }
  rewrite F, modeEffect_set. destruct (_ && _); reflexivity.
Qed.

Lemma autoSelectEffect_requests d c :
  In c (autoSelectEffect d) -> exists runId, c = FetchRunDetail runId.
Proof.
  unfold autoSelectEffect. destruct (autoSelect d) as [runId|]; [|intros []].
  intros [<- | []]. now exists runId.
Qed.

Lemma in_effect_socket d (b : bool) c :
  (forall runId, c <> FetchRunDetail runId) ->
  ~ In c (if b then autoSelectEffect d else []).
Proof.
  intros N H. destruct b; [|exact H].
  apply autoSelectEffect_requests in H as [runId ->]. now apply (N runId).
Qed.

(** X7.  When the detail of a selected run arrives, the socket the ref
    holds is closed, whichever run it streams, and nothing else is closed;
    a socket is opened exactly when the run is RUNNING or WARMING_UP, for
    the run id that was asked for, as attempt 0; afterwards the ref holds
    that socket, or nothing when the run is not live. *)
Theorem run_selection_swaps_socket (d : View) (runId : string)
        (captured : list ScenarioSummary) (detail : ScenarioRunDetail)
        (seed : list TimelineEventDetail) :
  let d' := fst (step d (RunDetailLoaded runId captured detail seed)) in
  let out := snd (step d (RunDetailLoaded runId captured detail seed)) in
  let isLive := is_live_stage (stage (base detail)) in
  (forall s, In (CloseSocket s) out <-> socketRef d = Some s)
  /\ (forall r n, In (OpenSocket r n) out
                  <-> isLive = true /\ r = runId /\ n = 0%nat)
  /\ socketRef d'
     = (if isLive then Some {| sock_run := runId; sock_attempt := 0 |}
        else None).
Proof.
  cbv zeta. rewrite step_snd, step_socketRef. cbn [handle].
  rewrite handleRunSelect_snd, handleRunSelect_fst. cbv zeta.
  split; [|split; [|reflexivity]].
  - intros s. rewrite !in_app_iff. split.
    + intros [[H | H] | H].
      * destruct (socketRef d); [|contradiction].
        destruct H as [[= ->] | []]. reflexivity.
      * destruct (is_live_stage _); [|contradiction].
        destruct H as [H | []]. discriminate.
      * now apply in_effect_socket in H.
    + intros ->. left. left. now left.
  - intros r n. rewrite !in_app_iff. split.
    + intros [[H | H] | H].
      * destruct (socketRef d); [|contradiction].
        destruct H as [H | []]. discriminate.
      * destruct (is_live_stage _); [|contradiction].
        destruct H as [[= -> ->] | []]. auto.
      * now apply in_effect_socket in H.
    + intros (-> & -> & ->). left. right. now left.
Qed.

(** X8.  A tick asks for the run list exactly when its stage is COMPLETED,
    FAILED or CANCELLED.  It never opens or closes a socket, not even on
    such a stage: the ref keeps the socket it held. *)
Theorem tick_requests (d : View) (tick : RunTick) :
  let d' := fst (step d (TickReceived tick)) in
  let out := snd (step d (TickReceived tick)) in
  (In FetchRuns out <-> is_terminal_stage (tick_stage tick) = true)
  /\ (forall s, ~ In (CloseSocket s) out)
  /\ (forall r n, ~ In (OpenSocket r n) out)
  /\ ~ In FetchScenarios out
  /\ socketRef d' = socketRef d.
Proof.
  assert (S : snd (handleTick d tick)
              = if is_terminal_stage (tick_stage tick) then [FetchRuns]
                else []) by reflexivity.
  cbv zeta. rewrite step_snd, step_socketRef. cbn [handle].
  rewrite S, handleTick_fst. cbv zeta. clear S.
  split; [|split; [|split; [|split; [|reflexivity]]]].
  - rewrite in_app_iff. split.
    + intros [H | H].
      * destruct (is_terminal_stage _); [reflexivity|contradiction].
      * now apply in_effect_socket in H.
    + intros ->. left. now left.
  - intros s [H | H]%in_app_iff.
    + destruct (is_terminal_stage _); [|contradiction].
      destruct H as [H | []]. discriminate.
    + now apply in_effect_socket in H.
  - intros r n [H | H]%in_app_iff.
    + destruct (is_terminal_stage _); [|contradiction].
      destruct H as [H | []]. discriminate.
    + now apply in_effect_socket in H.
  - intros [H | H]%in_app_iff.
    + destruct (is_terminal_stage _); [|contradiction].
      destruct H as [H | []]. discriminate.
    + now apply in_effect_socket in H.
Qed.

(* ---------------------------------------------------------------- *)
(** ** Notices and the socket ref *)

Lemma step_error_toast d runId attempt :
  toast (fst (step d (StreamError runId attempt)))
  = if shouldReconnect d runId && (5 <=? attempt)%nat
    then errorToast "Run stream lost connection"
    else if (attempt =? 0)%nat
         then errorToast "Run stream interrupted, reconnecting..."
         else toast d.
Proof.
  rewrite step_stream by reflexivity. cbn [handle].
  rewrite onStreamError_fst. reflexivity.
Qed.

Lemma step_close_toast d runId attempt wasClean :
  toast (fst (step d (StreamClosed runId attempt wasClean)))
  = if negb wasClean && shouldReconnect d runId && (5 <=? attempt)%nat
    then errorToast "Run stream lost connection" else toast d.
Proof.
  rewrite step_stream by reflexivity. cbn [handle].
  rewrite onStreamClose_fst. reflexivity.
Qed.

(** X9.  The notice that the stream was interrupted is raised by the error
    event of a first connection (attempt 0) and by nothing else in the
    connection manager: an error on a later attempt below 5 and a close
    event below 5 leave the notice area as it is.  On attempt 0 the notice
    announces a reconnect also when none is scheduled because the guard
    fails. *)
Theorem interruption_notice_on_first_error (d : View) (runId : string)
        (attempt : nat) :
  (attempt = 0%nat ->
   toast (fst (step d (StreamError runId attempt)))
   = errorToast "Run stream interrupted, reconnecting...")
  /\ (attempt = 0%nat -> shouldReconnect d runId = false ->
      reconnectTimerRef (fst (step d (StreamError runId attempt))) = None
      /\ snd (step d (StreamError runId attempt)) = [FetchRuns])
  /\ ((0 < attempt < 5)%nat ->
      toast (fst (step d (StreamError runId attempt))) = toast d)
  /\ (forall wasClean, (attempt < 5)%nat ->
        toast (fst (step d (StreamClosed runId attempt wasClean))) = toast d).
Proof.
  split; [|split; [|split]].
  - intros ->. rewrite step_error_toast, andb_false_r. reflexivity.
  - intros -> G. split.
    + rewrite (step_failure_timer d runId 0) by (now left).
      unfold scheduled. now rewrite G.
    + rewrite (step_failure_out d runId 0) by (now left). now rewrite G.
  - intros A. rewrite step_error_toast.
    destruct (Nat.leb_spec 5 attempt); [lia|]. rewrite andb_false_r.
    destruct (Nat.eqb_spec attempt 0); [lia|reflexivity].
  - intros wasClean A. rewrite step_close_toast.
    destruct (Nat.leb_spec 5 attempt); [lia|]. now rewrite andb_false_r.
Qed.

Lemma interruption_notice_on_first_error_witness :
  toast (fst (step Sample.streaming (StreamError "run-old" 0)))
  = errorToast "Run stream interrupted, reconnecting..."
  /\ reconnectTimerRef (fst (step Sample.streaming (StreamError "run-old" 0)))
     = None
  /\ toast (fst (step Sample.streaming (StreamError "run-1" 2))) = None.
Proof.
  destruct (interruption_notice_on_first_error Sample.streaming "run-old" 0)
    as (A & B & _).
  destruct (interruption_notice_on_first_error Sample.streaming "run-1" 2)
    as (_ & _ & C & _).
  split; [apply A; reflexivity|].
  split; [apply B; vm_compute; reflexivity|].
  rewrite C by lia. vm_compute. reflexivity.
Defined.

Lemma step_close_socketRef d runId attempt wasClean :
  socketRef (fst (step d (StreamClosed runId attempt wasClean))) = None.
Proof.
  rewrite step_socketRef. cbn [handle]. rewrite onStreamClose_fst.
  reflexivity.
Qed.

(** X10.  A close event empties the socket ref whichever socket the ref
    holds: the callback does not compare the ref with the socket it
    belongs to.  The socket the ref held is then out of the client's
    reach: the close event itself closes nothing, and neither the next run
    selection nor the next reconnect does. *)
Theorem close_event_forgets_socket (d : View) (runId : string)
        (attempt : nat) (wasClean : bool) :
  let d' := fst (step d (StreamClosed runId attempt wasClean)) in
  socketRef d' = None
  /\ (forall s, ~ In (CloseSocket s)
                     (snd (step d (StreamClosed runId attempt wasClean))))
  /\ (forall s runId' captured detail seed,
         ~ In (CloseSocket s)
              (snd (step d' (RunDetailLoaded runId' captured detail seed))))
  /\ (forall s, ~ In (CloseSocket s) (snd (step d' ReconnectTimerFired))).
Proof.
  cbv zeta.
  pose proof (step_close_socketRef d runId attempt wasClean) as S.
  split; [exact S|]. split; [|split].
  - intros s. rewrite step_stream by reflexivity. cbn [handle].
    unfold onStreamClose. rewrite shouldReconnect_socket.
    destruct (wasClean || negb (shouldReconnect d runId)).
    + cbn. intros [H | []]. discriminate.
    + rewrite scheduleReconnect_out.
      destruct (_ && _); cbn; [tauto|]. intros [H | []]. discriminate.
  - intros s runId' captured detail seed.
    rewrite step_snd. cbn [handle]. rewrite handleRunSelect_snd, S.
    intros [[H | H]%in_app_iff | H]%in_app_iff.
    + contradiction.
    + destruct (is_live_stage _); [|contradiction].
      destruct H as [H | []]. discriminate.
    + now apply in_effect_socket in H.
  - intros s. rewrite step_timer_out, S.
    destruct (reconnectTimerRef _); [|tauto].
    cbn. intros [H | []]. discriminate.
Qed.

Lemma close_event_forgets_socket_witness :
  let second := Sample.runOf "run-2" "scn-a" RUNNING 3000 in
  let d1 := fst (step Sample.streaming
                      (RunDetailLoaded "run-2" []
                         (Sample.detailOf second (Some Sample.world)) [])) in
  let d2 := fst (step d1 (StreamClosed "run-1" 0 true)) in
  snd (step Sample.streaming
            (RunDetailLoaded "run-2" []
               (Sample.detailOf second (Some Sample.world)) []))
  = [CloseSocket {| sock_run := "run-1"; sock_attempt := 0 |};
     OpenSocket "run-2" 0]
  /\ socketRef d1 = Some {| sock_run := "run-2"; sock_attempt := 0 |}
  /\ socketRef d2 = None
  /\ snd (step d2 (RunDetailLoaded
                     "run-old" []
                     (Sample.detailOf Sample.oldRun (Some Sample.world)) []))
     = [].
Proof.
  cbv zeta. split; [vm_compute; reflexivity|].
  split; [vm_compute; reflexivity|].
  split; [|vm_compute; reflexivity].
  apply (proj1 (close_event_forgets_socket _ "run-1" 0 true)).
Defined.

(* ---------------------------------------------------------------- *)
(** ** Scenario catalog *)

Lemma step_scenarios_loaded d list :
  fst (step d (ScenariosLoaded list)) = scenariosLoaded d list.
Proof.
  rewrite step_fst. cbv zeta. cbn [activeRunReplaced handle fst].
  apply modeEffect_same; reflexivity.
Qed.

Lemma find_some_id (list : list ScenarioSummary) id s :
  find (fun item => String.eqb (scn_id item) id) list = Some s ->
  In s list /\ scn_id s = id.
Proof.
  intros H. apply find_some in H as [I E]. split; [exact I|].
  now apply String.eqb_eq.
Qed.

Lemma find_none_id (list : list ScenarioSummary) id :
  find (fun item => String.eqb (scn_id item) id) list = None ->
  forall s, In s list -> scn_id s <> id.
Proof.
  intros H s I E. apply (find_none _ _ H) in I.
  apply String.eqb_neq in I. contradiction.
Qed.

(** X11.  When the scenario list is reloaded the selection follows the
    scenario's id: if the list holds a scenario with the id of the one
    selected before, the first such entry is selected; otherwise, and when
    nothing was selected, the first entry of the list is; the selection is
    empty exactly when the list is, and it is always an entry of the new
    list. *)
Theorem scenario_refresh_keeps_selection (d : View)
        (list : list ScenarioSummary) :
  let d' := fst (step d (ScenariosLoaded list)) in
  scenarios d' = list
  /\ (selectedScenario d' = None <-> list = [])
  /\ (forall s, selectedScenario d' = Some s -> In s list)
  /\ (forall previous,
         selectedScenario d = Some previous ->
         (exists s, In s list /\ scn_id s = scn_id previous) ->
         exists s, selectedScenario d' = Some s
                   /\ scn_id s = scn_id previous)
  /\ ((forall previous, selectedScenario d = Some previous ->
                        forall s, In s list -> scn_id s <> scn_id previous) ->
      selectedScenario d' = hd_error list).
Proof.
  cbv zeta. rewrite step_scenarios_loaded. unfold scenariosLoaded.
  cbn [scenarios selectedScenario set_selectedScenario set_scenarios].
  rewrite index_head.
  split; [reflexivity|].
  destruct (selectedScenario d) as [previous|].
  - destruct (find _ list) as [updated|] eqn:F.
    + destruct (find_some_id _ _ _ F) as [I E].
      split; [|split; [|split]].
      * split; [discriminate|]. intros ->. contradiction.
      * intros s [= <-]. exact I.
      * intros p [= <-] _. eauto.
      * intros H. exfalso. now apply (H previous eq_refl updated I).
    + pose proof (find_none_id _ _ F) as N.
      split; [|split; [|split]].
      * destruct list; cbn; split; congruence.
      * intros s H. destruct list; [discriminate|].
        injection H as <-. now left.
      * intros p [= <-] (s & I & E). now apply N in I.
      * reflexivity.
  - split; [|split; [|split]].
    + destruct list; cbn; split; congruence.
    + intros s H. destruct list; [discriminate|].
      injection H as <-. now left.
    + discriminate.
    + reflexivity.
Qed.

Lemma scenario_refresh_keeps_selection_witness :
  let renamed :=
    {| scn_id := "scn-b"; scn_created_at := "2025-02-01T00:00:00Z";
       config := {| name := "renamed"; description := "";
                    config_layout := Sample.lay 20 10 |} |} in
  let d' := fst (step Sample.inspectingOther
                      (ScenariosLoaded [Sample.warehouseA; renamed])) in
  exists s, selectedScenario d' = Some s /\ scn_id s = "scn-b".
Proof.
  cbv zeta.
  apply (proj1 (proj2 (proj2 (proj2 (scenario_refresh_keeps_selection
                                       Sample.inspectingOther _))))
               Sample.warehouseB).
  - vm_compute. reflexivity.
  - eexists. split; [right; left; reflexivity|reflexivity].
Defined.

(** X12.  The run header and the fall-back layout come from the same
    scenario: the header shows the name of the scenario whose layout is the
    fall-back layout, and ["Scenario"] (with a run) or the empty string
    (without) exactly when there is no such scenario.  The row of the run
    history that belongs to the active run shows the same name whenever
    the scenario of that run is listed. *)
Theorem header_names_layout_scenario (d : View) :
  scenarioName d
  = match activeScenario d with
    | Some s => name (config s)
    | None => if has_run d then "Scenario" else ""
    end
  /\ (forall s, activeScenario d = Some s ->
        scenarioName d = name (config s)
        /\ fallbackLayout d = Some (config_layout (config s)))
  /\ (forall r s,
        activeRun d = Some r ->
        find (fun item => String.eqb (scn_id item) (scenario_id (base r)))
             (scenarios d) = Some s ->
        scenarioName d = RunHistoryList.rowName (scenarios d) (base r)
        /\ RunHistoryList.rowActive (activeRunId d) (base r) = true).
Proof.
  assert (E : scenarioName d
              = match activeScenario d with
                | Some s => name (config s)
                | None => if has_run d then "Scenario" else ""
                end).
  { unfold scenarioName, activeScenario, has_run.
    destruct (activeRun d) as [r|]; [|reflexivity].
    destruct (find _ (scenarios d)); [reflexivity|].
    cbn. destruct (selectedScenario d); reflexivity. }
  split; [exact E|]. split.
  - intros s A. rewrite E, A. split; [reflexivity|].
    rewrite fallbackLayout_config, A. reflexivity.
  - intros r s A F. split.
    + unfold scenarioName, RunHistoryList.rowName. rewrite A, F. reflexivity.
    + unfold RunHistoryList.rowActive, activeRunId. rewrite A.
      apply id_eqb_refl.
Qed.

Lemma header_names_layout_scenario_witness :
  scenarioName Sample.inspectingOther = "scn-a"
  /\ fallbackLayout Sample.inspectingOther = Some (Sample.lay 8 6).
Proof.
  destruct (header_names_layout_scenario Sample.inspectingOther)
    as (_ & H & _).
  destruct (H Sample.warehouseA) as [A B]; [vm_compute; reflexivity|].
  rewrite A, B. split; reflexivity.
Defined.

(* ---------------------------------------------------------------- *)
(** ** Automatic run selection *)

(** X13.  The auto-select effect comes to rest: once the detail of the
    preferred run of the inspected scenario has arrived, that run is
    active, the effect has nothing to ask for, and the step requests no
    run detail. *)
Theorem auto_select_settles (d : View) (runId : string)
        (captured : list ScenarioSummary) (detail : ScenarioRunDetail)
        (seed : list TimelineEventDetail) (sel : ScenarioSummary)
        (p : ScenarioRun) :
  selectedScenario d = Some sel ->
  scenario_id (base detail) = scn_id sel ->
  preferredRun sel (runs d) = Some p ->
  run_id (base detail) = run_id p ->
  let d' := fst (step d (RunDetailLoaded runId captured detail seed)) in
  activeRunId d' = Some (run_id p)
  /\ autoSelect d' = None
  /\ (forall id, ~ In (FetchRunDetail id)
                      (snd (step d (RunDetailLoaded runId captured detail
                                                    seed)))).
Proof.
  intros S E P I d'.
  destruct (step_run_detail_catalog d runId captured detail seed sel S E)
    as (S' & R'). fold d' in S', R'.
  pose proof (step_activeRunId d (RunDetailLoaded runId captured detail seed))
    as A. cbv beta iota in A. fold d' in A. rewrite I in A.
  assert (N : autoSelect d' = None).
  { destruct (autoSelect d') as [id|] eqn:Q; [|reflexivity].
    apply autoSelect_spec in Q as (sel' & p' & Q1 & Q2 & Q3 & Q4).
    rewrite S' in Q1. injection Q1 as <-. rewrite R', P in Q2.
    injection Q2 as <-. subst id. contradiction. }
  split; [exact A|]. split; [exact N|].
  intros id. rewrite step_snd. cbn [handle]. rewrite handleRunSelect_snd.
  fold d'. unfold autoSelectEffect. rewrite N.
  intros [[H | H]%in_app_iff | H]%in_app_iff.
  - destruct (socketRef d); [|contradiction].
    destruct H as [H | []]. discriminate.
  - destruct (is_live_stage _); [|contradiction].
    destruct H as [H | []]. discriminate.
  - destruct (autoSelectDue _ _ _); contradiction.
Qed.

Lemma auto_select_settles_witness :
  snd (step Sample.browsing
            (RunDetailLoaded "run-new" [Sample.warehouseA]
               (Sample.detailOf Sample.newRun (Some Sample.world)) []))
  = []
  /\ forall id,
       ~ In (FetchRunDetail id)
            (snd (step Sample.browsing
                       (RunDetailLoaded "run-new" [Sample.warehouseA]
                          (Sample.detailOf Sample.newRun (Some Sample.world))
                          []))).
Proof.
  split; [vm_compute; reflexivity|].
  apply (auto_select_settles
           Sample.browsing "run-new" [Sample.warehouseA]
           (Sample.detailOf Sample.newRun (Some Sample.world)) []
           Sample.warehouseA Sample.newRun);
    vm_compute; reflexivity.
Defined.

Lemma find_first_sorted {A} (R : A -> A -> Prop) (f : A -> bool) l p :
  StronglySorted R l -> List.find f l = Some p ->
  forall x, In x l -> f x = true -> x = p \/ R p x.
Proof.
  induction 1 as [|a l S IH F]; cbn [List.find]; [discriminate|].
  destruct (f a) eqn:Fa.
  - intros [= <-] x [<- | I] _; [now left|right].
    rewrite Forall_forall in F. now apply F.
  - intros Q x [<- | I] Fx; [congruence|]. now apply IH.
Qed.

(** X14.  When the preferred run of a scenario is live, it is the most
    recently created of the scenario's live runs. *)
Theorem preferred_live_run_is_latest (sel : ScenarioSummary)
        (rs : list ScenarioRun) (p : ScenarioRun) :
  preferredRun sel rs = Some p ->
  is_live_stage (stage p) = true ->
  forall x, In x rs -> scenario_id x = scn_id sel ->
            is_live_stage (stage x) = true ->
            created_at x <= created_at p.
Proof.
  unfold preferredRun. cbv zeta. intros P L x I E Lx.
  assert (M : In x (matchingRuns sel rs)) by now apply matchingRuns_In.
  unfold find in P.
  destruct (List.find _ (matchingRuns sel rs)) as [q|] eqn:F; cbn in P.
  - injection P as <-.
    destruct (find_first_sorted _ _ _ _ (sortRuns_sorted _) F x M Lx)
      as [-> | H]; [lia|exact H].
  - apply (find_none _ _ F) in M. cbv beta in M. congruence.
Qed.

Lemma preferred_live_run_is_latest_witness :
  preferredRun Sample.warehouseA
               [Sample.runOf "run-w" "scn-a" WARMING_UP 500;
                Sample.liveRun; Sample.newRun]
  = Some Sample.liveRun
  /\ 500 <= created_at Sample.liveRun.
Proof.
  split; [vm_compute; reflexivity|].
  apply (preferred_live_run_is_latest
           Sample.warehouseA
           [Sample.runOf "run-w" "scn-a" WARMING_UP 500;
            Sample.liveRun; Sample.newRun]
           Sample.liveRun eq_refl eq_refl
           (Sample.runOf "run-w" "scn-a" WARMING_UP 500)).
  - now left.
  - reflexivity.
  - reflexivity.
Defined.

(** The handlers that ask for a run's detail are the click on a row of the
    run history and the launch of a scenario. *)
Lemma handle_requests d e id :
  In (FetchRunDetail id) (snd (handle d e)) ->
  e = RunClicked id
  \/ exists scenario run, e = RunLaunched scenario run /\ run_id run = id.
Proof.
  destruct e; cbn [handle snd]; try (intros []; fail).
  - intros [[= ->] | []]. now left.
  - intros [[= <-] | []]. right. eauto.
  - rewrite handleRunSelect_snd. intros [H | H]%in_app_iff.
    + destruct (socketRef d); [|contradiction].
      destruct H as [H | []]. discriminate.
    + destruct (is_live_stage _); [|contradiction].
      destruct H as [H | []]. discriminate.
  - destruct (has_run d); intros [].
  - destruct (seekEnabled d i); intros [].
  - destruct (has_run d); intros [].
  - change (snd (handleTick d tick))
      with (if is_terminal_stage (tick_stage tick) then [FetchRuns] else []).
    destruct (is_terminal_stage _); [|intros []].
    intros [H | []]. discriminate.
  - change (snd (onStreamError d runId attempt))
      with (snd (handle d (StreamError runId attempt))).
    rewrite (handle_failure_out d runId attempt (StreamError runId attempt))
      by (now left).
    destruct (_ && _); [intros []|]. intros [H | []]. discriminate.
  - destruct wasClean.
    + unfold onStreamClose. cbn. intros [H | []]. discriminate.
    + change (snd (onStreamClose d runId attempt false))
        with (snd (handle d (StreamClosed runId attempt false))).
      rewrite (handle_failure_out d runId attempt
                 (StreamClosed runId attempt false)) by (now right).
      destruct (_ && _); [intros []|]. intros [H | []]. discriminate.
  - destruct (reconnectTimerRef d); [|intros []].
    rewrite connect_snd. intros [H | H]%in_app_iff.
    + destruct (socketRef d); [|contradiction].
      destruct H as [H | []]. discriminate.
    + destruct H as [H | []]. discriminate.
Qed.

(** X25.  Every request for a run's detail has one of three origins: the
    operator clicked that run in the history, the operator launched it, or
    the auto-select effect asked for it.  What the effect asks for is a run
    of the scenario selected after the step that is not the active run,
    and it is the preferred one: a RUNNING or WARMING_UP run of that
    scenario if the list holds one, else a most recently created run of
    it. *)
Theorem run_detail_requests (d : View) (e : Event) (id : string) :
  In (FetchRunDetail id) (snd (step d e)) ->
  let d' := fst (step d e) in
  e = RunClicked id
  \/ (exists scenario run, e = RunLaunched scenario run /\ run_id run = id)
  \/ (exists sel p,
        selectedScenario d' = Some sel /\ In p (runs d')
        /\ run_id p = id /\ scenario_id p = scn_id sel
        /\ activeRunId d' <> Some id
        /\ ((exists x, In x (runs d') /\ scenario_id x = scn_id sel
                       /\ is_live_stage (stage x) = true) ->
            is_live_stage (stage p) = true)
        /\ ((forall x, In x (runs d') -> scenario_id x = scn_id sel ->
                       is_live_stage (stage x) = false) ->
            forall x, In x (runs d') -> scenario_id x = scn_id sel ->
                      created_at x <= created_at p)).
Proof.
  intros H d'. rewrite step_snd in H. fold d' in H.
  apply in_app_iff in H as [H | H].
  - apply handle_requests in H as [H | H]; auto.
  - right. right.
    destruct (autoSelectDue d d' e); [|contradiction].
    unfold autoSelectEffect in H.
    destruct (autoSelect d') as [runId|] eqn:Q; [|contradiction].
    destruct H as [[= ->] | []].
    apply autoSelect_spec in Q as (sel & p & S & P & I & N).
    pose proof (preferredRun_spec sel (runs d')) as X. rewrite P in X.
    destruct X as (X1 & X2 & X3 & X4).
    exists sel, p. repeat (split; [assumption|]). exact X4.
Qed.

Lemma run_detail_requests_witness :
  let d := after initial [ScenariosLoaded [Sample.warehouseA]] in
  let e := RunsLoaded [Sample.oldRun; Sample.liveRun; Sample.newRun] in
  snd (step d e) = [FetchRunDetail "run-1"]
  /\ exists sel p,
       selectedScenario (fst (step d e)) = Some sel
       /\ In p (runs (fst (step d e)))
       /\ run_id p = "run-1" /\ scenario_id p = scn_id sel.
Proof.
  cbv zeta. split; [vm_compute; reflexivity|].
  assert (H : In (FetchRunDetail "run-1")
                 (snd (step (after initial [ScenariosLoaded [Sample.warehouseA]])
                            (RunsLoaded [Sample.oldRun; Sample.liveRun;
                                         Sample.newRun]))))
    by (vm_compute; auto).
  apply run_detail_requests in H. cbv zeta in H.
  destruct H as [H | [(? & ? & H & _) | (sel & p & S & I & R & C & _)]];
    try discriminate H.
  exists sel, p. auto.
Defined.

(* ---------------------------------------------------------------- *)
(** ** Robot colours *)

Lemma toInt32_range z : - 2 ^ 31 <= toInt32 z < 2 ^ 31.
Proof.
  unfold toInt32.
  pose proof (Z.mod_pos_bound (z + 2 ^ 31) (2 ^ 32) eq_refl).
  change (2 ^ 32) with (2 * 2 ^ 31) in *. lia.
Qed.

Lemma toInt32_wrap z : exists k, toInt32 z = z + k * 2 ^ 32.
Proof.
  unfold toInt32. exists (- ((z + 2 ^ 31) / 2 ^ 32)).
  pose proof (Z.div_mod (z + 2 ^ 31) (2 ^ 32)) as D.
  set (M := 2 ^ 32) in *. assert (M <> 0) by discriminate. lia.
Qed.

Lemma toInt32_congr a b k : a = b + k * 2 ^ 32 -> toInt32 a = toInt32 b.
Proof.
  intros ->. unfold toInt32.
  replace (b + k * 2 ^ 32 + 2 ^ 31) with (b + 2 ^ 31 + k * 2 ^ 32) by ring.
  now rewrite Z.mod_add by discriminate.
Qed.

(** One round of the loop multiplies by 31 and adds the code unit,
    modulo 2^32. *)
Lemma hash_round h z code :
  h = toInt32 z ->
  toInt32 (shiftLeft h 5 - h + code) = toInt32 (31 * z + code).
Proof.
  intros ->. unfold shiftLeft.
  destruct (toInt32_wrap (toInt32 (toInt32 z) * 2 ^ 5)) as [k3 ->].
  destruct (toInt32_wrap (toInt32 z)) as [k2 ->].
  destruct (toInt32_wrap z) as [k1 ->].
  apply (toInt32_congr _ _ (31 * k1 + 32 * k2 + k3)).
  change (2 ^ 5) with 32. ring.
Qed.

Lemma hashLoop_polynomial codes : forall h z,
  h = toInt32 z ->
  hashLoop codes h
  = toInt32 (fold_left (fun acc code => 31 * acc + code) codes z).
Proof.
  induction codes as [|code codes IH]; intros h z H; cbn [hashLoop fold_left].
  - exact H.
  - apply IH. rewrite (hash_round h z code H). reflexivity.
Qed.

(** X15.  [hashString] is the polynomial hash of the code units in base
    31, reduced to a signed 32-bit integer: the shift, the subtraction and
    [hash |= 0] of each round amount to multiplying by 31 and adding the
    code unit modulo 2^32.  The result lies in [-2^31 .. 2^31 - 1]. *)
Theorem hashString_is_polynomial_hash (value : string) :
  hashString value = toInt32 (polynomial (charCodes value))
  /\ - 2 ^ 31 <= hashString value < 2 ^ 31.
Proof.
  assert (E : hashString value = toInt32 (polynomial (charCodes value))).
  { unfold hashString, polynomial. now apply hashLoop_polynomial. }
  split; [exact E|]. rewrite E. apply toInt32_range.
Qed.

(** X16.  Every robot id is given one of the seven palette colours: the
    index [Math.abs(hash) % 7] is always in range, also for the hash
    [-2^31] whose absolute value is no 32-bit integer. *)
Theorem robotColor_in_palette (robotId : string) :
  exists color, robotColor robotId = Some color /\ In color ROBOT_COLORS.
Proof.
  unfold robotColor. cbv zeta.
  change (len ROBOT_COLORS) with 7.
  pose proof (Z.mod_pos_bound (Z.abs (hashString robotId)) 7 eq_refl) as B.
  unfold index. destruct (Z.ltb_spec (Z.abs (hashString robotId) mod 7) 0);
    [lia|].
  destruct (nth_error ROBOT_COLORS
                      (Z.to_nat (Z.abs (hashString robotId) mod 7)))
    as [color|] eqn:N.
  - exists color. split; [reflexivity|]. eapply nth_error_In, N.
  - apply nth_error_None in N. cbn [ROBOT_COLORS List.length] in N. lia.
Qed.

(* ---------------------------------------------------------------- *)
(** ** Coordinate lists of the scenario wizard *)

(** *** Characters *)

Lemma includes_avoids c s :
  includes c s = negb (avoids (fun a => Ascii.eqb a c) s).
Proof.
  induction s as [|a s IH]; [reflexivity|]. cbn. rewrite IH.
  destruct (Ascii.eqb a c); reflexivity.
Qed.

Lemma avoids_skipWhite p s : avoids p s = true -> avoids p (skipWhite s) = true.
Proof.
  induction s as [|c s IH]; [auto|]. cbn [skipWhite].
  destruct (isWhite c); [|auto]. cbn. intros [_ H]%andb_prop. auto.
Qed.

Lemma avoids_trimEnd p s : avoids p s = true -> avoids p (trimEnd s) = true.
Proof.
  induction s as [|c s IH]; [auto|]. cbn [trimEnd avoids].
  intros [Hc H]%andb_prop. specialize (IH H).
  destruct (trimEnd s) as [|c' t].
  - destruct (isWhite c); cbn; [reflexivity|]. now rewrite Hc.
  - cbn [avoids] in *. now rewrite Hc, IH.
Qed.

Lemma avoids_trim p s : avoids p s = true -> avoids p (trim s) = true.
Proof. intros H. now apply avoids_trimEnd, avoids_skipWhite. Qed.

(** The pieces of a split hold no separator, and no character the string
    does not hold. *)
Lemma split_pieces sep s piece :
  In piece (split sep s) ->
  avoids (fun a => Ascii.eqb a sep) piece = true
  /\ forall p, avoids p s = true -> avoids p piece = true.
Proof.
  revert piece. induction s as [|c s IH]; intros piece; cbn [split].
  - intros [<- | []]. auto.
  - destruct (Ascii.eqb c sep) eqn:E.
    + intros [<- | I].
      * auto.
      * destruct (IH piece I) as [A B]. split; [exact A|].
        intros p. cbn. intros [_ H]%andb_prop. auto.
    + destruct (split sep s) as [|h t] eqn:S.
      * intros [<- | []]. cbn. rewrite E. split; [reflexivity|].
        intros p. cbn. intros [-> _]%andb_prop. reflexivity.
      * intros [<- | I].
        -- destruct (IH h (or_introl eq_refl)) as [A B]. cbn. rewrite E.
           split; [exact A|]. intros p. cbn.
           intros [-> H]%andb_prop. cbn. auto.
        -- destruct (IH piece (or_intror I)) as [A B]. split; [exact A|].
           intros p. cbn. intros [_ H]%andb_prop. auto.
Qed.

Lemma split_nonempty sep s : split sep s <> [].
Proof.
  destruct s as [|c s]; cbn; [discriminate|].
  destruct (Ascii.eqb c sep); [discriminate|].
  destruct (split sep s); discriminate.
Qed.

(** *** Numbers *)

Lemma digit_nonneg c v : digit c = Some v -> 0 <= v.
Proof.
  unfold digit. destruct (_ && _); [|discriminate]. intros [= <-]. lia.
Qed.

Lemma digits_nonneg s : forall acc z,
  (forall a, acc = Some a -> 0 <= a) ->
  digits s acc = Some z -> 0 <= z.
Proof.
  induction s as [|c s IH]; intros acc z A; cbn [digits].
  - apply A.
  - destruct (digit c) as [v|] eqn:D; [|apply A].
    apply IH. intros a E. pose proof (digit_nonneg c v D).
    destruct acc as [a0|].
    + specialize (A a0 eq_refl).
      assert (a = 10 * a0 + v) by congruence. lia.
    + congruence.
Qed.

Lemma parseInt_nonneg s z :
  avoids (fun a => Ascii.eqb a "-") s = true ->
  parseInt s = Some z -> 0 <= z.
Proof.
  intros H%(avoids_skipWhite _ s). unfold parseInt.
  assert (N : forall a : Z, @None Z = Some a -> 0 <= a) by discriminate.
  destruct (skipWhite s) as [|c r]; [discriminate|].
  cbn [avoids] in H. apply andb_prop in H as [Hc _].
  destruct c as [[] [] [] [] [] [] [] []];
    try discriminate Hc; apply digits_nonneg; exact N.
Qed.

Lemma coordAt_natural parts i :
  (forall piece, In piece parts ->
                 avoids (fun a => Ascii.eqb a "-") piece = true) ->
  coordAt parts i <> NaN -> natural (coordAt parts i).
Proof.
  intros H. unfold coordAt.
  destruct (nth_error parts i) as [v|] eqn:E; [|intros _; exact I].
  apply nth_error_In in E. specialize (H v E).
  destruct (parseInt (trim v)) as [z|] eqn:P; [intros _|congruence].
  cbn. apply (parseInt_nonneg (trim v)); [|exact P].
  now apply avoids_trim.
Qed.

Lemma coordAt_head sep s : coordAt (split sep s) 0 <> Undefined.
Proof.
  unfold coordAt. pose proof (split_nonempty sep s).
  destruct (split sep s); [contradiction|]. cbn.
  destruct (parseInt _); discriminate.
Qed.

(** *** Ranges *)

Lemma in_upto lo hi v : In v (upto lo hi) <-> lo <= v <= hi.
Proof.
  unfold upto. rewrite in_map_iff. split.
  - intros (i & <- & I%in_seq). lia.
  - intros H. exists (Z.to_nat (v - lo)). split; [lia|].
    apply in_seq. lia.
Qed.

Lemma upto_length lo hi : len (upto lo hi) = Z.max 0 (hi - lo + 1).
Proof. unfold upto, len. rewrite length_map, length_seq. lia. Qed.

Lemma expandRange_natural sx sy ex ey p :
  natural sx \/ sx = NaN -> natural sy \/ sy = NaN ->
  natural ex \/ ex = NaN -> natural ey \/ ey = NaN ->
  sx <> Undefined -> ex <> Undefined ->
  In p (expandRange sx sy ex ey) ->
  (exists x, px p = Num x /\ 0 <= x)
  /\ (py p = Undefined \/ exists y, py p = Num y /\ 0 <= y).
Proof.
  intros Hsx Hsy Hex Hey Ux Ue. unfold expandRange.
  destruct sx as [sx| |]; [|intros []|contradiction].
  destruct ex as [ex| |];
    [|destruct sy; cbn; intros []|contradiction].
  destruct Hsx as [Hsx|]; [|discriminate].
  destruct Hex as [Hex|]; [|discriminate].
  cbn in Hsx, Hex.
  destruct sy as [sy| |], ey as [ey| |]; cbn -[upto];
    try (intros []);
    try (destruct (sx =? ex); intros []).
  - destruct Hsy as [Hsy|]; [|discriminate].
    destruct Hey as [Hey|]; [|discriminate]. cbn in Hsy, Hey.
    destruct (sx =? ex).
    + destruct (sy <? ey); cbn -[upto];
        intros (y & <- & I%in_upto)%in_map_iff; cbn; split; eauto;
        right; exists y; split; auto; lia.
    + destruct (sy =? ey); [|intros []].
      destruct (sx <? ex); cbn -[upto];
        intros (x & <- & I%in_upto)%in_map_iff; cbn; split; eauto;
        exists x; split; auto; lia.
  - destruct (sx =? ex); [intros []|].
    destruct (sx <? ex); cbn -[upto];
      intros (x & <- & I%in_upto)%in_map_iff; cbn; split; auto;
      exists x; split; auto; lia.
Qed.

Lemma textAt_avoids p parts i :
  (forall piece, In piece parts -> avoids p piece = true) ->
  avoids p (textAt parts i) = true.
Proof.
  intros H. unfold textAt.
  destruct (nth_error parts i) as [v|] eqn:E; [|reflexivity].
  apply avoids_trim, H. eapply nth_error_In, E.
Qed.

Lemma parseSegment_natural segment p :
  In p (parseSegment segment) ->
  (exists x, px p = Num x /\ 0 <= x)
  /\ (py p = Undefined \/ exists y, py p = Num y /\ 0 <= y).
Proof.
  unfold parseSegment. rewrite includes_avoids.
  set (dash := fun a => Ascii.eqb a "-").
  destruct (avoids dash segment) eqn:A; cbn [negb].
  - assert (Q : forall piece, In piece (split ":" segment) ->
                              avoids dash piece = true).
    { intros piece I. now apply (proj2 (split_pieces ":" segment piece I)). }
    destruct (parseInt (textAt (split ":" segment) 0)) as [x|] eqn:X;
      [|intros []].
    destruct (parseInt (textAt (split ":" segment) 1)) as [y|] eqn:Y;
      [|intros []].
    intros [<- | []]. cbn.
    apply parseInt_nonneg in X; [|now apply textAt_avoids].
    apply parseInt_nonneg in Y; [|now apply textAt_avoids].
    split; [exists x|right; exists y]; split; auto.
  - destruct (split "-" segment) as [|start [|finish rest]] eqn:S;
      [intros []|intros []|]. cbv zeta.
    assert (Q : forall half, half = start \/ half = finish ->
                forall piece, In piece (split ":" half) ->
                              avoids dash piece = true).
    { intros half H piece I.
      apply (proj2 (split_pieces ":" half piece I) dash).
      assert (J : In half (split "-" segment))
        by (rewrite S; destruct H as [-> | ->]; cbn; auto).
      exact (proj1 (split_pieces "-" segment half J)). }
    assert (N : forall half i, half = start \/ half = finish ->
                natural (coordAt (split ":" half) i)
                \/ coordAt (split ":" half) i = NaN).
    { intros half i H.
      destruct (coordAt (split ":" half) i) eqn:E; [left|now right|now left].
      rewrite <- E. apply coordAt_natural; [now apply Q|congruence]. }
    apply expandRange_natural; auto using coordAt_head.
Qed.

Lemma expandRange_exact sx sy ex ey p :
  exactCoord sx = true -> exactCoord sy = true ->
  exactCoord ex = true -> exactCoord ey = true ->
  In p (expandRange sx sy ex ey) ->
  exactCoord (px p) = true /\ exactCoord (py p) = true.
Proof.
  intros Hsx Hsy Hex Hey. unfold expandRange.
  destruct sx as [sx| |], sy as [sy| |], ex as [ex| |], ey as [ey| |];
    cbn -[upto] in *; try (intros []; fail);
    repeat match goal with
           | |- context [if ?c then _ else _] => destruct c eqn:?
           end;
    cbn -[upto]; try (intros []; fail);
    intros (v & <- & I%in_upto)%in_map_iff; cbn; split; try reflexivity;
    try assumption;
    first [apply (safeb_between sy ey); [assumption|assumption|lia]
          |apply (safeb_between ey sy); [assumption|assumption|lia]
          |apply (safeb_between sx ex); [assumption|assumption|lia]
          |apply (safeb_between ex sx); [assumption|assumption|lia]].
Qed.

Lemma parseSegment_exact segment p :
  exactSegment segment = true -> In p (parseSegment segment) ->
  exactCoord (px p) = true /\ exactCoord (py p) = true.
Proof.
  unfold exactSegment, parseSegment.
  destruct (includes "-" segment).
  - destruct (split "-" segment) as [|start [|finish rest]];
      [intros _ []|intros _ []|]. cbv zeta.
    intros [[[A B]%andb_prop C]%andb_prop D]%andb_prop.
    now apply expandRange_exact.
  - cbv zeta.
    destruct (parseInt (textAt (split ":" segment) 0)) as [x|];
      [|intros _ []].
    destruct (parseInt (textAt (split ":" segment) 1)) as [y|];
      [|intros _ []].
    intros [A B]%andb_prop [<- | []]. cbn. auto.
Qed.

(** X17.  For a coordinate list whose numbers are safe integers: no
    position the wizard reads out of it has a negative coordinate, since
    ["-"] is always taken as the range separator and a sign never reaches
    [parseInt].  The [x] of a position is a safe integer that is not
    negative; the [y] is one too, or missing, never [NaN].  The starting
    positions are never empty. *)
Theorem coordinates_are_never_negative (value : string) :
  exactList value = true ->
  (forall p, In p (parseCoordinateList value) ->
     (exists x, px p = Num x /\ 0 <= x < 2 ^ 53)
     /\ (py p = Undefined \/ exists y, py p = Num y /\ 0 <= y < 2 ^ 53))
  /\ parseStartingPositions value <> []
  /\ (forall p, In p (parseStartingPositions value) ->
        (exists x, px p = Num x /\ 0 <= x < 2 ^ 53)
        /\ (py p = Undefined
            \/ exists y, py p = Num y /\ 0 <= y < 2 ^ 53)).
Proof.
  intros X.
  assert (P : forall p, In p (parseCoordinateList value) ->
     (exists x, px p = Num x /\ 0 <= x < 2 ^ 53)
     /\ (py p = Undefined \/ exists y, py p = Num y /\ 0 <= y < 2 ^ 53)).
  { intros p (segment & S & I)%in_flat_map.
    unfold exactList in X. rewrite forallb_forall in X.
    destruct (parseSegment_exact segment p (X segment S) I) as [Ex Ey].
    destruct (parseSegment_natural segment p I)
      as ((x & Px & Nx) & [U | (y & Py & Ny)]).
    - split; [|now left]. exists x. split; [exact Px|].
      rewrite Px in Ex. apply safeb_safe in Ex. unfold safe in Ex. lia.
    - split; [exists x|right; exists y]; split; auto.
      + rewrite Px in Ex. apply safeb_safe in Ex. unfold safe in Ex. lia.
      + rewrite Py in Ey. apply safeb_safe in Ey. unfold safe in Ey. lia. }
  split; [exact P|]. unfold parseStartingPositions. cbv zeta.
  destruct (Z.eqb_spec (len (parseCoordinateList value)) 0) as [Z | Z].
  - split; [discriminate|]. intros p [<- | []]. cbn.
    split; [exists 0|right; exists 0]; split; auto; lia.
  - split; [|exact P]. intros E. rewrite E in Z. now apply Z.
Qed.

(** A list with a range, a cell, a range without rows and a segment that
    is not a cell. *)
Lemma coordinates_are_never_negative_witness :
  exactList "3:1-3:2, 7:7; 4-5; north" = true
  /\ parseCoordinateList "3:1-3:2, 7:7; 4-5; north"
     = [ {| px := Num 3; py := Num 1 |}; {| px := Num 3; py := Num 2 |};
         {| px := Num 7; py := Num 7 |};
         {| px := Num 4; py := Undefined |};
         {| px := Num 5; py := Undefined |} ]
  /\ (forall p, In p (parseCoordinateList "3:1-3:2, 7:7; 4-5; north") ->
        exists x, px p = Num x /\ 0 <= x < 2 ^ 53)
  /\ parseStartingPositions "north" = [ {| px := Num 0; py := Num 0 |} ].
Proof.
  destruct (coordinates_are_never_negative "3:1-3:2, 7:7; 4-5; north")
    as (P & _); [vm_compute; reflexivity|].
  split; [vm_compute; reflexivity|]. split; [vm_compute; reflexivity|].
  split; [intros p I; exact (proj1 (P p I))|].
  vm_compute. reflexivity.
Defined.

(** *** Segments *)

Lemma splitOn_nonempty p s : splitOn p s <> [].
Proof.
  destruct s as [|c s]; cbn; [discriminate|].
  destruct (p c); [discriminate|]. destruct (splitOn p s); discriminate.
Qed.

Lemma splitOn_app p a c b :
  p c = true ->
  splitOn p (a ++ String c b)%string = splitOn p a ++ splitOn p b.
Proof.
  intros H. induction a as [|x a IH]; cbn [append splitOn app].
  - now rewrite H.
  - destruct (p x); [now rewrite IH|].
    rewrite IH. pose proof (splitOn_nonempty p a).
    destruct (splitOn p a); [contradiction|reflexivity].
Qed.

(** X18.  The segments of a coordinate list are read independently and in
    order: the positions of two lists joined by a separator (a semicolon, a
    comma or a line break) are the positions of the first followed by those
    of the second.  Nothing is removed: a position named twice is there
    twice. *)
Theorem coordinate_lists_concatenate (a b : string) (sep : ascii) :
  isSeparator sep = true ->
  parseCoordinateList (a ++ String sep b)%string
  = parseCoordinateList a ++ parseCoordinateList b.
Proof.
  intros H. unfold parseCoordinateList.
  now rewrite splitOn_app, map_app, filter_app, flat_map_app.
Qed.

Lemma coordinate_lists_concatenate_witness :
  parseCoordinateList "1:4;1:6,1:4"
  = [ {| px := Num 1; py := Num 4 |}; {| px := Num 1; py := Num 6 |};
      {| px := Num 1; py := Num 4 |} ].
Proof.
  change (parseCoordinateList "1:4;1:6,1:4")
    with (parseCoordinateList ("1:4;1:6" ++ String "," "1:4")%string).
  rewrite coordinate_lists_concatenate by reflexivity.
  vm_compute. reflexivity.
Defined.

Lemma upto_nth lo hi i v :
  nth_error (upto lo hi) i = Some v -> v = lo + Z.of_nat i.
Proof.
  unfold upto. rewrite nth_error_map.
  destruct (nth_error (seq 0 (Z.to_nat (hi - lo + 1))) i) as [k|] eqn:E;
    [|discriminate].
  intros [= <-].
  assert (L : (i < List.length (seq 0 (Z.to_nat (hi - lo + 1))))%nat)
    by (apply nth_error_Some; congruence).
  rewrite length_seq in L.
  apply (nth_error_nth _ _ 0%nat) in E. rewrite seq_nth in E by exact L.
  lia.
Qed.

(** X19.  A range between two cells whose coordinates are safe integers:
    cells of one column ([x] equal) or of one row ([y] equal, [x]
    different) give every cell between the two ends, both included,
    counted up from the smaller end; the order of the two ends does not
    matter; a range that is neither (a diagonal) gives no cell at all.
    The coordinates of the cells are safe integers again. *)
Theorem range_expansion (sx sy ex ey : Z) :
  safe sx -> safe sy -> safe ex -> safe ey ->
  let cells := expandRange (Num sx) (Num sy) (Num ex) (Num ey) in
  (forall p, In p cells -> exactCoord (px p) = true
                           /\ exactCoord (py p) = true)
  /\ (forall p, In p cells
     <-> exists x y, p = {| px := Num x; py := Num y |}
           /\ ((sx = ex /\ x = sx /\ Z.min sy ey <= y <= Z.max sy ey)
               \/ (sx <> ex /\ sy = ey /\ y = sy
                   /\ Z.min sx ex <= x <= Z.max sx ex)))
  /\ (forall i p, nth_error cells i = Some p ->
        p = if sx =? ex
            then {| px := Num sx; py := Num (Z.min sy ey + Z.of_nat i) |}
            else {| px := Num (Z.min sx ex + Z.of_nat i); py := Num sy |})
  /\ expandRange (Num ex) (Num ey) (Num sx) (Num sy) = cells
  /\ len cells = (if sx =? ex then Z.abs (sy - ey) + 1
                  else if sy =? ey then Z.abs (sx - ex) + 1 else 0)
  /\ (sx <> ex -> sy <> ey -> cells = []).
Proof.
  intros Ssx Ssy Sex Sey. cbv zeta.
  split; [intros p; apply expandRange_exact; now apply safeb_safe|].
  clear Ssx Ssy Sex Sey.
  unfold expandRange. cbn -[upto].
  rewrite (Z.eqb_sym ex sx), (Z.eqb_sym ey sy).
  destruct (Z.eqb_spec sx ex) as [<- | Nx].
  - split; [|split; [|split; [|split]]].
    + intros p. destruct (Z.ltb_spec sy ey); cbn -[upto];
        rewrite in_map_iff; split.
      * intros (y & <- & I%in_upto). exists sx, y. split; [reflexivity|].
        left. lia.
      * intros (x & y & -> & [(_ & -> & B) | (N & _)]); [|contradiction].
        exists y. split; [reflexivity|]. apply in_upto. lia.
      * intros (y & <- & I%in_upto). exists sx, y. split; [reflexivity|].
        left. lia.
      * intros (x & y & -> & [(_ & -> & B) | (N & _)]); [|contradiction].
        exists y. split; [reflexivity|]. apply in_upto. lia.
    + intros i p. destruct (Z.ltb_spec sy ey); cbn -[upto];
        rewrite nth_error_map;
        destruct (nth_error (upto _ _) i) as [y|] eqn:E; try discriminate;
        intros [= <-]; apply upto_nth in E; subst y; do 2 f_equal; lia.
    + destruct (Z.ltb_spec sy ey), (Z.ltb_spec ey sy); cbn -[upto];
        try reflexivity; try lia.
      replace ey with sy by lia. reflexivity.
    + destruct (Z.ltb_spec sy ey); cbn -[upto];
        unfold len; rewrite length_map; fold (len (upto sy ey));
        fold (len (upto ey sy)); rewrite upto_length; lia.
    + contradiction.
  - destruct (Z.eqb_spec sy ey) as [<- | Ny].
    + split; [|split; [|split; [|split]]].
      * intros p. destruct (Z.ltb_spec sx ex); cbn -[upto];
          rewrite in_map_iff; split.
        -- intros (x & <- & I%in_upto). exists x, sy. split; [reflexivity|].
           right. lia.
        -- intros (x & y & -> & [(E & _) | (_ & _ & -> & B)]);
             [contradiction|].
           exists x. split; [reflexivity|]. apply in_upto. lia.
        -- intros (x & <- & I%in_upto). exists x, sy. split; [reflexivity|].
           right. lia.
        -- intros (x & y & -> & [(E & _) | (_ & _ & -> & B)]);
             [contradiction|].
           exists x. split; [reflexivity|]. apply in_upto. lia.
      * intros i p. destruct (Z.ltb_spec sx ex); cbn -[upto];
          rewrite nth_error_map;
          destruct (nth_error (upto _ _) i) as [x|] eqn:E; try discriminate;
          intros [= <-]; apply upto_nth in E; subst x; do 2 f_equal; lia.
      * destruct (Z.ltb_spec sx ex), (Z.ltb_spec ex sx); cbn -[upto];
          try reflexivity; lia.
      * destruct (Z.ltb_spec sx ex); cbn -[upto];
          unfold len; rewrite length_map; fold (len (upto sx ex));
          fold (len (upto ex sx)); rewrite upto_length; lia.
      * intros _ N. contradiction.
    + split; [|split; [|split; [|split]]]; try reflexivity.
      * intros p. split; [intros []|].
        intros (x & y & _ & [(E & _) | (_ & E & _)]); contradiction.
      * intros i p. destruct i; discriminate.
Qed.

Lemma range_expansion_witness :
  parseCoordinateList "10:2-10:13"
  = expandRange (Num 10) (Num 2) (Num 10) (Num 13)
  /\ parseCoordinateList "10:13-10:2" = parseCoordinateList "10:2-10:13"
  /\ len (parseCoordinateList "10:2-10:13") = 12
  /\ parseCoordinateList "10:2-11:13" = [].
Proof.
  assert (S : forall z, safeb z = true -> safe z)
    by (intros z; apply safeb_safe).
  destruct (range_expansion 10 2 10 13 (S 10 eq_refl) (S 2 eq_refl)
                            (S 10 eq_refl) (S 13 eq_refl))
    as (_ & _ & _ & E & L & _).
  destruct (range_expansion 10 2 11 13 (S 10 eq_refl) (S 2 eq_refl)
                            (S 11 eq_refl) (S 13 eq_refl))
    as (_ & _ & _ & _ & _ & D).
  cbv zeta in *.
  split; [reflexivity|]. split; [exact E|]. split; [exact L|].
  apply D; discriminate.
Defined.

(** *** Ranges written without rows *)

Lemma digit_plain c v :
  digit c = Some v ->
  isSeparator c = false /\ isWhite c = false
  /\ Ascii.eqb c "-" = false /\ Ascii.eqb c ":" = false.
Proof.
  intros H. destruct c as [[] [] [] [] [] [] [] []];
    try (vm_compute in H; discriminate H); vm_compute; auto.
Qed.

Lemma allDigits_avoids (p : ascii -> bool) s :
  (forall c v, digit c = Some v -> p c = false) ->
  allDigits s = true -> avoids p s = true.
Proof.
  intros P. induction s as [|c s IH]; [reflexivity|]. cbn.
  destruct (digit c) as [v|] eqn:D; [|discriminate].
  intros H. rewrite (P c v D). cbn. auto.
Qed.

Lemma avoids_app p a b :
  avoids p (a ++ b)%string = avoids p a && avoids p b.
Proof.
  induction a as [|c a IH]; [reflexivity|]. cbn. rewrite IH.
  now rewrite andb_assoc.
Qed.

Lemma splitOn_avoids p s : avoids p s = true -> splitOn p s = [s].
Proof.
  induction s as [|c s IH]; [reflexivity|]. cbn.
  intros [Hc H]%andb_prop. apply negb_true_iff in Hc.
  now rewrite Hc, IH.
Qed.

Lemma split_avoids sep s :
  avoids (fun a => Ascii.eqb a sep) s = true -> split sep s = [s].
Proof.
  induction s as [|c s IH]; [reflexivity|]. cbn.
  intros [Hc H]%andb_prop. apply negb_true_iff in Hc.
  now rewrite Hc, IH.
Qed.

Lemma split_app sep a b :
  avoids (fun x => Ascii.eqb x sep) a = true ->
  split sep (a ++ String sep b)%string = a :: split sep b.
Proof.
  induction a as [|c a IH]; cbn.
  - intros _. now rewrite Ascii.eqb_refl.
  - intros [Hc H]%andb_prop. apply negb_true_iff in Hc.
    now rewrite Hc, IH.
Qed.

Lemma skipWhite_avoids s : avoids isWhite s = true -> skipWhite s = s.
Proof.
  destruct s as [|c s]; [reflexivity|]. cbn.
  intros [Hc _]%andb_prop. apply negb_true_iff in Hc. now rewrite Hc.
Qed.

Lemma trimEnd_avoids s : avoids isWhite s = true -> trimEnd s = s.
Proof.
  induction s as [|c s IH]; [reflexivity|]. cbn.
  intros [Hc H]%andb_prop. apply negb_true_iff in Hc.
  rewrite IH by exact H. destruct s; [now rewrite Hc|reflexivity].
Qed.

Lemma trim_avoids s : avoids isWhite s = true -> trim s = s.
Proof.
  intros H. unfold trim. rewrite skipWhite_avoids by exact H.
  now apply trimEnd_avoids.
Qed.

(** X20.  A range whose two ends are written without a row, ["a-b"] with
    [a] and [b] strings of digits that denote safe integers, is not
    rejected: both missing rows are [undefined], which passes the [NaN]
    test and compares equal, so the parser hands out one position for
    every column between the two ends, each without a [y]; it hands out
    none when the two columns are the same. *)
Theorem range_without_rows_has_no_y (a b : string) (x y : Z) :
  allDigits a = true -> allDigits b = true ->
  parseInt a = Some x -> parseInt b = Some y ->
  safe x -> safe y ->
  parseCoordinateList (a ++ "-" ++ b)%string
  = if x =? y then []
    else map (fun v => {| px := Num v; py := Undefined |})
             (upto (Z.min x y) (Z.max x y)).
Proof.
  intros Da Db Pa Pb _ _.
  assert (S : forall (p : ascii -> bool),
             (forall c v, digit c = Some v -> p c = false) ->
             p "-"%char = false ->
             avoids p (a ++ "-" ++ b)%string = true).
  { intros p P Q. rewrite avoids_app. cbn [append avoids].
    rewrite (allDigits_avoids p a P Da), (allDigits_avoids p b P Db), Q.
    reflexivity. }
  assert (W : forall s, allDigits s = true -> trim s = s).
  { intros s D. apply trim_avoids, allDigits_avoids; [|exact D].
    intros c v H. apply (digit_plain c v H). }
  assert (C : forall s, allDigits s = true ->
                avoids (fun c => Ascii.eqb c ":") s = true).
  { intros s D. apply allDigits_avoids; [|exact D].
    intros c v H. apply (digit_plain c v H). }
  assert (M : forall s, allDigits s = true ->
                avoids (fun c => Ascii.eqb c "-") s = true).
  { intros s D. apply allDigits_avoids; [|exact D].
    intros c v H. apply (digit_plain c v H). }
  unfold parseCoordinateList.
  rewrite splitOn_avoids
    by (apply S; [intros c v H; apply (digit_plain c v H)|reflexivity]).
  cbn [map]. rewrite trim_avoids
    by (apply S; [intros c v H; apply (digit_plain c v H)|reflexivity]).
  assert (N : nonEmpty (a ++ "-" ++ b) = true) by (destruct a; reflexivity).
  cbn [filter]. rewrite N. cbn [flat_map]. rewrite app_nil_r.
  unfold parseSegment. rewrite includes_avoids, avoids_app.
  cbn [append avoids]. rewrite Ascii.eqb_refl, andb_false_r. cbn [negb].
  rewrite (split_app "-" a b (M a Da)), (split_avoids "-" b (M b Db)).
  cbv zeta. rewrite (split_avoids ":" a (C a Da)), (split_avoids ":" b (C b Db)).
  unfold coordAt. cbn [nth_error]. rewrite (W a Da), (W b Db), Pa, Pb.
  unfold expandRange. cbn -[upto].
  destruct (Z.eqb_spec x y) as [E | E]; [reflexivity|].
  destruct (Z.ltb_spec x y); cbn -[upto].
  - now rewrite Z.min_l, Z.max_r by lia.
  - now rewrite Z.min_r, Z.max_l by lia.
Qed.

Lemma range_without_rows_has_no_y_witness :
  parseCoordinateList "1-3"
  = [ {| px := Num 1; py := Undefined |}; {| px := Num 2; py := Undefined |};
      {| px := Num 3; py := Undefined |} ].
Proof.
  apply (range_without_rows_has_no_y "1" "3" 1 3);
    try reflexivity; apply safeb_safe; reflexivity.
Defined.

(* ---------------------------------------------------------------- *)
(** ** Probabilities of the scenario wizard *)

(** X21.  [sanitizeProbability] always returns a finite number between 0
    and 1, also for [NaN] and the two infinities; it returns a number that
    is already between 0 and 1 as it is, and applying it twice is applying
    it once. *)
Theorem probability_is_clamped (value : Number) :
  (exists q, sanitizeProbability value = Finite q /\ (0 <= q <= 1)%Q)
  /\ sanitizeProbability (sanitizeProbability value)
     = sanitizeProbability value
  /\ (forall q, value = Finite q -> (0 <= q <= 1)%Q ->
                sanitizeProbability value = value).
Proof.
  assert (Z0 : sanitizeProbability (Finite 0) = Finite 0) by reflexivity.
  assert (Z1 : sanitizeProbability (Finite 1) = Finite 1) by reflexivity.
  destruct value as [q| | |].
  2-4: (split; [eexists; split; [reflexivity|split; discriminate]|];
        split; [reflexivity|discriminate]).
  unfold sanitizeProbability. cbn [numLt isFinite].
  destruct (Qle_bool 0 q) eqn:L; cbn [negb].
  - destruct (Qle_bool q 1) eqn:U; cbn [negb].
    + apply Qle_bool_iff in L, U.
      split; [exists q; auto|]. split; [|reflexivity].
      cbn [numLt isFinite].
      apply Qle_bool_iff in L, U. now rewrite L, U.
    + split; [exists 1%Q; split; [reflexivity|split; discriminate]|].
      split; [exact Z1|].
      intros q' [= <-] [_ H]. apply Qle_bool_iff in H. congruence.
  - split; [exists 0%Q; split; [reflexivity|split; discriminate]|].
    split; [exact Z0|].
    intros q' [= <-] [H _]. apply Qle_bool_iff in H. congruence.
Qed.

Lemma probability_is_clamped_witness :
  sanitizeProbability (Finite (3 # 2)) = Finite 1
  /\ sanitizeProbability NotANumber = Finite 0
  /\ sanitizeProbability (Finite (1 # 10)) = Finite (1 # 10).
Proof.
  split; [reflexivity|]. split; [reflexivity|].
  apply (proj2 (proj2 (probability_is_clamped (Finite (1 # 10))))
               (1 # 10)%Q eq_refl).
  split; discriminate.
Defined.

(* ---------------------------------------------------------------- *)
(** ** Endpoint addresses *)

Lemma endsWithSlash_snoc s c :
  Api.endsWithSlash (s ++ String c "")%string = Ascii.eqb c "/".
Proof.
  induction s as [|a s IH]; [reflexivity|].
  cbn [append Api.endsWithSlash]. rewrite IH.
  destruct (s ++ String c "")%string eqn:E; [|reflexivity].
  destruct s; discriminate.
Qed.

Lemma dropLast_snoc s c : Api.dropLast (s ++ String c "")%string = s.
Proof.
  induction s as [|a s IH]; [reflexivity|].
  cbn [append Api.dropLast]. rewrite IH.
  destruct (s ++ String c "")%string eqn:E; [|reflexivity].
  destruct s; discriminate.
Qed.

Lemma endsWithSlash_cons c s :
  s <> ""%string -> Api.endsWithSlash (String c s) = Api.endsWithSlash s.
Proof. destruct s; [contradiction|reflexivity]. Qed.

Lemma dropLast_cons c s :
  s <> ""%string -> Api.dropLast (String c s) = String c (Api.dropLast s).
Proof. destruct s; [contradiction|reflexivity]. Qed.

Lemma prefix_dropLast p s :
  String.prefix p (Api.dropLast s) = true -> String.prefix p s = true.
Proof.
  revert s. induction p as [|a p IH]; intros s; [now destruct s|].
  destruct s as [|c s]; [discriminate|].
  destruct s as [|c' s]; [discriminate|].
  rewrite dropLast_cons by discriminate. cbn [String.prefix].
  destruct (ascii_dec a c); [|discriminate]. apply IH.
Qed.

(** X22.  Spellings of the API base that name the same endpoint give the
    same address: one trailing slash of the configured base is ignored, an
    unset base, an empty one and ["/"] all mean ["/api"], one trailing
    slash of the page origin is ignored, and a relative base is taken from
    the root of the origin whether or not it is written with a leading
    slash. *)
Theorem api_base_spellings (base origin path : string) :
  (Api.endsWithSlash base = false ->
   Api.resolveApiUrl (Some (base ++ "/")%string) origin path
   = Api.resolveApiUrl (Some base) origin path)
  /\ Api.resolveApiUrl (Some ""%string) origin path
     = Api.resolveApiUrl None origin path
  /\ Api.resolveApiUrl (Some "/"%string) origin path
     = Api.resolveApiUrl None origin path
  /\ (forall env, Api.endsWithSlash origin = false ->
        Api.resolveApiUrl env (origin ++ "/")%string path
        = Api.resolveApiUrl env origin path)
  /\ (base <> ""%string -> String.prefix "/" base = false ->
      String.prefix "http://" base = false ->
      String.prefix "https://" base = false ->
      Api.resolveApiUrl (Some (String "/" base)) origin path
      = Api.resolveApiUrl (Some base) origin path
      /\ exists rest,
           Api.resolveApiUrl (Some base) origin path
           = ((if Api.endsWithSlash origin then Api.dropLast origin
               else origin) ++ "/" ++ rest ++ path)%string
           /\ String.prefix "/" rest = false).
Proof.
  split; [|split; [|split; [|split]]]; try reflexivity.
  - intros E. unfold Api.resolveApiUrl, Api.apiBaseUrl, Api.rawBaseUrl.
    cbv zeta. now rewrite endsWithSlash_snoc, dropLast_snoc, E.
  - intros env E. unfold Api.resolveApiUrl. cbv zeta.
    now rewrite endsWithSlash_snoc, dropLast_snoc, E.
  - intros N S H1 H2.
    unfold Api.resolveApiUrl, Api.apiBaseUrl, Api.rawBaseUrl. cbv zeta.
    rewrite endsWithSlash_cons, dropLast_cons by exact N.
    set (b := if Api.endsWithSlash base then Api.dropLast base else base).
    assert (B : (if Api.endsWithSlash base
                 then String "/" (Api.dropLast base)
                 else String "/" base) = String "/" b).
    { unfold b. destruct (Api.endsWithSlash base); reflexivity. }
    rewrite B. clear B.
    assert (P : forall p, String.prefix p base = false ->
                          String.prefix p b = false).
    { intros p F. unfold b. destruct (Api.endsWithSlash base); [|exact F].
      destruct (String.prefix p (Api.dropLast base)) eqn:Q; [|reflexivity].
      apply prefix_dropLast in Q. congruence. }
    assert (Nb : b <> ""%string).
    { unfold b. destruct base as [|c [|c' base]]; [contradiction| |].
      - cbn. destruct (Ascii.eqb_spec c "/"); [|discriminate].
        subst c. discriminate S.
      - destruct (Api.endsWithSlash _); [|discriminate].
        rewrite dropLast_cons by discriminate. discriminate. }
    assert (Eb : String.eqb b "" = false).
    { destruct b; [contradiction|reflexivity]. }
    assert (X0 : String.eqb (String "/" b) "" = false) by reflexivity.
    assert (X1 : String.prefix "http://" (String "/" b) = false)
      by reflexivity.
    assert (X2 : String.prefix "https://" (String "/" b) = false)
      by reflexivity.
    assert (X3 : String.prefix "/" (String "/" b) = true)
      by (now destruct b).
    rewrite Eb, (P _ H1), (P _ H2), (P _ S), X0, X1, X2, X3. cbn [orb].
    split; [reflexivity|].
    exists b. split; [reflexivity|]. now apply P.
Qed.

Lemma api_base_spellings_witness :
  Api.resolveApiUrl (Some "api/v2/"%string) "http://localhost:5173/"
                    "/v1/scenarios/"
  = "http://localhost:5173/api/v2/v1/scenarios/"%string
  /\ Api.resolveApiUrl (Some "/api/v2"%string) "http://localhost:5173"
                       "/v1/scenarios/"
     = "http://localhost:5173/api/v2/v1/scenarios/"%string.
Proof.
  destruct (api_base_spellings "api/v2" "http://localhost:5173"
                               "/v1/scenarios/") as (A & _ & _ & B & C).
  destruct C as [C _]; try reflexivity; [discriminate|].
  split; [|reflexivity].
  change "api/v2/"%string with ("api/v2" ++ "/")%string.
  change "http://localhost:5173/"%string
    with ("http://localhost:5173" ++ "/")%string.
  rewrite (B (Some ("api/v2" ++ "/")%string)) by reflexivity.
  rewrite A by reflexivity. reflexivity.
Defined.

(* ---------------------------------------------------------------- *)
(** ** The heat-map toggle *)

Lemma step_heatmap_toggle d b :
  has_run d = true ->
  fst (step d (HeatmapToggled b)) = set_showHeatmap b d.
Proof.
  intros H. rewrite step_fst. cbv zeta. cbn [activeRunReplaced handle].
  rewrite H. cbn [fst]. now apply modeEffect_same.
Qed.

(** X24.  With a run on screen, switching the heat map off hands the
    canvas no heat map and the canvas paints no heat-map cell; everything
    else it is handed stays the same.  Switching it on again hands the
    canvas the current heat map. *)
Theorem heatmap_toggle_hides_layer (d : View) (props : CanvasProps) :
  canvasProps d = Some props ->
  let off := fst (step d (HeatmapToggled false)) in
  let on := fst (step off (HeatmapToggled true)) in
  canvasProps off
  = Some {| cv_layout := cv_layout props; cv_packages := cv_packages props;
            cv_robots := cv_robots props;
            cv_reservations := cv_reservations props;
            cv_heatmap := None; cv_showHeatmap := false |}
  /\ (forall p, canvasProps off = Some p -> CanvasLayers.heatmapLayer p = [])
  /\ canvasProps on
     = Some {| cv_layout := cv_layout props; cv_packages := cv_packages props;
               cv_robots := cv_robots props;
               cv_reservations := cv_reservations props;
               cv_heatmap := Some (currentHeatmap d);
               cv_showHeatmap := true |}.
Proof.
  intros P off on.
  assert (R : has_run d = true).
  { unfold canvasProps in P. unfold has_run.
    destruct (activeRun d); [reflexivity|discriminate]. }
  assert (Eoff : off = set_showHeatmap false d)
    by (now apply step_heatmap_toggle).
  assert (Eon : on = set_showHeatmap true (set_showHeatmap false d)).
  { unfold on. rewrite Eoff. now apply step_heatmap_toggle. }
  assert (O : canvasProps off
              = Some {| cv_layout := cv_layout props;
                        cv_packages := cv_packages props;
                        cv_robots := cv_robots props;
                        cv_reservations := cv_reservations props;
                        cv_heatmap := None; cv_showHeatmap := false |}).
  { rewrite Eoff. unfold canvasProps in *. cbn [activeRun set_showHeatmap].
    destruct (activeRun d); [|discriminate]. injection P as <-.
    reflexivity. }
  split; [exact O|]. split.
  - intros p Q. rewrite O in Q. injection Q as <-.
    unfold CanvasLayers.heatmapLayer. cbn.
    destruct (cv_layout props); reflexivity.
  - rewrite Eon. unfold canvasProps in *.
    cbn [activeRun set_showHeatmap].
    destruct (activeRun d); [|discriminate]. injection P as <-.
    reflexivity.
Qed.

Lemma heatmap_toggle_hides_layer_witness :
  let off := fst (step Sample.streaming (HeatmapToggled false)) in
  option_map cv_heatmap (canvasProps off) = Some None
  /\ option_map cv_layout (canvasProps off) = Some (Some (Sample.lay 8 6)).
Proof.
  cbv zeta.
  destruct (canvasProps Sample.streaming) as [props|] eqn:P;
    [|vm_compute in P; discriminate P].
  destruct (heatmap_toggle_hides_layer Sample.streaming props P)
    as (A & _ & _).
  rewrite A. cbn [option_map cv_heatmap cv_layout].
  split; [reflexivity|].
  vm_compute in P. injection P as <-. reflexivity.
Defined.
